(** * Score attestation script: a shallow embedding and its properties

    The development follows the attestation script of the repository
    (the second half of [src/getNullifiers.ts]): [parseDecimal],
    [encodeScoreData], [requestV2Score], [createAttestationData],
    [writeScoreOnchain], [processAddresses] and [writeCsv].

    - JavaScript strings are [string]s; a character stands for one code
      unit.  Every character class the script relies on (digits, the dot,
      the signs, white space) lives in the Latin-1 range.
    - [bigint] values are [Z].
    - A function that may throw returns a [result]; asynchronous code that
      talks to the score service and to the chain is a state and exception
      monad over the state of the outside world, which also keeps the trace
      of the calls that were made.
    - Library code is not part of the repository.  [ethers.parseUnits]
      ([FixedNumber.fromString]) and the ABI coder on the types of
      [encodeScoreData] are modelled after ethers v6; the HTTP client, the
      contract, the [Date] and [BigInt] built-ins and the text of the error
      messages (which depends on the version of the library and of the
      engine) are parameters of the development (record [Runtime]).
    - [console.log] and [console.error] output is not modelled. *)

From Stdlib Require Import ZArith List String Ascii Bool Lia QArith DecimalString.
From Equations Require Import Equations.
Import ListNotations.

Local Open Scope string_scope.
Local Open Scope Z_scope.

(** ** Results of code that may throw *)

Inductive result (E A : Type) : Type :=
| Ok (a : A)
| Throw (e : E).
Arguments Ok {E A} a.
Arguments Throw {E A} e.

(** ** JavaScript string and number primitives *)

Module Js.

Definition isDigit (c : ascii) : bool :=
  let n := nat_of_ascii c in ((48 <=? n) && (n <=? 57))%nat.

Definition isDot (c : ascii) : bool := Ascii.eqb c ".".

Definition digitValue (c : ascii) : Z := Z.of_nat (nat_of_ascii c) - 48.

(** The longest run of digits at the head of a string: what a greedy
    run of [\d] consumes, and what it leaves. *)
Fixpoint takeDigits (s : string) : string :=
  match s with
  | String c r => if isDigit c then String c (takeDigits r) else ""
  | "" => ""
  end.

Fixpoint dropDigits (s : string) : string :=
  match s with
  | String c r => if isDigit c then dropDigits r else s
  | "" => ""
  end.

(** [s.substring(0, n)] and [s.substring(n)]. *)
Fixpoint take (n : nat) (s : string) : string :=
  match n, s with
  | S k, String c r => String c (take k r)
  | _, _ => ""
  end.

Fixpoint skip (n : nat) (s : string) : string :=
  match n, s with
  | S k, String _ r => skip k r
  | _, _ => s
  end.

(** The integer written by a string of decimal digits, most significant
    digit first (the empty string gives 0). *)
Fixpoint digitsValueFrom (acc : Z) (s : string) : Z :=
  match s with
  | String c r => digitsValueFrom (10 * acc + digitValue c) r
  | "" => acc
  end.

Definition digitsValue (s : string) : Z := digitsValueFrom 0 s.

Fixpoint allDigits (s : string) : bool :=
  match s with
  | String c r => isDigit c && allDigits r
  | "" => true
  end.

(** A string of [n] zeros. *)
Fixpoint zeros (n : nat) : string :=
  match n with
  | O => ""
  | S k => String "0" (zeros k)
  end.

Fixpoint allZeros (s : string) : bool :=
  match s with
  | String c r => Ascii.eqb c "0" && allZeros r
  | "" => true
  end.

End Js.

(** ** ethers v6: [parseUnits(value, decimals)]

    [parseUnits] is [FixedNumber.fromString(value, { decimals, width: 512 }).value]:
    the string must be an optional minus sign, a run of digits, an optional
    dot and a run of digits (its regular expression has a group for the sign
    and one for each run, anchored at both ends) with at least one digit; the
    fraction is padded with zeros, digits past [decimals] must all be zero,
    and the integer must fit the signed [width]-bit format. *)

Module Ethers.

Inductive Fault : Type :=
| InvalidFixedNumberString   (* INVALID_ARGUMENT: invalid FixedNumber string value *)
| TooManyDecimals            (* NUMERIC_FAULT, underflow: too many decimals for format *)
| Overflow.                  (* NUMERIC_FAULT, overflow *)

(** The match of [value] against the regular expression of [fromString]:
    the three groups (sign, whole digits, decimal digits), or [None] when
    the string does not match.  Every quantifier is greedy and no
    shorter choice can reach the end of the string when the greedy one does
    not.  [matchUnsigned] is the part after the sign group. *)
Definition matchUnsigned (r0 : string) : option (string * string) :=
  let whole := Js.takeDigits r0 in
  let r1 := Js.dropDigits r0 in
  let r2 := match r1 with String c r => if Js.isDot c then r else r1 | "" => r1 end in
  let decimal := Js.takeDigits r2 in
  match Js.dropDigits r2 with
  | "" => Some (whole, decimal)
  | _ => None
  end.

Definition matchFixed (value : string) : option (string * string * string) :=
  let '(sign, r0) :=
    match value with
    | String c r => if Ascii.eqb c "-" then ("-", r) else ("", value)
    | "" => ("", value)
    end in
  match matchUnsigned r0 with
  | Some (whole, decimal) => Some (sign, whole, decimal)
  | None => None
  end.

(** The block of zeros the library pads with: 0000 doubled until it has at
    least 80 characters. *)
Definition Zeros : string := Js.zeros 128.

(** [while (decimal.length < decimals) { decimal += Zeros; }]; every turn
    adds characters, so [decimals] turns are enough. *)
Fixpoint padDecimal (fuel decimals : nat) (decimal : string) : string :=
  match fuel with
  | O => decimal
  | S f =>
      if (String.length decimal <? decimals)%nat
      then padDecimal f decimals (decimal ++ Zeros)
      else decimal
  end.

Definition fromString (value : string) (decimals : nat) (width : Z) : result Fault Z :=
  match matchFixed value with
  | None => Throw InvalidFixedNumberString
  | Some (sign, whole, decimal) =>
      if (String.length whole + String.length decimal =? 0)%nat
      then Throw InvalidFixedNumberString
      else
        let whole := if String.eqb whole "" then "0" else whole in
        let decimal := padDecimal decimals decimals decimal in
        if negb (Js.allZeros (Js.skip decimals decimal))
        then Throw TooManyDecimals
        else
          let decimal := Js.take decimals decimal in
          let magnitude := Js.digitsValue (whole ++ decimal) in
          let value := if String.eqb sign "-" then - magnitude else magnitude in
          let limit := 2 ^ (width - 1) in
          if (- limit <=? value) && (value <? limit)
          then Ok value
          else Throw Overflow
  end.

Definition parseUnits (value : string) (decimals : nat) : result Fault Z :=
  fromString value decimals 512.

End Ethers.

(** ** FixedPointDecimal: [parseDecimal] *)

Definition SCORE_DECIMALS : nat := 4.

(** The lookbehind [(?<=\.\d{4})] ([SCORE_DECIMALS] is 4) read forwards: a
    dot and four digits at the head of the string; the result is what
    follows them. *)
Definition afterDotAndDigits (s : string) : option string :=
  match s with
  | String c (String d1 (String d2 (String d3 (String d4 r)))) =>
      if Js.isDot c && Js.isDigit d1 && Js.isDigit d2 && Js.isDigit d3 && Js.isDigit d4
      then Some r else None
  | _ => None
  end.

(** The [replace] call of [parseDecimal], which deletes the first match of
    the digits [\d+] that follow the lookbehind: the leftmost place where a
    dot and four digits are followed by at least one digit loses the whole
    run of digits that follows; the regular expression is not global, so
    nothing after that place is looked at again. *)
Fixpoint replaceExcess (s : string) : string :=
  match s with
  | "" => ""
  | String c r =>
      match afterDotAndDigits (String c r) with
      | Some (String d t) =>
          if Js.isDigit d
          then Js.take 5 (String c r) ++ Js.dropDigits t
          else String c (replaceExcess r)
      | _ => String c (replaceExcess r)
      end
  end.

Definition parseDecimal (decimalStr : string) : result Ethers.Fault Z :=
  let truncated := replaceExcess decimalStr in
  Ethers.parseUnits truncated SCORE_DECIMALS.

(** ** The decimal strings of the specification

    A second, independent reading of a decimal string, used to state what
    [parseDecimal] computes: an optional sign, then decimal digits with at
    most one decimal point among them, and at least one digit. *)

Module DecimalSpec.

Definition isSign (c : ascii) : bool := Ascii.eqb c "-" || Ascii.eqb c "+".

Definition stripSign (s : string) : string :=
  match s with
  | String c r => if isSign c then r else s
  | "" => ""
  end.

Definition isNegative (s : string) : bool :=
  match s with
  | String c _ => Ascii.eqb c "-"
  | "" => false
  end.

Definition hasPlus (s : string) : bool :=
  match s with
  | String c _ => Ascii.eqb c "+"
  | "" => false
  end.

Fixpoint onlyDigitsAndDots (s : string) : bool :=
  match s with
  | String c r => (Js.isDigit c || Js.isDot c) && onlyDigitsAndDots r
  | "" => true
  end.

Fixpoint countDots (s : string) : nat :=
  match s with
  | String c r => ((if Js.isDot c then 1 else 0) + countDots r)%nat
  | "" => O
  end.

Fixpoint countDigits (s : string) : nat :=
  match s with
  | String c r => ((if Js.isDigit c then 1 else 0) + countDigits r)%nat
  | "" => O
  end.

Definition decimal_grammar (s : string) : bool :=
  let body := stripSign s in
  onlyDigitsAndDots body && (countDots body <=? 1)%nat && (1 <=? countDigits body)%nat.

(** The text before and after the first decimal point. *)
Fixpoint beforeDot (s : string) : string :=
  match s with
  | String c r => if Js.isDot c then "" else String c (beforeDot r)
  | "" => ""
  end.

Fixpoint afterDot (s : string) : string :=
  match s with
  | String c r => if Js.isDot c then r else afterDot r
  | "" => ""
  end.

Definition frac_digits (s : string) : nat := String.length (afterDot s).

(** The same string with at most [n] fractional digits kept. *)
Fixpoint truncateFrac (n : nat) (s : string) : string :=
  match s with
  | String c r => if Js.isDot c then String c (Js.take n r) else String c (truncateFrac n r)
  | "" => ""
  end.

(** The rational number a decimal string denotes. *)
Definition decimal_numerator (s : string) : Z :=
  let body := stripSign s in
  let k := Z.of_nat (String.length (afterDot body)) in
  let m := Js.digitsValue (beforeDot body) * 10 ^ k + Js.digitsValue (afterDot body) in
  if isNegative s then - m else m.

Definition decimal_denominator (s : string) : positive :=
  Z.to_pos (10 ^ Z.of_nat (String.length (afterDot (stripSign s)))).

Definition decimal_value (s : string) : Q :=
  Qmake (decimal_numerator s) (decimal_denominator s).

(** A one followed by 155 zeros. *)
Definition bigDecimal : string := String "1" (Js.zeros 155).

(** The scaled value lies in the range of [parseUnits]. *)
Definition in_range (s : string) : Prop :=
  (Qle (inject_Z (- 2 ^ 511)) (decimal_value s * inject_Z 10000) /\
   Qlt (decimal_value s * inject_Z 10000) (inject_Z (2 ^ 511)))%Q.

End DecimalSpec.

(** ** [parseFloat(s) > 0]

    [parseFloat] skips leading white space, reads the longest prefix that is
    a decimal literal (a sign, [Infinity], or digits with an optional
    fraction and an optional exponent) and returns the binary64 number
    nearest to its value (V8 rounds literals of any length correctly), or
    NaN when there is no such prefix.  Only the comparison with zero is used
    by the script.  Rounding to nearest, ties to even, sends a positive real
    to zero exactly when it is at most 2^-1075, half of the least positive
    binary64 number; so the comparison is decided on the exact value and no
    floating-point number is needed. *)

Module JsFloat.

Definition isStrWhiteSpaceChar (c : ascii) : bool :=
  let n := nat_of_ascii c in
  ((9 <=? n) && (n <=? 13) || (n =? 32) || (n =? 160))%nat.

Fixpoint trimStart (s : string) : string :=
  match s with
  | String c r => if isStrWhiteSpaceChar c then trimStart r else s
  | "" => ""
  end.

(** [s.trim()]: white space and line terminators removed at both ends. *)
Fixpoint trimEnd (s : string) : string :=
  match s with
  | "" => ""
  | String c r =>
      let r' := trimEnd r in
      if isStrWhiteSpaceChar c && String.eqb r' "" then "" else String c r'
  end.

Definition trim (s : string) : string := trimEnd (trimStart s).

Definition isExponentIndicator (c : ascii) : bool :=
  Ascii.eqb c "e" || Ascii.eqb c "E".

(** The optional sign in front of a literal or of an exponent: whether it is
    a minus sign, and what follows it. *)
Definition signOf (s : string) : bool * string :=
  match s with
  | String c r =>
      if Ascii.eqb c "-" then (true, r)
      else if Ascii.eqb c "+" then (false, r)
      else (false, s)
  | "" => (false, "")
  end.

(** The value of the exponent part at the head of [s]; 0 when [s] does not
    start with a complete exponent part, which is then not in the prefix. *)
Definition exponentPart (s : string) : Z :=
  match s with
  | String c r =>
      if isExponentIndicator c then
        let '(neg, d) := signOf r in
        let ds := Js.takeDigits d in
        if (String.length ds =? 0)%nat then 0
        else if neg then - Js.digitsValue ds else Js.digitsValue ds
      else 0
  | "" => 0
  end.

(** [m * 10^e] rounds to a positive binary64 number. *)
Definition roundsToPositive (m e : Z) : bool :=
  (0 <? m) && ((0 <=? e) || (10 ^ (- e) <? m * 2 ^ 1075)).

(** 2^-1075: the positive reals that round to zero are those up to it. *)
Definition roundingThreshold : Q := Qmake 1 (2 ^ 1075)%positive.

Definition parseFloat_positive (s : string) : bool :=
  let '(neg, u) := signOf (trimStart s) in
  if String.prefix "Infinity" u then negb neg
  else
    let int := Js.takeDigits u in
    let r1 := Js.dropDigits u in
    let '(frac, r2) :=
      match r1 with
      | String c r => if Js.isDot c then (Js.takeDigits r, Js.dropDigits r) else ("", r1)
      | "" => ("", "")
      end in
    if (String.length int + String.length frac =? 0)%nat then false
    else
      negb neg &&
      roundsToPositive (Js.digitsValue (int ++ frac))
                       (exponentPart r2 - Z.of_nat (String.length frac)).

End JsFloat.

(** ** Data model *)

Module Stamp.
Record t : Type := {
  score : string;
  dedup : bool;
  expiration_date : option string
}.
End Stamp.

(** The response of the score service.  [stamps] lists the entries of the
    object in its property order, as [Object.entries] returns them; an
    absent [error] is [None]. *)
Module V2ScoreResponseData.
Record t : Type := {
  address : string;
  score : string;
  threshold : string;
  passing_score : bool;
  last_score_timestamp : string;
  expiration_timestamp : string;
  error : option string;
  stamps : list (string * Stamp.t)
}.
End V2ScoreResponseData.

Module AttestationRequestData.
Record t : Type := {
  recipient : string;
  expirationTime : Z;
  revocable : bool;
  refUID : string;
  data : string;
  value : Z
}.
End AttestationRequestData.

Module MultiAttestationRequest.
Record t : Type := {
  schema : string;
  data : list AttestationRequestData.t
}.
End MultiAttestationRequest.

(** One element of the array [processAddresses] returns. *)
Module Outcome.
Record t : Type := {
  address : string;
  score : string;
  txHash : option string;
  error : option string
}.
End Outcome.

(** The values handed to [abiCoder.encode], in the order of its type list;
    a stamp is the object with a [provider] and a [score]. *)
Module ScoreValues.
Record t : Type := {
  passing_score : bool;
  score_decimals : Z;
  scorer_id : Z;
  score : Z;
  threshold : Z;
  stamps : list (string * Z)
}.
End ScoreValues.

(** ** ethers v6: [AbiCoder.encode] on the types of [encodeScoreData]

    The coder of the type list [bool, uint8, uint128, uint32, uint32,
    tuple(string,uint256)[]] encodes the six values in order and stops at
    the first one it refuses.  A boolean is the word 1 or 0.  An unsigned
    integer of [n] bits must lie between 0 and 2^n - 1 and is one word.  The
    array is dynamic: its place in the head holds the offset of the tail
    (six words, 192 bytes), and the tail is the length of the array followed
    by its elements.  An element goes to the tuple coder, which takes an
    array of values, or an object whose properties it reads under the names
    of the components of the tuple; the components of
    [tuple(string,uint256)] have no name, so an object is refused at the
    first component.  Every stamp [encodeScoreData] is given is such an
    object, with a [provider] and a [score].  The result is the text of the
    words in hexadecimal, lower case, after 0x. *)

Module AbiCoder.

Inductive Fault : Type :=
| OutOfBounds (type : string) (value : Z)
    (* INVALID_ARGUMENT: value out-of-bounds *)
| MissingNames (provider : string) (score : Z).
    (* INVALID_ARGUMENT: cannot encode object for signature with missing names *)

Definition hexDigit (n : Z) : ascii :=
  if n <? 10 then ascii_of_nat (Z.to_nat (48 + n)) else ascii_of_nat (Z.to_nat (87 + n)).

(** The last [digits] hexadecimal digits of a number. *)
Fixpoint hex (digits : nat) (n : Z) : string :=
  match digits with
  | O => ""
  | S k => hex k (n / 16) ++ String (hexDigit (n mod 16)) ""
  end.

(** A word of 32 bytes. *)
Definition word (n : Z) : string := hex 64 n.

Definition uint (bits : Z) (type : string) (value : Z) : result Fault string :=
  if (0 <=? value) && (value <? 2 ^ bits) then Ok (word value)
  else Throw (OutOfBounds type value).

Definition encode (values : ScoreValues.t) : result Fault string :=
  let passing := word (if ScoreValues.passing_score values then 1 else 0) in
  match uint 8 "uint8" (ScoreValues.score_decimals values) with
  | Throw f => Throw f
  | Ok decimals =>
  match uint 128 "uint128" (ScoreValues.scorer_id values) with
  | Throw f => Throw f
  | Ok scorer =>
  match uint 32 "uint32" (ScoreValues.score values) with
  | Throw f => Throw f
  | Ok score =>
  match uint 32 "uint32" (ScoreValues.threshold values) with
  | Throw f => Throw f
  | Ok threshold =>
  match ScoreValues.stamps values with
  | (provider, stampScore) :: _ => Throw (MissingNames provider stampScore)
  | [] =>
      Ok ("0x" ++ passing ++ decimals ++ scorer ++ score ++ threshold ++
          word 192 ++ word 0)
  end end end end end.

End AbiCoder.

Record Tx : Type := { hash : string }.

(** A thrown value: an instance of [Error] with its message, or anything
    else. *)
Inductive Thrown : Type :=
| JsError (message : string)
| NonError.

Inductive Event : Type :=
| EvGet (url authorization : string)
| EvSubmit (request : list MultiAttestationRequest.t)
| EvWait (tx : Tx)
| EvTimeout (ms : Z).

Definition ZERO_BYTES32 : string :=
  "0x0000000000000000000000000000000000000000000000000000000000000000".

(** ** What the script takes from its environment

    The configuration read from [process.env], the score service behind
    [axios.get], the attester contract, the timer, and the library and
    built-in functions whose code is not in the repository. *)
Record Runtime : Type := {
  World : Type;
  SCORER_ENDPOINT : string;
  SCORER_API_KEY : string;
  SCHEMA_UID : string;
  (* axios.get(url, { headers: { Authorization } }): response.data, or a rejection *)
  axios_get : string -> string -> World -> result Thrown V2ScoreResponseData.t * World;
  (* contract.submitAttestations(request): the transaction, or a rejection *)
  submitAttestations :
    list MultiAttestationRequest.t -> World -> result Thrown Tx * World;
  (* tx.wait() *)
  tx_wait : Tx -> World -> result Thrown unit * World;
  (* the world after a timer of so many milliseconds has fired *)
  elapse : Z -> World -> World;
  (* new Date(s).getTime() in milliseconds; None is NaN *)
  Date_getTime : string -> option Z;
  (* BigInt(s) for a string; None is a SyntaxError *)
  BigInt_string : string -> option Z;
  BigInt_NaN_message : string;
  BigInt_syntax_message : string -> string;
  (* the message of the error parseUnits throws for a fault on the string it
     was given: the text of the fault, then the string or the number at
     fault, the error code and the version of the library *)
  ethers_message : Ethers.Fault -> string -> string;
  (* the message of the error abiCoder.encode throws for a fault *)
  abi_message : AbiCoder.Fault -> string
}.

(** ** The attestation script *)

Section Script.

Context (rt : Runtime).

(** The state threaded through the asynchronous code: the outside world,
    the calls made so far, and the [results] array of [processAddresses]. *)
Record State : Type := {
  world : World rt;
  trace : list Event;
  results : list Outcome.t
}.

Definition M (A : Type) : Type := State -> result Thrown A * State.

Definition ret {A} (a : A) : M A := fun st => (Ok a, st).

Definition bind {A B} (m : M A) (k : A -> M B) : M B :=
  fun st =>
    match m st with
    | (Ok a, st') => k a st'
    | (Throw e, st') => (Throw e, st')
    end.

Definition throw {A} (e : Thrown) : M A := fun st => (Throw e, st).

Definition try_catch {A} (body : M A) (handler : Thrown -> M A) : M A :=
  fun st =>
    match body st with
    | (Ok a, st') => (Ok a, st')
    | (Throw e, st') => handler e st'
    end.

Definition lift {A} (r : result Thrown A) : M A := fun st => (r, st).

Notation "x <- m ;; k" := (bind m (fun x => k))
  (at level 61, m at next level, right associativity).
Notation "m ;;; k" := (bind m (fun _ => k))
  (at level 61, right associativity).

(** The same sequencing for code that throws without touching the world. *)
Definition andThen {A B} (r : result Thrown A) (k : A -> result Thrown B) : result Thrown B :=
  match r with
  | Ok a => k a
  | Throw e => Throw e
  end.

Notation "x <-! r ;; k" := (andThen r (fun x => k))
  (at level 61, r at next level, right associativity).

(** *** Calls that leave the script *)

Definition logged (e : Event) (w : World rt) (st : State) : State :=
  {| world := w; trace := trace st ++ [e]; results := results st |}.

Definition axiosGet (url authorization : string) : M V2ScoreResponseData.t :=
  fun st =>
    let '(r, w) := axios_get rt url authorization (world st) in
    (r, logged (EvGet url authorization) w st).

Definition contract_submitAttestations (request : list MultiAttestationRequest.t) : M Tx :=
  fun st =>
    let '(r, w) := submitAttestations rt request (world st) in
    (r, logged (EvSubmit request) w st).

Definition wait (tx : Tx) : M unit :=
  fun st =>
    let '(r, w) := tx_wait rt tx (world st) in
    (r, logged (EvWait tx) w st).

(** [await new Promise(resolve => setTimeout(resolve, ms))]. *)
Definition setTimeout (ms : Z) : M unit :=
  fun st => (Ok tt, logged (EvTimeout ms) (elapse rt ms (world st)) st).

Definition results_push (o : Outcome.t) : M unit :=
  fun st => (Ok tt, {| world := world st; trace := trace st; results := results st ++ [o] |}).

(** *** [parseDecimal] as the script sees it: a [bigint], or the error
    [parseUnits] throws for the string [parseDecimal] gave it *)

Definition thrownFault (decimalStr : string) : result Thrown Z :=
  match parseDecimal decimalStr with
  | Ok n => Ok n
  | Throw f => Throw (JsError (ethers_message rt f (replaceExcess decimalStr)))
  end.

(** *** [encodeScoreData] *)

Definition encodeScoreData (passing_score : bool) (score_decimals scorer_id score threshold : Z)
    (stamps : list (string * Z)) : result Thrown string :=
  match AbiCoder.encode
          {| ScoreValues.passing_score := passing_score;
             ScoreValues.score_decimals := score_decimals;
             ScoreValues.scorer_id := scorer_id;
             ScoreValues.score := score;
             ScoreValues.threshold := threshold;
             ScoreValues.stamps := stamps |} with
  | Ok encoded => Ok encoded
  | Throw f => Throw (JsError (abi_message rt f))
  end.

(** *** [requestV2Score] *)

Definition getScoreUrl (address scorerId : string) : string :=
  SCORER_ENDPOINT rt ++ "/internal/score/v2/" ++ scorerId ++ "/" ++ address.

Definition requestV2Score (address scorerId : string) : M V2ScoreResponseData.t :=
  try_catch (axiosGet (getScoreUrl address scorerId) (SCORER_API_KEY rt))
            (fun error => throw error).

(** *** [createAttestationData] *)

(** The callback of [filter]. *)
Definition stampCounts (entry : string * Stamp.t) : bool :=
  JsFloat.parseFloat_positive (Stamp.score (snd entry)) && negb (Stamp.dedup (snd entry)).

(** [map] with a callback that may throw: the first failure, in the order of
    the array, ends the loop. *)
Fixpoint mapThrowing {A B} (f : A -> result Thrown B) (l : list A) : result Thrown (list B) :=
  match l with
  | [] => Ok []
  | a :: r =>
      b <-! f a ;;
      bs <-! mapThrowing f r ;;
      Ok (b :: bs)
  end.

Definition stampEntry (entry : string * Stamp.t) : result Thrown (string * Z) :=
  score <-! thrownFault (Stamp.score (snd entry)) ;;
  Ok (fst entry, score).

Definition createAttestationData (address : string) (scoreData : V2ScoreResponseData.t)
    (scorerId : string) : result Thrown AttestationRequestData.t :=
  expirationTime <-!
    match Date_getTime rt (V2ScoreResponseData.expiration_timestamp scoreData) with
    | Some ms => Ok (ms / 1000)
    | None => Throw (JsError (BigInt_NaN_message rt))
    end ;;
  stamps <-! mapThrowing stampEntry (filter stampCounts (V2ScoreResponseData.stamps scoreData)) ;;
  scorer_id <-!
    match BigInt_string rt scorerId with
    | Some n => Ok n
    | None => Throw (JsError (BigInt_syntax_message rt scorerId))
    end ;;
  score <-! thrownFault (V2ScoreResponseData.score scoreData) ;;
  threshold <-! thrownFault (V2ScoreResponseData.threshold scoreData) ;;
  encodedData <-!
    encodeScoreData (V2ScoreResponseData.passing_score scoreData)
                    (Z.of_nat SCORE_DECIMALS) scorer_id score threshold stamps ;;
  Ok {| AttestationRequestData.recipient := address;
        AttestationRequestData.expirationTime := expirationTime;
        AttestationRequestData.revocable := true;
        AttestationRequestData.refUID := ZERO_BYTES32;
        AttestationRequestData.data := encodedData;
        AttestationRequestData.value := 0 |}.

(** *** [writeScoreOnchain] *)

Definition multiAttestationRequest (attestationData : AttestationRequestData.t)
  : list MultiAttestationRequest.t :=
  [ {| MultiAttestationRequest.schema := SCHEMA_UID rt;
       MultiAttestationRequest.data := [attestationData] |} ].

Definition writeScoreOnchain (address : string) (scoreData : V2ScoreResponseData.t)
    (scorerId : string) : M string :=
  try_catch
    (attestationData <- lift (createAttestationData address scoreData scorerId) ;;
     tx <- contract_submitAttestations (multiAttestationRequest attestationData) ;;
     wait tx ;;;
     ret (hash tx))
    (fun error => throw error).

(** *** [processAddresses] *)

(** [if (scoreData.error)]: the field is there and is not the empty string. *)
Definition truthy (field : option string) : bool :=
  match field with
  | Some s => negb (String.eqb s "")
  | None => false
  end.

(** [error instanceof Error ? error.message : "Unknown error"]. *)
Definition errorText (error : Thrown) : string :=
  match error with
  | JsError message => message
  | NonError => "Unknown error"
  end.

(** The body of the inner loop for one address. *)
Definition processAddress (scorerId address : string) : M unit :=
  try_catch
    (scoreData <- requestV2Score address scorerId ;;
     if truthy (V2ScoreResponseData.error scoreData)
     then
       results_push {| Outcome.address := address;
                       Outcome.score := "0";
                       Outcome.txHash := None;
                       Outcome.error := V2ScoreResponseData.error scoreData |}
     else
       txHash <- writeScoreOnchain address scoreData scorerId ;;
       results_push {| Outcome.address := address;
                       Outcome.score := V2ScoreResponseData.score scoreData;
                       Outcome.txHash := Some txHash;
                       Outcome.error := None |} ;;;
       setTimeout 1000)
    (fun error =>
       results_push {| Outcome.address := address;
                       Outcome.score := "0";
                       Outcome.txHash := None;
                       Outcome.error := Some (errorText error) |}).

(** [for (const address of batch) { ... }]. *)
Fixpoint forEachAddress (scorerId : string) (batch : list string) : M unit :=
  match batch with
  | [] => ret tt
  | address :: rest => processAddress scorerId address ;;; forEachAddress scorerId rest
  end.

Definition batchSize : nat := 5.

(** [addresses.slice(i, j)]. *)
Definition slice {A} (i j : nat) (l : list A) : list A := firstn (j - i)%nat (skipn i l).

(** [for (let i = 0; i < addresses.length; i += batchSize) { ... }], from the
    current value of [i]. *)
Equations? batchLoop (addresses : list string) (scorerId : string) (i : nat) (st : State)
  : result Thrown unit * State by wf (List.length addresses - i)%nat lt :=
  batchLoop addresses scorerId i st with lt_dec i (List.length addresses) := {
    | left _ with forEachAddress scorerId (slice i (i + batchSize)%nat addresses) st := {
        | (Ok _, st') => batchLoop addresses scorerId (i + batchSize)%nat st'
        | (Throw e, st') => (Throw e, st') }
    | right _ => (Ok tt, st) }.
Proof. unfold batchSize. lia. Qed.

(** [const results = []] on entry and [return results] on exit. *)
Definition fresh (st : State) : State :=
  {| world := world st; trace := trace st; results := [] |}.

Definition returnResults (r : result Thrown unit * State) : result Thrown (list Outcome.t) * State :=
  match r with
  | (Ok _, st') => (Ok (results st'), st')
  | (Throw e, st') => (Throw e, st')
  end.

Definition processAddresses (addresses : list string) (scorerId : string) : M (list Outcome.t) :=
  fun st => returnResults (batchLoop addresses scorerId 0 (fresh st)).

End Script.

Arguments world {rt} _.
Arguments trace {rt} _.
Arguments results {rt} _.

(** *** [writeCsv]: the report *)

(** [x || ""] for an optional string. *)
Definition orEmpty (field : option string) : string :=
  match field with
  | Some s => s
  | None => ""
  end.

Definition csvRow (r : Outcome.t) : string :=
  Outcome.address r ++ "," ++ Outcome.score r ++ "," ++
  orEmpty (Outcome.txHash r) ++ "," ++ orEmpty (Outcome.error r).

Definition newline : string := String (ascii_of_nat 10) "".

Definition csvContent (results : list Outcome.t) : string :=
  String.concat newline ("address,score,txHash,error" :: map csvRow results).

(** ** Observations on a run *)

Definition isGet (e : Event) : bool :=
  match e with
  | EvGet _ _ => true
  | _ => false
  end.

Inductive Kind : Type := Get | Submit | Wait | Timeout.

Definition kind (e : Event) : Kind :=
  match e with
  | EvGet _ _ => Get
  | EvSubmit _ => Submit
  | EvWait _ => Wait
  | EvTimeout _ => Timeout
  end.

Definition isSubmit (e : Event) : bool :=
  match e with
  | EvSubmit _ => true
  | _ => false
  end.

(** The outcomes pushed for an address that was not attested. *)
Definition zeroOutcome (address : string) (error : option string) : Outcome.t :=
  {| Outcome.address := address;
     Outcome.score := "0";
     Outcome.txHash := None;
     Outcome.error := error |}.

(** An outcome carries a transaction hash or an error, not both and not
    neither; a failed address is reported with score 0. *)
Definition settled (o : Outcome.t) : Prop :=
  (exists tx, Outcome.txHash o = Some tx /\ Outcome.error o = None) \/
  (exists e, Outcome.txHash o = None /\ Outcome.error o = Some e /\ Outcome.score o = "0").

(** ** An installation: Node.js (V8) with ethers 6.13.5

    The built-ins and the error messages of one installation, for the
    scenarios below. *)

Module Engine.

Definition charOf (n : nat) : string := String (ascii_of_nat n) "".

Definition quote : string := charOf 34.
Definition backslash : string := charOf 92.

(** [JSON.stringify(s)] for a string: the text between quotes, with the
    quote, the backslash and the control characters escaped. *)
Definition jsonChar (c : ascii) : string :=
  let n := nat_of_ascii c in
  if (n =? 8)%nat then backslash ++ "b"
  else if (n =? 9)%nat then backslash ++ "t"
  else if (n =? 10)%nat then backslash ++ "n"
  else if (n =? 12)%nat then backslash ++ "f"
  else if (n =? 13)%nat then backslash ++ "r"
  else if (n =? 34)%nat then backslash ++ quote
  else if (n =? 92)%nat then backslash ++ backslash
  else if (n <? 32)%nat then backslash ++ "u00" ++ AbiCoder.hex 2 (Z.of_nat n)
  else String c "".

Fixpoint jsonBody (s : string) : string :=
  match s with
  | "" => ""
  | String c r => jsonChar c ++ jsonBody r
  end.

Definition jsonString (s : string) : string := quote ++ jsonBody s ++ quote.

(** [n.toString()] for a bigint. *)
Definition bigintString (n : Z) : string := NilZero.string_of_int (Z.to_int n).

(** [BigInt(s)] for a string: white space is trimmed; the empty text is 0;
    the text is otherwise a run of decimal digits, with a sign or without,
    or a run of binary, octal or hexadecimal digits after 0b, 0o or 0x. *)
Definition digitIn (base : Z) (c : ascii) : option Z :=
  let n := Z.of_nat (nat_of_ascii c) in
  let v := if (48 <=? n) && (n <=? 57) then n - 48
           else if (97 <=? n) && (n <=? 102) then n - 87
           else if (65 <=? n) && (n <=? 70) then n - 55
           else base in
  if v <? base then Some v else None.

Fixpoint digitsIn (base acc : Z) (s : string) : option Z :=
  match s with
  | "" => Some acc
  | String c r =>
      match digitIn base c with
      | Some v => digitsIn base (base * acc + v) r
      | None => None
      end
  end.

(** At least one digit. *)
Definition numeral (base : Z) (s : string) : option Z :=
  match s with
  | "" => None
  | _ => digitsIn base 0 s
  end.

Definition isOneOf (a b c : ascii) : bool := Ascii.eqb c a || Ascii.eqb c b.

Definition prefixed (a b : ascii) (t : string) : option string :=
  match t with
  | String c (String x r) => if Ascii.eqb c "0" && isOneOf a b x then Some r else None
  | _ => None
  end.

Definition BigInt (s : string) : option Z :=
  let t := JsFloat.trim s in
  match t with
  | "" => Some 0
  | String c r =>
      match prefixed "x" "X" t, prefixed "o" "O" t, prefixed "b" "B" t with
      | Some digits, _, _ => numeral 16 digits
      | _, Some digits, _ => numeral 8 digits
      | _, _, Some digits => numeral 2 digits
      | None, None, None =>
          if Ascii.eqb c "-" then option_map Z.opp (numeral 10 r)
          else if Ascii.eqb c "+" then numeral 10 r
          else numeral 10 t
      end
  end.

(** The version of ethers, and the message its errors are made with: the
    text of the error, then the details, the code and the version between
    parentheses. *)
Definition version : string := "6.13.5".

Definition message (text : string) (details : list string) (code : string) : string :=
  text ++ " (" ++
  String.concat ", " (List.app details ["code=" ++ code; "version=" ++ version]) ++ ")".

(** The integer [FixedNumber.fromString] checks against its format, which
    the overflow error shows. *)
Definition fixedValue (value : string) (decimals : nat) : Z :=
  match Ethers.matchFixed value with
  | Some (sign, whole, decimal) =>
      let whole := if String.eqb whole "" then "0" else whole in
      let decimal := Js.take decimals (Ethers.padDecimal decimals decimals decimal) in
      let magnitude := Js.digitsValue (whole ++ decimal) in
      if String.eqb sign "-" then - magnitude else magnitude
  | None => 0
  end.

Definition ethers_message (f : Ethers.Fault) (value : string) : string :=
  match f with
  | Ethers.InvalidFixedNumberString =>
      message "invalid FixedNumber string value"
        ["argument=" ++ jsonString "value"; "value=" ++ jsonString value]
        "INVALID_ARGUMENT"
  | Ethers.TooManyDecimals =>
      message "too many decimals for format"
        ["operation=" ++ jsonString "fromString"; "fault=" ++ jsonString "underflow";
         "value=" ++ jsonString value]
        "NUMERIC_FAULT"
  | Ethers.Overflow =>
      message "overflow"
        ["operation=" ++ jsonString "fromString"; "fault=" ++ jsonString "overflow";
         "value=" ++ bigintString (fixedValue value SCORE_DECIMALS)]
        "NUMERIC_FAULT"
  end.

(** The coder that refuses an object is the first of the tuple, the one of
    [string]; a number coder of the type list has no name. *)
Definition abi_message (f : AbiCoder.Fault) : string :=
  match f with
  | AbiCoder.OutOfBounds _ value =>
      message "value out-of-bounds"
        ["argument=" ++ jsonString ""; "value=" ++ bigintString value]
        "INVALID_ARGUMENT"
  | AbiCoder.MissingNames provider score =>
      message "cannot encode object for signature with missing names"
        ["argument=" ++ jsonString "values";
         "info={ " ++ jsonString "coder" ++ ": { " ++
           jsonString "dynamic" ++ ": true, " ++
           jsonString "localName" ++ ": " ++ jsonString "" ++ ", " ++
           jsonString "name" ++ ": " ++ jsonString "string" ++ ", " ++
           jsonString "type" ++ ": " ++ jsonString "string" ++ " } }";
         "value={ " ++ jsonString "provider" ++ ": " ++ jsonString provider ++ ", " ++
           jsonString "score" ++ ": " ++ bigintString score ++ " }"]
        "INVALID_ARGUMENT"
  end.

End Engine.

(** ** End-to-end scenarios

    A score service that answers the addresses A to D with score 5.6789,
    threshold 20.0000, a passing score and no stamp; it reports the error
    "rate limited" for C and an [error] field with an empty text for D.  It
    answers E like A, with one github stamp of score 5.6789 besides: the
    scenario of the specification.  The attester accepts every submission
    except the one for B, which it refuses with "nonce too low". *)

Module Scenario.

Definition addressA : string := "0xAAAAAAAAAAAAAAAAAAAAAAAAAAAAAAAAAAAAAAA1".
Definition addressB : string := "0xBBBBBBBBBBBBBBBBBBBBBBBBBBBBBBBBBBBBBBB2".
Definition addressC : string := "0xCCCCCCCCCCCCCCCCCCCCCCCCCCCCCCCCCCCCCCC3".
Definition addressD : string := "0xDDDDDDDDDDDDDDDDDDDDDDDDDDDDDDDDDDDDDDD4".
Definition addressE : string := "0xEEEEEEEEEEEEEEEEEEEEEEEEEEEEEEEEEEEEEEE5".

Definition scorerId : string := "335".

Definition endpoint : string := "https://scorer.example".

Definition lastScored : string := "2025-06-01T00:00:00.000Z".
Definition expiration : string := "2026-01-01T00:00:00.000Z".

Definition response (address : string) (error : option string) : V2ScoreResponseData.t :=
  {| V2ScoreResponseData.address := address;
     V2ScoreResponseData.score := "5.6789";
     V2ScoreResponseData.threshold := "20.0000";
     V2ScoreResponseData.passing_score := true;
     V2ScoreResponseData.last_score_timestamp := lastScored;
     V2ScoreResponseData.expiration_timestamp := expiration;
     V2ScoreResponseData.error := error;
     V2ScoreResponseData.stamps := [] |}.

Definition github : string * Stamp.t :=
  ("github", {| Stamp.score := "5.6789"; Stamp.dedup := false;
                Stamp.expiration_date := None |}).

(** The response of the scenario of the specification. *)
Definition stamped (address : string) : V2ScoreResponseData.t :=
  {| V2ScoreResponseData.address := address;
     V2ScoreResponseData.score := "5.6789";
     V2ScoreResponseData.threshold := "20.0000";
     V2ScoreResponseData.passing_score := true;
     V2ScoreResponseData.last_score_timestamp := lastScored;
     V2ScoreResponseData.expiration_timestamp := expiration;
     V2ScoreResponseData.error := None;
     V2ScoreResponseData.stamps := [github] |}.

Definition urlOf (address : string) : string :=
  endpoint ++ "/internal/score/v2/" ++ scorerId ++ "/" ++ address.

Definition service (url : string) : result Thrown V2ScoreResponseData.t :=
  if String.eqb url (urlOf addressA) then Ok (response addressA None)
  else if String.eqb url (urlOf addressB) then Ok (response addressB None)
  else if String.eqb url (urlOf addressC) then Ok (response addressC (Some "rate limited"))
  else if String.eqb url (urlOf addressD) then Ok (response addressD (Some ""))
  else if String.eqb url (urlOf addressE) then Ok (stamped addressE)
  else Throw (JsError "Request failed with status code 404").

Definition attester (request : list MultiAttestationRequest.t) : result Thrown Tx :=
  match request with
  | [ {| MultiAttestationRequest.data := [d] |} ] =>
      if String.eqb (AttestationRequestData.recipient d) addressB
      then Throw (JsError "nonce too low")
      else Ok {| hash := "0xTX1" |}
  | _ => Throw NonError
  end.

(** [new Date(s).getTime()] on the timestamps the service sends; the empty
    text is no date, and no other text is given to [Date] in the scenarios. *)
Definition getTime (s : string) : option Z :=
  if String.eqb s expiration then Some 1767225600000
  else if String.eqb s lastScored then Some 1748736000000
  else None.

Definition runtime : Runtime :=
  {| World := unit;
     SCORER_ENDPOINT := endpoint;
     SCORER_API_KEY := "secret";
     SCHEMA_UID := "0xSCHEMA";
     axios_get := fun url _ w => (service url, w);
     submitAttestations := fun request w => (attester request, w);
     tx_wait := fun _ w => (Ok tt, w);
     elapse := fun _ w => w;
     Date_getTime := getTime;
     BigInt_string := Engine.BigInt;
     BigInt_NaN_message :=
       "The number NaN cannot be converted to a BigInt because it is not an integer";
     BigInt_syntax_message := fun s => "Cannot convert " ++ s ++ " to a BigInt";
     ethers_message := Engine.ethers_message;
     abi_message := Engine.abi_message |}.

Definition start : State runtime := Build_State runtime tt [] [].

(** The payload of the responses without a stamp, for the scorer 335: the
    words for true, 4 decimals, 335, 56789, 200000, the offset of the array
    and its length 0. *)
Definition payload : string :=
  "0x" ++
  "0000000000000000000000000000000000000000000000000000000000000001" ++
  "0000000000000000000000000000000000000000000000000000000000000004" ++
  "000000000000000000000000000000000000000000000000000000000000014f" ++
  "000000000000000000000000000000000000000000000000000000000000ddd5" ++
  "0000000000000000000000000000000000000000000000000000000000030d40" ++
  "00000000000000000000000000000000000000000000000000000000000000c0" ++
  "0000000000000000000000000000000000000000000000000000000000000000".

Definition request (address : string) : AttestationRequestData.t :=
  {| AttestationRequestData.recipient := address;
     AttestationRequestData.expirationTime := 1767225600;
     AttestationRequestData.revocable := true;
     AttestationRequestData.refUID := ZERO_BYTES32;
     AttestationRequestData.data := payload;
     AttestationRequestData.value := 0 |}.

End Scenario.

(** ** Counting the calls of a run *)

Definition Kind_eqb (a b : Kind) : bool :=
  match a, b with
  | Get, Get | Submit, Submit | Wait, Wait | Timeout, Timeout => true
  | _, _ => false
  end.

Definition countKind (k : Kind) (t : list Event) : nat :=
  List.length (filter (fun e => Kind_eqb (kind e) k) t).

Definition hasTx (o : Outcome.t) : bool :=
  match Outcome.txHash o with
  | Some _ => true
  | None => false
  end.

(** ** [getAddresses], [writeCsv] and [main] of the attestation script *)

Module Main.

Definition INPUT_FILE : string := "inputs/score_addresses.csv".
Definition OUTPUT_FILE : string := "outputs/scored_addresses.csv".

(** What [main] takes from its environment besides [Runtime]: the community
    id of [process.env], [ethers.isAddress], the construction of the
    provider, the wallet and the contract (which may throw), the lines
    [readline] yields for a file, and [fs.writeFileSync]. *)
Record Env (rt : Runtime) : Type := {
  COMMUNITY_ID : string;
  isAddress : string -> bool;
  setup : result Thrown unit;
  readLines : string -> World rt -> result Thrown (list string) * World rt;
  writeFileSync : string -> string -> World rt -> result Thrown unit * World rt
}.
Arguments COMMUNITY_ID {rt} _.
Arguments isAddress {rt} _ _.
Arguments setup {rt} _.
Arguments readLines {rt} _ _ _.
Arguments writeFileSync {rt} _ _ _ _.

(** The counts [main] prints, and how it ends: [process.exit(1)], or a
    normal return, with the counts when there was something to process. *)
Record Report : Type := {
  successful : nat;
  failed : nat;
  total : nat
}.

Inductive Finished : Type :=
| Returned (report : option Report)
| Exited (code : Z).

(** The state of [main]: the state of the script, and the calls of
    [fs.writeFileSync] made so far, each with its path and its text. *)
Record MainState (rt : Runtime) : Type := {
  script : State rt;
  writes : list (string * string)
}.
Arguments script {rt} _.
Arguments writes {rt} _.

Section WithEnv.

Context {rt : Runtime} (env : Env rt).

Definition withWorld (w : World rt) (st : State rt) : State rt :=
  {| world := w; trace := trace st; results := results st |}.

(** [if (addr && ethers.isAddress(addr))]. *)
Definition keeps (addr : string) : bool :=
  negb (String.eqb addr "") && isAddress env addr.

Definition getAddresses (filePath : string)
  : MainState rt -> result Thrown (list string) * MainState rt :=
  fun st =>
    let '(r, w) := readLines env filePath (world (script st)) in
    let st' := {| script := withWorld w (script st); writes := writes st |} in
    match r with
    | Ok lines => (Ok (filter keeps (map JsFloat.trim lines)), st')
    | Throw e => (Throw e, st')
    end.

Definition writeCsv (results : list Outcome.t)
  : MainState rt -> result Thrown unit * MainState rt :=
  fun st =>
    let csvContent := csvContent results in
    let '(r, w) := writeFileSync env OUTPUT_FILE csvContent (world (script st)) in
    (r, {| script := withWorld w (script st);
           writes := writes st ++ [(OUTPUT_FILE, csvContent)] |}).

(** [results.filter(r => r.txHash).length] and [results.filter(r => r.error).length]. *)
Definition countSuccessful (results : list Outcome.t) : nat :=
  List.length (filter (fun r => truthy (Outcome.txHash r)) results).

Definition countFailed (results : list Outcome.t) : nat :=
  List.length (filter (fun r => truthy (Outcome.error r)) results).

Definition main : MainState rt -> Finished * MainState rt :=
  fun st =>
    match setup env with
    | Throw _ => (Exited 1, st)
    | Ok _ =>
        match getAddresses INPUT_FILE st with
        | (Throw _, st1) => (Exited 1, st1)
        | (Ok addresses, st1) =>
            if (List.length addresses =? 0)%nat then (Returned None, st1)
            else
              match processAddresses rt addresses (COMMUNITY_ID env) (script st1) with
              | (Throw _, s2) => (Exited 1, {| script := s2; writes := writes st1 |})
              | (Ok results, s2) =>
                  match writeCsv results {| script := s2; writes := writes st1 |} with
                  | (Throw _, st3) => (Exited 1, st3)
                  | (Ok _, st3) =>
                      (Returned (Some {| successful := countSuccessful results;
                                         failed := countFailed results;
                                         total := List.length results |}), st3)
                  end
              end
        end
    end.

End WithEnv.

End Main.

(** An input file for the scenario: lines with white space around an
    address, an empty line and a line that is no address. *)
Module ScenarioMain.

Definition lines : list string :=
  ["  0xAAAAAAAAAAAAAAAAAAAAAAAAAAAAAAAAAAAAAAA1 "; ""; "not an address";
   "0xBBBBBBBBBBBBBBBBBBBBBBBBBBBBBBBBBBBBBBB2"].

Definition start : Main.MainState Scenario.runtime :=
  {| Main.script := Scenario.start; Main.writes := [] |}.

Fixpoint every (p : ascii -> bool) (s : string) : bool :=
  match s with
  | "" => true
  | String c r => p c && every p r
  end.

Definition isHexDigit (c : ascii) : bool :=
  match Engine.digitIn 16 c with
  | Some _ => true
  | None => false
  end.

Definition isUpperHex (c : ascii) : bool :=
  let n := nat_of_ascii c in ((65 <=? n) && (n <=? 70))%nat.

Definition isLowerHex (c : ascii) : bool :=
  let n := nat_of_ascii c in ((97 <=? n) && (n <=? 102))%nat.

(** [ethers.isAddress] on the lines of the input: forty hexadecimal digits,
    after 0x or without it, whose letters are all of one case.  (Letters of
    both cases carry a checksum, and an ICAP address another one; neither
    occurs in the input.) *)
Definition isAddress (s : string) : bool :=
  let digits := if String.prefix "0x" s then Js.skip 2 s else s in
  (String.length digits =? 40)%nat && every isHexDigit digits &&
  (every (fun c => negb (isLowerHex c)) digits || every (fun c => negb (isUpperHex c)) digits).

Definition env : Main.Env Scenario.runtime :=
  {| Main.COMMUNITY_ID := Scenario.scorerId;
     Main.isAddress := isAddress;
     Main.setup := Ok tt;
     Main.readLines := fun _ w => (Ok lines, w);
     Main.writeFileSync := fun _ _ w => (Ok tt, w) |}.

End ScenarioMain.

(** * The nullifier script ([extractV1Nullifier] and the analysis of [main])

    Values read from JSON text or from a database row.  A number carries the
    exact value of its binary64 number; the fields of an object have
    distinct names. *)

Module Nullifiers.

#[local] Set Warnings "-register-all,-automation".

Inductive Json : Type :=
| JNull
| JBool (b : bool)
| JNumber (value : Q)
| JString (s : string)
| JArray (items : list Json)
| JObject (fields : list (string * Json)).

(** [v.key] for a value that is neither null nor undefined, for the keys the
    script reads ([credentialSubject], [nullifiers]): only an object can
    have them; [None] is [undefined]. *)
Fixpoint lookup (key : string) (fields : list (string * Json)) : option Json :=
  match fields with
  | [] => None
  | (k, v) :: rest => if String.eqb k key then Some v else lookup key rest
  end.

Definition field (key : string) (v : Json) : option Json :=
  match v with
  | JObject fields => lookup key fields
  | _ => None
  end.

(** [x?.key]. *)
Definition optionalField (key : string) (x : option Json) : option Json :=
  match x with
  | None => None
  | Some JNull => None
  | Some v => field key v
  end.

(** The truth value of [if (x)]. *)
Definition truthyJson (x : option Json) : bool :=
  match x with
  | None => false
  | Some JNull => false
  | Some (JBool b) => b
  | Some (JNumber q) => negb (Qeq_bool q 0)
  | Some (JString s) => negb (String.eqb s "")
  | Some (JArray _) => true
  | Some (JObject _) => true
  end.

(** [nullifiers.find((n: string) => n.startsWith('v1:'))] on an array: the
    first element that is a string with the prefix; an element that is not a
    string has no [startsWith] method, and calling it is a TypeError. *)
Inductive Found : Type :=
| Hit (s : string)
| Miss
| TypeError.

Fixpoint findV1 (items : list Json) : Found :=
  match items with
  | [] => Miss
  | JString s :: rest => if String.prefix "v1:" s then Hit s else findV1 rest
  | _ :: _ => TypeError
  end.

Section Extract.

(** [JSON.parse]; [None] is a SyntaxError. *)
Variable JSON_parse : string -> option Json.

Definition extractV1Nullifier (stamp : Json) : option string :=
  match (match stamp with JString s => JSON_parse s | _ => Some stamp end) with
  | None => None
  | Some stampData =>
      let nullifiers :=
        optionalField "nullifiers" (optionalField "credentialSubject" (Some stampData)) in
      if truthyJson nullifiers then
        match nullifiers with
        | Some (JArray items) =>
            match findV1 items with
            | Hit v1Nullifier => if String.eqb v1Nullifier "" then None else Some v1Nullifier
            | Miss => None
            | TypeError => None
            end
        | _ => None
        end
      else None
  end.

End Extract.

(** ** Originals and copies *)

Record Rec : Type := {
  id : Z;
  created_at : string;
  v1_nullifier : string
}.

(** A [Map] with string keys, in insertion order. *)
Fixpoint mapGet {V} (key : string) (m : list (string * V)) : option V :=
  match m with
  | [] => None
  | (k, v) :: rest => if String.eqb k key then Some v else mapGet key rest
  end.

Definition mapHas {V} (key : string) (m : list (string * V)) : bool :=
  match mapGet key m with
  | Some _ => true
  | None => false
  end.

Fixpoint mapSet {V} (key : string) (value : V) (m : list (string * V)) : list (string * V) :=
  match m with
  | [] => [(key, value)]
  | (k, v) :: rest =>
      if String.eqb k key then (k, value) :: rest else (k, v) :: mapSet key value rest
  end.

(** [filter] with a callback that may throw. *)
Fixpoint filterThrowing {A} (f : A -> option bool) (l : list A) : option (list A) :=
  match l with
  | [] => Some []
  | a :: rest =>
      match f a with
      | None => None
      | Some b =>
          match filterThrowing f rest with
          | None => None
          | Some kept => Some (if b then a :: kept else kept)
          end
      end
  end.

Record Analysis : Type := {
  uniqueNullifiers : nat;
  usedMultipleTimes : nat;
  originalStamps : nat;
  copyStamps : nat
}.

Section Analyze.

(** [new Date(s).getTime()] on the strings [toISOString] has produced. *)
Variable getTime : string -> Z.

Definition time (r : Rec) : Z := getTime (created_at r).

(** [[...processedRecords].sort((a, b) => time(a) - time(b))]: the sort is
    stable, so its result is the one of any stable sort. *)
Fixpoint insertByTime (r : Rec) (sorted : list Rec) : list Rec :=
  match sorted with
  | [] => [r]
  | x :: rest => if time r <=? time x then r :: x :: rest else x :: insertByTime r rest
  end.

Definition sortByTime (records : list Rec) : list Rec :=
  fold_right insertByTime [] records.

Definition nullifierFirstUse (processedRecords : list Rec) : list (string * (Z * string)) :=
  fold_left
    (fun m record =>
       if negb (mapHas (v1_nullifier record) m)
       then mapSet (v1_nullifier record) (id record, created_at record) m
       else m)
    (sortByTime processedRecords) [].

(** [firstUse!.id === record.id]; [None] when there is no first use to read
    the id of. *)
Definition isOriginal (firstUse : list (string * (Z * string))) (record : Rec) : option bool :=
  match mapGet (v1_nullifier record) firstUse with
  | Some (i, _) => Some (i =? id record)
  | None => None
  end.

Definition nullifierCounts (processedRecords : list Rec) : list (string * nat) :=
  fold_left
    (fun m record =>
       let count := match mapGet (v1_nullifier record) m with Some c => c | None => O end in
       mapSet (v1_nullifier record) (count + 1)%nat m)
    processedRecords [].

(** The figures [main] prints; [None] when reading a first use fails. *)
Definition analyze (processedRecords : list Rec) : option Analysis :=
  let firstUse := nullifierFirstUse processedRecords in
  let counts := nullifierCounts processedRecords in
  let duplicates := filter (fun entry => (1 <? snd entry)%nat) counts in
  match filterThrowing (isOriginal firstUse) processedRecords with
  | None => None
  | Some originals =>
      Some {| uniqueNullifiers := List.length counts;
              usedMultipleTimes := List.length duplicates;
              originalStamps := List.length originals;
              copyStamps := List.length processedRecords - List.length originals |}
  end.

End Analyze.

End Nullifiers.

(** Three records of the nullifier script: two stamps that carry the same
    nullifier, the one with the larger id created first, and a third stamp
    with a nullifier of its own. *)
Module ScenarioNullifiers.

(** [new Date(s).getTime()] on the timestamps of the records. *)
Definition getTime (s : string) : Z :=
  if String.eqb s "2024-01-01T00:00:00.000Z" then 1704067200000
  else if String.eqb s "2024-02-01T00:00:00.000Z" then 1706745600000
  else if String.eqb s "2024-03-01T00:00:00.000Z" then 1709251200000
  else 0.

Definition later : Nullifiers.Rec :=
  {| Nullifiers.id := 7;
     Nullifiers.created_at := "2024-02-01T00:00:00.000Z";
     Nullifiers.v1_nullifier := "v1:abc" |}.

Definition earlier : Nullifiers.Rec :=
  {| Nullifiers.id := 9;
     Nullifiers.created_at := "2024-01-01T00:00:00.000Z";
     Nullifiers.v1_nullifier := "v1:abc" |}.

Definition other : Nullifiers.Rec :=
  {| Nullifiers.id := 4;
     Nullifiers.created_at := "2024-03-01T00:00:00.000Z";
     Nullifiers.v1_nullifier := "v1:xyz" |}.

Definition records : list Nullifiers.Rec := [later; earlier; other].

End ScenarioNullifiers.

(** * The duplicate-id scripts ([createBatches], [processSequentially],
    [extractUniqueIds]) *)

Module Batches.

(** [Math.ceil(n / batchSize)] for a length and a positive size: the
    quotient of two such integers is far enough from the next integer for
    the binary64 division to round on the right side. *)
Definition ceilDiv (n batchSize : nat) : nat := ((n + batchSize - 1) / batchSize)%nat.

(** [Array.from({ length: Math.ceil(items.length / batchSize) },
    (_, i) => items.slice(i * batchSize, (i + 1) * batchSize))] for a size
    that is a natural number.  With size 0 the length is NaN for an empty
    array, which [Array.from] reads as 0, and Infinity otherwise, which it
    refuses with a RangeError. *)
Definition createBatches {T} (items : list T) (batchSize : nat)
  : result Thrown (list (list T)) :=
  match batchSize with
  | O =>
      if (List.length items =? 0)%nat then Ok []
      else Throw (JsError "Invalid array length")
  | S _ =>
      Ok (map (fun i => slice (i * batchSize) ((i + 1) * batchSize) items)
              (seq 0 (ceilDiv (List.length items) batchSize)))
  end.

Section Query.

(** The database behind [client.query], its rows, and [queryBatch]. *)
Variables (Id Row Db : Type).
Variable queryBatch : list Id -> Db -> result Thrown (list Row) * Db.

(** The database and the queries sent so far, each with its answer. *)
Record QState : Type := {
  db : Db;
  queried : list (list Id * result Thrown (list Row))
}.

(** [for (let i = 0; i < batches.length; i++) { ... allResults.push(...batchResults) }]. *)
Fixpoint queryBatches (batches : list (list Id)) (allResults : list Row) (st : QState)
  : result Thrown (list Row) * QState :=
  match batches with
  | [] => (Ok allResults, st)
  | batch :: rest =>
      let '(r, d) := queryBatch batch (db st) in
      let st' := {| db := d; queried := queried st ++ [(batch, r)] |} in
      match r with
      | Ok batchResults => queryBatches rest (allResults ++ batchResults) st'
      | Throw e => (Throw e, st')
      end
  end.

Definition processSequentially (ids : list Id) (batchSize : nat) (st : QState)
  : result Thrown (list Row) * QState :=
  match createBatches ids batchSize with
  | Ok batches => queryBatches batches [] st
  | Throw e => (Throw e, st)
  end.

End Query.

Arguments db {Id Row Db} _.
Arguments queried {Id Row Db} _.
Arguments queryBatches {Id Row Db} queryBatch batches allResults st.
Arguments processSequentially {Id Row Db} queryBatch ids batchSize st.

(** ** [extractUniqueIds] *)

(** The number [parseInt] returns: an integer, or NaN. *)
Definition Num : Type := option Z.

(** SameValueZero, the equality of a [Set]: NaN is equal to itself. *)
Definition Num_eqb (a b : Num) : bool :=
  match a, b with
  | Some x, Some y => x =? y
  | None, None => true
  | _, _ => false
  end.

(** A row of the parsed CSV: a column that is missing is [None]. *)
Record CsvRecord : Type := {
  id_a : option string;
  id_b : option string
}.

(** [acc.add(x)] on a [Set], in insertion order. *)
Definition setAdd (x : Num) (acc : list Num) : list Num :=
  if existsb (Num_eqb x) acc then acc else acc ++ [x].

Section Extract.

Variable parseInt : string -> Num.

(** [if (field) acc.add(parseInt(field))]. *)
Definition addField (field : option string) (acc : list Num) : list Num :=
  match field with
  | Some s => if negb (String.eqb s "") then setAdd (parseInt s) acc else acc
  | None => acc
  end.

Definition extractUniqueIds (records : list CsvRecord) : list Num :=
  fold_left (fun acc record => addField (id_b record) (addField (id_a record) acc))
            records [].

End Extract.

End Batches.

(** * The zero-score scanner ([getZeroScoreAddresses]) *)

Module ZeroScores.

(** A read of the resolver contract: [scores(address)] or
    [communityScores(communityId, address)]. *)
Inductive Call : Type :=
| Scores (address : string)
| CommunityScores (communityId : Z) (address : string).

Definition addressOf (c : Call) : string :=
  match c with
  | Scores a => a
  | CommunityScores _ a => a
  end.

(** What a read resolves to: the fields [score] and [expirationTime]. *)
Definition Answer : Type := result Thrown (Z * Z).

Section Scan.

(** The chain answers a batch of reads started together ([Promise.all]):
    one answer per position in the batch. *)
Variable Chain : Type.
Variable readAll : list Call -> Chain -> (nat -> Answer) * Chain.

Record ScanState : Type := {
  chain : Chain;
  observed : list (Call * Answer)
}.

Definition callFor (communityId : Z) (address : string) : Call :=
  if communityId =? 335 then Scores address else CommunityScores communityId address.

(** The value of the callback of [batch.map] for one address: the address
    when the read resolved with a zero score that has not expired, null when
    it did not or when the read failed.  [Number(x) > now] for an unsigned
    integer [x] and a time in seconds is the comparison of the integers. *)
Definition verdict (now : Z) (address : string) (answer : Answer) : option string :=
  match answer with
  | Ok (score, expirationTime) =>
      if (now <? expirationTime) && (score =? 0) then Some address else None
  | Throw _ => None
  end.

(** [results.filter((addr): addr is string => !!addr)]. *)
Definition kept (results : list (option string)) : list string :=
  flat_map (fun r => match r with
                     | Some a => if String.eqb a "" then [] else [a]
                     | None => []
                     end) results.

Definition scanBatch (communityId now : Z) (batch : list string) (st : ScanState)
  : list string * ScanState :=
  let calls := map (callFor communityId) batch in
  let '(answer, c) := readAll calls (chain st) in
  let answers := map answer (seq 0 (List.length batch)) in
  let results := map (fun p => verdict now (fst p) (snd p)) (combine batch answers) in
  (kept results,
   {| chain := c; observed := observed st ++ combine calls answers |}).

Definition scanBatchSize : nat := 10.

(** [for (let i = 0; i < addresses.length; i += batchSize) { ... }], from the
    current value of [i] and of [zeroScoreAddresses]. *)
Equations? scanLoop (communityId now : Z) (addresses : list string) (i : nat)
    (zeroScoreAddresses : list string) (st : ScanState)
  : list string * ScanState by wf (List.length addresses - i)%nat lt :=
  scanLoop communityId now addresses i zeroScoreAddresses st
    with lt_dec i (List.length addresses) := {
    | left _ with scanBatch communityId now
                    (slice i (i + scanBatchSize)%nat addresses) st := {
        | (found, st') =>
            scanLoop communityId now addresses (i + scanBatchSize)%nat
              (zeroScoreAddresses ++ found) st' }
    | right _ => (zeroScoreAddresses, st) }.
Proof. unfold scanBatchSize. lia. Qed.

Definition getZeroScoreAddresses (addresses : list string) (communityId now : Z)
    (st : ScanState) : list string * ScanState :=
  scanLoop communityId now addresses 0 [] st.

End Scan.

Arguments chain {Chain} _.
Arguments observed {Chain} _.
Arguments scanBatch {Chain} readAll communityId now batch st.
Arguments scanLoop {Chain} readAll communityId now addresses i zeroScoreAddresses st.
Arguments getZeroScoreAddresses {Chain} readAll addresses communityId now st.

(** What the properties below say of an observed read: it was made for an
    address that is not the empty string, and it answered a zero score whose
    expiration time is later than [now]. *)
Definition zeroUnexpired (now : Z) (read : Call * Answer) : bool :=
  negb (String.eqb (addressOf (fst read)) "") &&
  match snd read with
  | Ok (score, expirationTime) => (now <? expirationTime) && (score =? 0)
  | Throw _ => false
  end.

End ZeroScores.

(** * Properties *)

(** ** The functions on a few inputs *)

Example parseDecimal_examples :
  parseDecimal "5.6789" = Ok 56789 /\
  parseDecimal "20.0000" = Ok 200000 /\
  parseDecimal "2.12349" = Ok 21234 /\
  parseDecimal "-2.12349" = Ok (-21234) /\
  parseDecimal "7" = Ok 70000 /\
  parseDecimal "5." = Ok 50000 /\
  parseDecimal ".5" = Ok 5000 /\
  parseDecimal "0.00001" = Ok 0 /\
  parseDecimal "." = Throw Ethers.InvalidFixedNumberString /\
  parseDecimal "-" = Throw Ethers.InvalidFixedNumberString /\
  parseDecimal "1e5" = Throw Ethers.InvalidFixedNumberString /\
  parseDecimal " 1" = Throw Ethers.InvalidFixedNumberString /\
  parseDecimal "1.23456.7" = Throw Ethers.InvalidFixedNumberString.
Proof. repeat split; reflexivity. Qed.

Example replaceExcess_examples :
  replaceExcess "2.12345" = "2.1234" /\
  replaceExcess "2.1234" = "2.1234" /\
  replaceExcess "1.2.34567" = "1.2.3456" /\
  replaceExcess "1.23456.78901" = "1.2345.78901" /\
  replaceExcess "x.12345y" = "x.1234y".
Proof. repeat split; reflexivity. Qed.

Example parseFloat_positive_examples :
  JsFloat.parseFloat_positive "5.6789" = true /\
  JsFloat.parseFloat_positive "0.00001" = true /\
  JsFloat.parseFloat_positive "0" = false /\
  JsFloat.parseFloat_positive "0.0000" = false /\
  JsFloat.parseFloat_positive "-1.5" = false /\
  JsFloat.parseFloat_positive "abc" = false /\
  JsFloat.parseFloat_positive "." = false /\
  JsFloat.parseFloat_positive "" = false /\
  JsFloat.parseFloat_positive " +5abc" = true /\
  JsFloat.parseFloat_positive "1e-3" = true /\
  JsFloat.parseFloat_positive "1e-400" = false /\
  JsFloat.parseFloat_positive "0e5" = false /\
  JsFloat.parseFloat_positive "Infinity" = true.
Proof. repeat split; vm_compute; reflexivity. Qed.

(** The stamps of a payload: a duplicate and a zero score are left out; a
    score below the scale is kept and encoded as 0. *)
Example stamps_example :
  let stamp score dedup :=
    {| Stamp.score := score; Stamp.dedup := dedup; Stamp.expiration_date := None |} in
  mapThrowing (stampEntry Scenario.runtime)
    (filter stampCounts
       [("github", stamp "5.6789" false); ("google", stamp "3.5" true);
        ("ens", stamp "0.00000" false); ("discord", stamp "0.00001" false);
        ("linkedin", stamp "1.5" false)])
  = Ok [("github", 56789); ("discord", 0); ("linkedin", 15000)].
Proof. vm_compute. reflexivity. Qed.

Example payload_example :
  AbiCoder.encode {| ScoreValues.passing_score := true;
                     ScoreValues.score_decimals := 4;
                     ScoreValues.scorer_id := 335;
                     ScoreValues.score := 56789;
                     ScoreValues.threshold := 200000;
                     ScoreValues.stamps := [] |} = Ok Scenario.payload /\
  AbiCoder.encode {| ScoreValues.passing_score := true;
                     ScoreValues.score_decimals := 4;
                     ScoreValues.scorer_id := 335;
                     ScoreValues.score := 2 ^ 32;
                     ScoreValues.threshold := 200000;
                     ScoreValues.stamps := [] |} =
    Throw (AbiCoder.OutOfBounds "uint32" 4294967296) /\
  AbiCoder.encode {| ScoreValues.passing_score := true;
                     ScoreValues.score_decimals := 4;
                     ScoreValues.scorer_id := 335;
                     ScoreValues.score := 56789;
                     ScoreValues.threshold := 200000;
                     ScoreValues.stamps := [("github", 56789)] |} =
    Throw (AbiCoder.MissingNames "github" 56789) /\
  createAttestationData Scenario.runtime Scenario.addressA
    (Scenario.response Scenario.addressA None) Scenario.scorerId =
    Ok (Scenario.request Scenario.addressA).
Proof. repeat split; vm_compute; reflexivity. Qed.

Example BigInt_examples :
  map Engine.BigInt ["335"; ""; " 12 "; "0x1F"; "-5"; "+7"; "0b101"; "0o17"] =
    [Some 335; Some 0; Some 12; Some 31; Some (-5); Some 7; Some 5; Some 15] /\
  map Engine.BigInt ["abc"; "0x"; "1e3"; "1.5"; "-0x10"; "-"] =
    [None; None; None; None; None; None].
Proof. split; vm_compute; reflexivity. Qed.

Example decimal_value_example :
  DecimalSpec.decimal_value "-2.5" = Qmake (-25) 10 /\
  DecimalSpec.decimal_value "5.6789" = Qmake 56789 10000.
Proof. split; reflexivity. Qed.

Example csvContent_example :
  csvContent [ zeroOutcome "0xA" (Some "rate limited") ] =
    "address,score,txHash,error" ++ newline ++ "0xA,0,,rate limited".
Proof. reflexivity. Qed.

(** ** Characters and runs of digits *)

Section Digits.
Import Js.

Lemma isDigit_not_dot c : isDigit c = true -> isDot c = false.
Proof.
  unfold isDigit, isDot. intros H.
  destruct (Ascii.eqb_spec c "."); [subst; discriminate H | reflexivity].
Qed.

Lemma isDot_not_digit c : isDot c = true -> isDigit c = false.
Proof.
  intros H. destruct (isDigit c) eqn:E; [|reflexivity].
  apply isDigit_not_dot in E. congruence.
Qed.

Lemma isSign_not_dot c : DecimalSpec.isSign c = true -> isDot c = false.
Proof.
  unfold DecimalSpec.isSign, isDot. intros H.
  destruct (Ascii.eqb_spec c "."); [subst; discriminate H | reflexivity].
Qed.

Lemma isSign_not_digit c : DecimalSpec.isSign c = true -> isDigit c = false.
Proof.
  unfold DecimalSpec.isSign. intros H. apply orb_true_iff in H.
  destruct H as [H|H]; apply Ascii.eqb_eq in H; subst; reflexivity.
Qed.

Lemma allDigits_take_drop s :
  allDigits s = true -> takeDigits s = s /\ dropDigits s = "".
Proof.
  induction s as [|c r IH]; simpl; [auto|].
  intros H. apply andb_true_iff in H. destruct H as [Hc Hr].
  rewrite Hc. destruct (IH Hr) as [-> ->]. auto.
Qed.

Lemma dropDigits_empty_allDigits s : dropDigits s = "" -> allDigits s = true.
Proof.
  induction s as [|c r IH]; simpl; [auto|].
  destruct (isDigit c); [exact IH | discriminate].
Qed.

Lemma allDigits_takeDigits s : allDigits (takeDigits s) = true.
Proof.
  induction s as [|c r IH]; simpl; [reflexivity|].
  destruct (isDigit c) eqn:E; simpl; [rewrite E; exact IH | reflexivity].
Qed.

Lemma dropDigits_idem s : dropDigits (dropDigits s) = dropDigits s.
Proof.
  induction s as [|c r IH]; simpl; [reflexivity|].
  destruct (isDigit c) eqn:E; [exact IH | simpl; rewrite E; reflexivity].
Qed.

End Digits.

(** ** The character-level grammar and the phases of [matchFixed] *)

Section Grammar.
Import Js DecimalSpec.

Lemma onlyDigitsAndDots_dropDigits s :
  onlyDigitsAndDots (dropDigits s) = onlyDigitsAndDots s.
Proof.
  induction s as [|c r IH]; simpl; [reflexivity|].
  destruct (isDigit c) eqn:E; simpl; [exact IH | rewrite E; reflexivity].
Qed.

Lemma countDots_dropDigits s : countDots (dropDigits s) = countDots s.
Proof.
  induction s as [|c r IH]; simpl; [reflexivity|].
  destruct (isDigit c) eqn:E; simpl; [|reflexivity].
  rewrite (isDigit_not_dot _ E). exact IH.
Qed.

Lemma countDigits_split s :
  countDigits s = (String.length (takeDigits s) + countDigits (dropDigits s))%nat.
Proof.
  induction s as [|c r IH]; simpl; [reflexivity|].
  destruct (isDigit c) eqn:E; simpl; [rewrite IH; reflexivity | rewrite E; reflexivity].
Qed.

Lemma allDigits_countDigits s : allDigits s = true -> countDigits s = String.length s.
Proof.
  induction s as [|c r IH]; simpl; [reflexivity|].
  intros H. apply andb_true_iff in H. destruct H as [-> Hr]. rewrite (IH Hr). reflexivity.
Qed.

Lemma allDigits_no_dots s : allDigits s = true -> countDots s = 0%nat.
Proof.
  induction s as [|c r IH]; simpl; [reflexivity|].
  intros H. apply andb_true_iff in H. destruct H as [Hc Hr].
  rewrite (isDigit_not_dot _ Hc), (IH Hr). reflexivity.
Qed.

Lemma no_dots_allDigits s :
  onlyDigitsAndDots s = true -> countDots s = 0%nat -> allDigits s = true.
Proof.
  induction s as [|c r IH]; simpl; [reflexivity|].
  intros H D. apply andb_true_iff in H. destruct H as [Hc Hr].
  destruct (isDot c) eqn:Ed; [discriminate D|].
  rewrite orb_false_r in Hc. rewrite Hc. simpl. apply IH; assumption.
Qed.

(** A string accepted by [matchFixed] with at least one digit is in the
    grammar. *)
Lemma matchUnsigned_grammar r0 whole decimal :
  Ethers.matchUnsigned r0 = Some (whole, decimal) ->
  (String.length whole + String.length decimal)%nat <> 0%nat ->
  onlyDigitsAndDots r0 && (countDots r0 <=? 1)%nat && (1 <=? countDigits r0)%nat = true.
Proof.
  unfold Ethers.matchUnsigned. intros H N.
  set (r2 := match dropDigits r0 with
             | String c r => if isDot c then r else dropDigits r0
             | "" => dropDigits r0 end) in *.
  destruct (dropDigits r2) eqn:E2; [|discriminate H].
  injection H as <- <-.
  pose proof (dropDigits_empty_allDigits _ E2) as A2.
  assert (R : onlyDigitsAndDots (dropDigits r0) = true /\
              (countDots (dropDigits r0) <= 1)%nat /\
              countDigits (dropDigits r0) = String.length (takeDigits r2)).
  { subst r2. destruct (dropDigits r0) as [|c r] eqn:E1.
    - simpl. auto.
    - destruct (isDot c) eqn:Ed.
      + simpl. rewrite Ed, orb_true_r. simpl.
        rewrite (isDot_not_digit _ Ed). simpl.
        destruct (allDigits_take_drop _ A2) as [-> _].
        rewrite (allDigits_no_dots _ A2), (allDigits_countDigits _ A2).
        repeat split; auto.
        clear -A2. induction r as [|a r IH]; simpl in *; [reflexivity|].
        apply andb_true_iff in A2. destruct A2 as [-> A]. simpl. auto.
      + destruct (allDigits_take_drop _ A2) as [-> _].
        rewrite (allDigits_no_dots _ A2), (allDigits_countDigits _ A2).
        repeat split; auto.
        clear -A2. induction (String c r) as [|a r' IH]; simpl in *; [reflexivity|].
        apply andb_true_iff in A2. destruct A2 as [-> A]. simpl. auto. }
  destruct R as (R1 & R2 & R3).
  rewrite onlyDigitsAndDots_dropDigits in R1. rewrite countDots_dropDigits in R2.
  rewrite R1. cbn [andb].
  apply andb_true_iff. split; [apply Nat.leb_le; exact R2|].
  apply Nat.leb_le. rewrite countDigits_split, R3. lia.
Qed.

Lemma matchFixed_grammar t sign whole decimal :
  Ethers.matchFixed t = Some (sign, whole, decimal) ->
  (String.length whole + String.length decimal)%nat <> 0%nat ->
  decimal_grammar t = true.
Proof.
  unfold Ethers.matchFixed, decimal_grammar. intros H N.
  destruct t as [|c r].
  - destruct (Ethers.matchUnsigned "") as [[w d]|] eqn:E; [|discriminate H].
    injection H as _ <- <-. exact (matchUnsigned_grammar _ _ _ E N).
  - unfold stripSign, isSign.
    destruct (Ascii.eqb c "-") eqn:Em; cbn [orb].
    + destruct (Ethers.matchUnsigned r) as [[w d]|] eqn:E; [|discriminate H].
      injection H as _ <- <-. exact (matchUnsigned_grammar _ _ _ E N).
    + destruct (Ethers.matchUnsigned (String c r)) as [[w d]|] eqn:E; [|discriminate H].
      injection H as _ <- <-.
      destruct (Ascii.eqb c "+") eqn:Ep.
      * apply Ascii.eqb_eq in Ep. subst c. discriminate E.
      * exact (matchUnsigned_grammar _ _ _ E N).
Qed.

End Grammar.

(** ** The truncating replacement *)

Section Truncation.
Import Js DecimalSpec.

Lemma afterDotAndDigits_inv s r :
  afterDotAndDigits s = Some r ->
  exists c d1 d2 d3 d4,
    s = String c (String d1 (String d2 (String d3 (String d4 r)))) /\
    isDot c = true /\ isDigit d1 = true /\ isDigit d2 = true /\
    isDigit d3 = true /\ isDigit d4 = true.
Proof.
  unfold afterDotAndDigits.
  destruct s as [|c [|d1 [|d2 [|d3 [|d4 r']]]]]; try discriminate.
  destruct (isDot c) eqn:E0; [|discriminate].
  destruct (isDigit d1) eqn:E1; [|discriminate].
  destruct (isDigit d2) eqn:E2; [|discriminate].
  destruct (isDigit d3) eqn:E3; [|discriminate].
  destruct (isDigit d4) eqn:E4; [|discriminate].
  simpl. intros H. injection H as <-.
  exists c, d1, d2, d3, d4. repeat split; assumption.
Qed.

Lemma afterDotAndDigits_not_dot c r :
  isDot c = false -> afterDotAndDigits (String c r) = None.
Proof.
  intros H. unfold afterDotAndDigits.
  destruct r as [|d1 [|d2 [|d3 [|d4 r']]]]; try reflexivity.
  rewrite H. reflexivity.
Qed.

(** One unfolding of [replaceExcess]: either the match is here, or the
    first character is kept and the search goes on. *)
Lemma replaceExcess_step c r :
  (exists d1 d2 d3 d4 d t,
      r = String d1 (String d2 (String d3 (String d4 (String d t)))) /\
      isDot c = true /\ isDigit d1 = true /\ isDigit d2 = true /\
      isDigit d3 = true /\ isDigit d4 = true /\ isDigit d = true /\
      replaceExcess (String c r) =
        String c (String d1 (String d2 (String d3 (String d4 (dropDigits t)))))) \/
  replaceExcess (String c r) = String c (replaceExcess r).
Proof.
  cbn [replaceExcess].
  destruct (afterDotAndDigits (String c r)) as [[|d t]|] eqn:E; auto.
  destruct (isDigit d) eqn:Ed; auto.
  left. apply afterDotAndDigits_inv in E.
  destruct E as (c' & d1 & d2 & d3 & d4 & E & H0 & H1 & H2 & H3 & H4).
  injection E as <- ->.
  exists d1, d2, d3, d4, d, t. repeat split; auto.
Qed.

Lemma replaceExcess_not_dot c r :
  isDot c = false -> replaceExcess (String c r) = String c (replaceExcess r).
Proof.
  intros H. cbn [replaceExcess]. rewrite (afterDotAndDigits_not_dot _ _ H). reflexivity.
Qed.

Lemma replaceExcess_no_dots s : countDots s = 0%nat -> replaceExcess s = s.
Proof.
  induction s as [|c r IH]; [reflexivity|].
  cbn [countDots]. destruct (isDot c) eqn:E; [discriminate|].
  intros H. rewrite (replaceExcess_not_dot _ _ E), (IH H). reflexivity.
Qed.

Lemma onlyDigitsAndDots_replaceExcess s :
  onlyDigitsAndDots (replaceExcess s) = onlyDigitsAndDots s.
Proof.
  induction s as [|c r IH]; [reflexivity|].
  destruct (replaceExcess_step c r)
    as [(d1 & d2 & d3 & d4 & d & t & -> & H0 & H1 & H2 & H3 & H4 & H5 & ->) | ->].
  - cbn [onlyDigitsAndDots]. rewrite H1, H2, H3, H4, H5. cbn [orb andb].
    rewrite onlyDigitsAndDots_dropDigits. reflexivity.
  - cbn [onlyDigitsAndDots]. rewrite IH. reflexivity.
Qed.

Lemma countDots_replaceExcess s : countDots (replaceExcess s) = countDots s.
Proof.
  induction s as [|c r IH]; [reflexivity|].
  destruct (replaceExcess_step c r)
    as [(d1 & d2 & d3 & d4 & d & t & -> & H0 & H1 & H2 & H3 & H4 & H5 & ->) | ->].
  - cbn [countDots]. rewrite countDots_dropDigits.
    rewrite (isDigit_not_dot _ H5). reflexivity.
  - cbn [countDots]. rewrite IH. reflexivity.
Qed.

Lemma countDigits_replaceExcess s : (countDigits (replaceExcess s) <= countDigits s)%nat.
Proof.
  induction s as [|c r IH]; [simpl; lia|].
  destruct (replaceExcess_step c r)
    as [(d1 & d2 & d3 & d4 & d & t & -> & H0 & H1 & H2 & H3 & H4 & H5 & ->) | ->].
  - cbn [countDigits]. pose proof (countDigits_split t). lia.
  - cbn [countDigits]. lia.
Qed.

Lemma stripSign_replaceExcess s :
  stripSign (replaceExcess s) = replaceExcess (stripSign s).
Proof.
  destruct s as [|c r]; [reflexivity|].
  destruct (isSign c) eqn:E.
  - rewrite (replaceExcess_not_dot _ _ (isSign_not_dot _ E)).
    unfold stripSign. rewrite E. reflexivity.
  - assert (H : stripSign (String c r) = String c r) by (unfold stripSign; rewrite E; reflexivity).
    rewrite H.
    destruct (replaceExcess_step c r)
      as [(d1 & d2 & d3 & d4 & d & t & -> & H0 & H1 & H2 & H3 & H4 & H5 & ->) | ->];
      unfold stripSign; rewrite E; reflexivity.
Qed.

(** The replacement deletes digits only, so it never turns a string outside
    the grammar into one inside it. *)
Lemma grammar_replaceExcess s :
  decimal_grammar (replaceExcess s) = true -> decimal_grammar s = true.
Proof.
  unfold decimal_grammar. rewrite stripSign_replaceExcess.
  rewrite onlyDigitsAndDots_replaceExcess, countDots_replaceExcess.
  intros H. apply andb_true_iff in H. destruct H as [H D].
  rewrite H. cbn [andb]. apply Nat.leb_le. apply Nat.leb_le in D.
  pose proof (countDigits_replaceExcess (stripSign s)). lia.
Qed.

End Truncation.

(** ** Malformed strings are rejected *)

Lemma parseDecimal_plus s :
  DecimalSpec.hasPlus s = true -> parseDecimal s = Throw Ethers.InvalidFixedNumberString.
Proof.
  destruct s as [|c r]; [discriminate|].
  unfold DecimalSpec.hasPlus. intros H. apply Ascii.eqb_eq in H. subst c.
  unfold parseDecimal. rewrite replaceExcess_not_dot by reflexivity.
  unfold Ethers.parseUnits, Ethers.fromString, Ethers.matchFixed, Ethers.matchUnsigned.
  change (Ascii.eqb "+" "-") with false. cbv iota.
  change (Js.takeDigits (String "+" (replaceExcess r))) with "".
  change (Js.dropDigits (String "+" (replaceExcess r))) with (String "+" (replaceExcess r)).
  change (Js.isDot "+") with false. cbv iota. reflexivity.
Qed.

Lemma parseDecimal_not_invalid_grammar s :
  parseDecimal s <> Throw Ethers.InvalidFixedNumberString ->
  DecimalSpec.decimal_grammar s = true.
Proof.
  unfold parseDecimal, Ethers.parseUnits, Ethers.fromString. intros H.
  apply grammar_replaceExcess.
  destruct (Ethers.matchFixed (replaceExcess s)) as [[[sg w] d]|] eqn:E; [|congruence].
  destruct (String.length w + String.length d =? 0)%nat eqn:N; [congruence|].
  apply Nat.eqb_neq in N. exact (matchFixed_grammar _ _ _ _ E N).
Qed.

(** C7. [parseDecimal] throws the invalid-string error of [parseUnits] (the
    malformed-decimal failure of the specification) on every string outside
    the decimal grammar: digits with at most one decimal point, an optional
    sign, at least one digit; in particular on "abc", "1.2.3" and the empty
    string.  The only sign [parseUnits] knows is the minus sign: a string
    that starts with a plus sign is refused as well. *)
Theorem parseDecimal_rejects_malformed :
  (forall s, DecimalSpec.decimal_grammar s = false ->
             parseDecimal s = Throw Ethers.InvalidFixedNumberString) /\
  (forall s, DecimalSpec.hasPlus s = true ->
             parseDecimal s = Throw Ethers.InvalidFixedNumberString) /\
  parseDecimal "abc" = Throw Ethers.InvalidFixedNumberString /\
  parseDecimal "1.2.3" = Throw Ethers.InvalidFixedNumberString /\
  parseDecimal "" = Throw Ethers.InvalidFixedNumberString.
Proof.
  split; [|split; [exact parseDecimal_plus | repeat split; reflexivity]].
  intros s G.
  destruct (parseDecimal s) as [n|[]] eqn:E; try reflexivity;
    (assert (H : parseDecimal s <> Throw Ethers.InvalidFixedNumberString)
       by (rewrite E; discriminate);
     apply parseDecimal_not_invalid_grammar in H; congruence).
Qed.

Lemma parseDecimal_rejects_malformed_witness :
  DecimalSpec.decimal_grammar "1e5" = false /\
  parseDecimal "1e5" = Throw Ethers.InvalidFixedNumberString.
Proof.
  split; [reflexivity|].
  apply (proj1 parseDecimal_rejects_malformed "1e5"). reflexivity.
Defined.

(** ** Excess fractional digits are cut, not rounded *)

Section Excess.
Import Js DecimalSpec.

Lemma afterDot_stripSign s : afterDot (stripSign s) = afterDot s.
Proof.
  destruct s as [|c r]; [reflexivity|].
  unfold stripSign. destruct (isSign c) eqn:E; [|reflexivity].
  cbn [afterDot]. rewrite (isSign_not_dot _ E). reflexivity.
Qed.

Lemma body_afterDot_allDigits b :
  onlyDigitsAndDots b = true -> (countDots b <= 1)%nat -> allDigits (afterDot b) = true.
Proof.
  induction b as [|c r IH]; [reflexivity|].
  cbn [onlyDigitsAndDots countDots afterDot]. intros H D.
  apply andb_true_iff in H. destruct H as [Hc Hr].
  destruct (isDot c) eqn:E.
  - apply no_dots_allDigits; [assumption | lia].
  - apply IH; [assumption | lia].
Qed.

Lemma grammar_parts s :
  decimal_grammar s = true ->
  onlyDigitsAndDots (stripSign s) = true /\
  (countDots (stripSign s) <= 1)%nat /\
  (1 <= countDigits (stripSign s))%nat.
Proof.
  unfold decimal_grammar. intros H.
  apply andb_true_iff in H. destruct H as [H H3].
  apply andb_true_iff in H. destruct H as [H1 H2].
  apply Nat.leb_le in H2, H3. auto.
Qed.

Lemma grammar_afterDot_allDigits s :
  decimal_grammar s = true -> allDigits (afterDot s) = true.
Proof.
  intros G. destruct (grammar_parts _ G) as (H1 & H2 & _).
  rewrite <- afterDot_stripSign. apply body_afterDot_allDigits; assumption.
Qed.

Lemma allDigits_take n s : allDigits s = true -> allDigits (take n s) = true.
Proof.
  revert s. induction n as [|n IH]; intros [|c r]; simpl; auto.
  intros H. apply andb_true_iff in H. destruct H as [-> Hr]. simpl. auto.
Qed.

Lemma length_take n s : (n <= String.length s)%nat -> String.length (take n s) = n.
Proof.
  revert s. induction n as [|n IH]; intros [|c r]; simpl; auto; try lia.
  intros H. rewrite IH; lia.
Qed.

Lemma length_take_le n s : (String.length (take n s) <= n)%nat.
Proof.
  revert s. induction n as [|n IH]; intros [|c r]; simpl; auto; try lia.
  specialize (IH r). lia.
Qed.

Lemma afterDot_truncateFrac n s : afterDot (truncateFrac n s) = take n (afterDot s).
Proof.
  induction s as [|c r IH]; [destruct n; reflexivity|].
  cbn [truncateFrac afterDot]. destruct (isDot c) eqn:E; cbn [afterDot]; rewrite E; auto.
Qed.

Lemma replaceExcess_excess s :
  allDigits (afterDot s) = true -> (4 < String.length (afterDot s))%nat ->
  replaceExcess s = truncateFrac 4 s.
Proof.
  induction s as [|c r IH]; [simpl; lia|].
  cbn [afterDot truncateFrac]. destruct (isDot c) eqn:E.
  - intros A L.
    destruct r as [|d1 [|d2 [|d3 [|d4 [|d t]]]]]; simpl in L; try lia.
    cbn [allDigits] in A.
    repeat (apply andb_true_iff in A; let H := fresh "D" in destruct A as [H A]).
    cbn [replaceExcess afterDotAndDigits]. rewrite E, D, D0, D1, D2.
    cbn [andb]. rewrite D3. cbn [take append].
    destruct (allDigits_take_drop _ A) as [_ ->]. reflexivity.
  - intros A L. rewrite (replaceExcess_not_dot _ _ E), (IH A L). reflexivity.
Qed.

Lemma replaceExcess_short s :
  (countDots s <= 1)%nat -> (String.length (afterDot s) <= 4)%nat -> replaceExcess s = s.
Proof.
  induction s as [|c r IH]; [reflexivity|].
  cbn [countDots afterDot]. intros D L.
  destruct (replaceExcess_step c r)
    as [(d1 & d2 & d3 & d4 & d & t & -> & H0 & H1 & H2 & H3 & H4 & H5 & _) | ->].
  - rewrite H0 in L. simpl in L. lia.
  - destruct (isDot c) eqn:E.
    + rewrite replaceExcess_no_dots; [reflexivity | lia].
    + rewrite IH; [reflexivity | lia | assumption].
Qed.

Lemma countDots_truncateFrac s :
  allDigits (afterDot s) = true -> (countDots (truncateFrac 4 s) <= 1)%nat.
Proof.
  induction s as [|c r IH]; [simpl; lia|].
  cbn [afterDot truncateFrac]. destruct (isDot c) eqn:E; intros A; cbn [countDots]; rewrite E.
  - rewrite (allDigits_no_dots _ (allDigits_take 4 _ A)). lia.
  - specialize (IH A). lia.
Qed.

Lemma replaceExcess_truncateFrac s :
  allDigits (afterDot s) = true -> replaceExcess (truncateFrac 4 s) = truncateFrac 4 s.
Proof.
  intros A. apply replaceExcess_short.
  - apply countDots_truncateFrac, A.
  - rewrite afterDot_truncateFrac. apply length_take_le.
Qed.

End Excess.

(** ** The value computed for a well-formed string *)

Section Value.
Import Js DecimalSpec.

Lemma digitsValueFrom_acc s acc :
  digitsValueFrom acc s = acc * 10 ^ Z.of_nat (String.length s) + digitsValue s.
Proof.
  unfold digitsValue. revert acc.
  induction s as [|c r IH]; intros acc.
  - simpl. lia.
  - cbn [digitsValueFrom String.length]. rewrite IH, (IH (10 * 0 + digitValue c)).
    rewrite Nat2Z.inj_succ, Z.pow_succ_r by lia. ring.
Qed.

Lemma digitsValue_app a b :
  digitsValue (a ++ b) = digitsValue a * 10 ^ Z.of_nat (String.length b) + digitsValue b.
Proof.
  unfold digitsValue at 1 2. generalize 0.
  induction a as [|c r IH]; intros acc.
  - cbn [append digitsValueFrom]. apply digitsValueFrom_acc.
  - cbn [append digitsValueFrom]. apply IH.
Qed.

Lemma body_takeDigits b : onlyDigitsAndDots b = true -> takeDigits b = beforeDot b.
Proof.
  induction b as [|c r IH]; [reflexivity|].
  cbn [onlyDigitsAndDots takeDigits beforeDot]. intros H.
  apply andb_true_iff in H. destruct H as [Hc Hr].
  destruct (isDigit c) eqn:E.
  - rewrite (isDigit_not_dot _ E), (IH Hr). reflexivity.
  - cbn [orb] in Hc. rewrite Hc. reflexivity.
Qed.

Lemma body_skipDot b :
  onlyDigitsAndDots b = true ->
  match dropDigits b with
  | String c r => if isDot c then r else dropDigits b
  | "" => dropDigits b
  end = afterDot b.
Proof.
  induction b as [|c r IH]; [reflexivity|].
  cbn [onlyDigitsAndDots dropDigits afterDot]. intros H.
  apply andb_true_iff in H. destruct H as [Hc Hr].
  destruct (isDigit c) eqn:E.
  - rewrite (isDigit_not_dot _ E). apply IH, Hr.
  - cbn [orb] in Hc. rewrite Hc. reflexivity.
Qed.

Lemma matchUnsigned_body b :
  onlyDigitsAndDots b = true -> (countDots b <= 1)%nat ->
  Ethers.matchUnsigned b = Some (beforeDot b, afterDot b).
Proof.
  intros H D. unfold Ethers.matchUnsigned.
  rewrite (body_skipDot _ H), (body_takeDigits _ H).
  destruct (allDigits_take_drop _ (body_afterDot_allDigits _ H D)) as [-> ->].
  reflexivity.
Qed.

Lemma body_countDigits b :
  onlyDigitsAndDots b = true -> (countDots b <= 1)%nat ->
  countDigits b = (String.length (beforeDot b) + String.length (afterDot b))%nat.
Proof.
  induction b as [|c r IH]; [reflexivity|].
  cbn [onlyDigitsAndDots countDots countDigits beforeDot afterDot]. intros H D.
  apply andb_true_iff in H. destruct H as [Hc Hr].
  destruct (isDot c) eqn:E.
  - rewrite (isDot_not_digit _ E). cbn [String.length].
    rewrite allDigits_countDigits; [lia|]. apply no_dots_allDigits; [assumption | lia].
  - rewrite orb_false_r in Hc. rewrite Hc. cbn [String.length].
    rewrite IH; [lia | assumption | lia].
Qed.

Lemma matchFixed_grammar_inv s :
  decimal_grammar s = true -> hasPlus s = false ->
  Ethers.matchFixed s =
    Some (if isNegative s then "-" else "",
          beforeDot (stripSign s), afterDot (stripSign s)) /\
  (String.length (beforeDot (stripSign s)) +
   String.length (afterDot (stripSign s)))%nat <> 0%nat.
Proof.
  intros G P. destruct (grammar_parts _ G) as (H1 & H2 & H3).
  split; [|rewrite <- (body_countDigits _ H1 H2); lia].
  unfold Ethers.matchFixed.
  destruct s as [|c r].
  - simpl in H3. lia.
  - unfold stripSign, isSign, isNegative, hasPlus in *.
    rewrite P in *. rewrite orb_false_r in *.
    destruct (Ascii.eqb c "-") eqn:Em;
      rewrite (matchUnsigned_body _ H1 H2); reflexivity.
Qed.

(** What [fromString] makes of the three groups when the decimal group has
    at most four digits. *)
Lemma fromString_groups t sign whole decimal :
  Ethers.matchFixed t = Some (sign, whole, decimal) ->
  (String.length whole + String.length decimal)%nat <> 0%nat ->
  (String.length decimal <= 4)%nat ->
  let m := digitsValue whole * 10 ^ Z.of_nat (String.length decimal) + digitsValue decimal in
  let n := (if String.eqb sign "-" then - m else m) *
           10 ^ (4 - Z.of_nat (String.length decimal)) in
  Ethers.fromString t 4 512 =
    if (- 2 ^ 511 <=? n) && (n <? 2 ^ 511) then Ok n else Throw Ethers.Overflow.
Proof.
  intros M N L m n. unfold Ethers.fromString. rewrite M.
  apply Nat.eqb_neq in N. rewrite N.
  set (w := if String.eqb whole "" then "0" else whole).
  assert (W : digitsValue w = digitsValue whole).
  { subst w. destruct (String.eqb_spec whole ""); [subst; reflexivity | reflexivity]. }
  assert (P : allZeros (skip 4 (Ethers.padDecimal 4 4 decimal)) = true /\
              digitsValue (w ++ take 4 (Ethers.padDecimal 4 4 decimal)) =
              m * 10 ^ (4 - Z.of_nat (String.length decimal))).
  { subst m. rewrite digitsValue_app, W.
    destruct decimal as [|a [|b [|c [|d [|e r]]]]]; simpl in L; try lia;
      (split; [reflexivity|]);
      match goal with |- context [take 4 ?p] =>
        let t := eval cbv in (take 4 p) in change (take 4 p) with t end;
      unfold digitsValue; cbn [digitsValueFrom String.length];
      change (digitValue "0") with 0;
      generalize (digitsValueFrom 0 whole); intros v;
      repeat rewrite Nat2Z.inj_succ; simpl Z.of_nat;
      repeat match goal with |- context [10 ^ ?k] =>
        let x := eval cbv in (10 ^ k) in change (10 ^ k) with x end; lia. }
  destruct P as [-> P]. cbn [negb].
  change (2 ^ (512 - 1)) with (2 ^ 511).
  assert (V : (if String.eqb sign "-"
               then - digitsValue (w ++ take 4 (Ethers.padDecimal 4 4 decimal))
               else digitsValue (w ++ take 4 (Ethers.padDecimal 4 4 decimal))) = n).
  { subst n. rewrite P. destruct (String.eqb sign "-"); ring. }
  rewrite V. reflexivity.
Qed.

End Value.

(** ** Exact conversion of strings with at most four fractional digits *)

Section Roundtrip.
Import Js DecimalSpec.

Lemma countDots_stripSign s : countDots (stripSign s) = countDots s.
Proof.
  destruct s as [|c r]; [reflexivity|].
  unfold stripSign. destruct (isSign c) eqn:E; [|reflexivity].
  cbn [countDots]. rewrite (isSign_not_dot _ E). reflexivity.
Qed.

Lemma denominator_pow s :
  Z.pos (decimal_denominator s) = 10 ^ Z.of_nat (frac_digits s).
Proof.
  unfold decimal_denominator, frac_digits. rewrite afterDot_stripSign.
  apply Z2Pos.id. apply Z.pow_pos_nonneg; lia.
Qed.

(** The integer [parseDecimal] returns for a string of the grammar without a
    plus sign and with at most four fractional digits, up to the range check
    of [parseUnits]. *)
Lemma parseDecimal_short s :
  decimal_grammar s = true -> hasPlus s = false -> (frac_digits s <= 4)%nat ->
  let n := decimal_numerator s * 10 ^ (4 - Z.of_nat (frac_digits s)) in
  parseDecimal s =
    if (- 2 ^ 511 <=? n) && (n <? 2 ^ 511) then Ok n else Throw Ethers.Overflow.
Proof.
  intros G P L n. destruct (grammar_parts _ G) as (H1 & H2 & _).
  destruct (matchFixed_grammar_inv _ G P) as [M N].
  unfold parseDecimal, Ethers.parseUnits, SCORE_DECIMALS.
  rewrite replaceExcess_short;
    [| rewrite <- countDots_stripSign; exact H2 | exact L].
  unfold frac_digits in L. rewrite <- afterDot_stripSign in L.
  rewrite (fromString_groups _ _ _ _ M N L).
  assert (E : (if String.eqb (if isNegative s then "-" else "") "-"
               then - (digitsValue (beforeDot (stripSign s)) *
                       10 ^ Z.of_nat (String.length (afterDot (stripSign s))) +
                       digitsValue (afterDot (stripSign s)))
               else digitsValue (beforeDot (stripSign s)) *
                    10 ^ Z.of_nat (String.length (afterDot (stripSign s))) +
                    digitsValue (afterDot (stripSign s))) *
              10 ^ (4 - Z.of_nat (String.length (afterDot (stripSign s)))) = n).
  { subst n. unfold decimal_numerator, frac_digits. rewrite !(afterDot_stripSign s).
    destruct (isNegative s); reflexivity. }
  rewrite E. reflexivity.
Qed.

Lemma scaled_times_denominator s :
  (frac_digits s <= 4)%nat ->
  decimal_numerator s * 10 ^ (4 - Z.of_nat (frac_digits s)) * Z.pos (decimal_denominator s)
  = decimal_numerator s * 10000.
Proof.
  intros L. rewrite denominator_pow, <- Z.mul_assoc, <- Z.pow_add_r by lia.
  replace (4 - Z.of_nat (frac_digits s) + Z.of_nat (frac_digits s)) with 4 by lia.
  reflexivity.
Qed.

Lemma in_range_scaled s :
  (frac_digits s <= 4)%nat -> in_range s ->
  let n := decimal_numerator s * 10 ^ (4 - Z.of_nat (frac_digits s)) in
  - 2 ^ 511 <= n < 2 ^ 511.
Proof.
  intros L [Lo Hi] n.
  pose proof (scaled_times_denominator s L) as S. fold n in S.
  unfold Qle, Qlt, decimal_value, Qmult, inject_Z in Lo, Hi.
  cbn [Qnum Qden] in Lo, Hi.
  rewrite Pos2Z.inj_mul in Lo, Hi.
  assert (D : 0 < Z.pos (decimal_denominator s)) by lia.
  revert Lo Hi S. generalize (Z.pos (decimal_denominator s)) (decimal_numerator s) D.
  generalize (2 ^ 511). clear. intros B d m D Lo Hi S. nia.
Qed.

End Roundtrip.

(** C6 (as amended). A decimal string without a plus sign, with at most four
    fractional digits and whose value scaled by 10^4 lies in the signed
    512-bit range of [parseUnits], is converted to an integer [n] such that
    [n / 10^4] is exactly the rational number the string denotes.  The
    conversion works on digit strings and integers only. *)
Theorem parseDecimal_roundtrip s :
  DecimalSpec.decimal_grammar s = true ->
  DecimalSpec.hasPlus s = false ->
  (DecimalSpec.frac_digits s <= 4)%nat ->
  DecimalSpec.in_range s ->
  exists n : Z, parseDecimal s = Ok n /\ (Qmake n 10000 == DecimalSpec.decimal_value s)%Q.
Proof.
  intros G P L R.
  pose proof (in_range_scaled s L R) as B. cbv zeta in B.
  exists (DecimalSpec.decimal_numerator s * 10 ^ (4 - Z.of_nat (DecimalSpec.frac_digits s))).
  split.
  - rewrite (parseDecimal_short s G P L). cbv zeta.
    destruct B as [B1 B2]. apply Z.leb_le in B1. apply Z.ltb_lt in B2.
    rewrite B1, B2. reflexivity.
  - unfold Qeq, DecimalSpec.decimal_value. cbn [Qnum Qden].
    apply scaled_times_denominator, L.
Qed.

Lemma parseDecimal_roundtrip_witness :
  exists n : Z, parseDecimal "5.6789" = Ok n /\
                (Qmake n 10000 == DecimalSpec.decimal_value "5.6789")%Q.
Proof.
  apply (parseDecimal_roundtrip "5.6789").
  - reflexivity.
  - reflexivity.
  - vm_compute. lia.
  - split; vm_compute; [discriminate | reflexivity].
Defined.

(** C6 fails as stated on two kinds of decimal strings with at most four
    fractional digits: a plus sign is refused, and so is a value that
    leaves the 512-bit range (here 10^155, a one followed by 155 zeros). *)
Lemma parseDecimal_roundtrip_fails :
  (DecimalSpec.decimal_grammar "+1.5" = true /\
   (DecimalSpec.frac_digits "+1.5" <= 4)%nat /\
   parseDecimal "+1.5" = Throw Ethers.InvalidFixedNumberString) /\
  (DecimalSpec.decimal_grammar DecimalSpec.bigDecimal = true /\
   (DecimalSpec.frac_digits DecimalSpec.bigDecimal <= 4)%nat /\
   DecimalSpec.hasPlus DecimalSpec.bigDecimal = false /\
   parseDecimal DecimalSpec.bigDecimal = Throw Ethers.Overflow).
Proof.
  repeat split; try reflexivity; vm_compute; lia.
Qed.

(** ** The loops of [processAddresses] *)

Section Run.

Context (rt : Runtime).
Local Open Scope list_scope.

Lemma forEachAddress_app scorerId l1 l2 (st : State rt) :
  forEachAddress rt scorerId (l1 ++ l2) st =
  match forEachAddress rt scorerId l1 st with
  | (Ok _, st') => forEachAddress rt scorerId l2 st'
  | (Throw e, st') => (Throw e, st')
  end.
Proof.
  revert st. induction l1 as [|a l1 IH]; intros st; [reflexivity|].
  cbn [forEachAddress app]. unfold bind.
  destruct (processAddress rt scorerId a st) as [[[]|e] st1]; [apply IH | reflexivity].
Qed.

Lemma slice_skipn (l : list string) i n :
  slice i (i + n) l ++ skipn (i + n) l = skipn i l.
Proof.
  unfold slice. replace (i + n - i)%nat with n by lia.
  rewrite Nat.add_comm, <- skipn_skipn. apply firstn_skipn.
Qed.

(** Batching only groups the addresses: the two nested loops visit the
    addresses from [i] on one after the other. *)
Lemma batchLoop_forEach addresses scorerId i (st : State rt) :
  batchLoop rt addresses scorerId i st = forEachAddress rt scorerId (skipn i addresses) st.
Proof.
  funelim (batchLoop rt addresses scorerId i st).
  - rewrite skipn_all2 by lia. reflexivity.
  - rewrite <- (slice_skipn addresses i batchSize), forEachAddress_app.
    match goal with E : forEachAddress _ _ _ _ = _ |- _ => rewrite E end. assumption.
  - rewrite <- (slice_skipn addresses i batchSize), forEachAddress_app.
    match goal with E : forEachAddress _ _ _ _ = _ |- _ => rewrite E end. reflexivity.
Qed.

Lemma processAddresses_forEach addresses scorerId (st : State rt) :
  processAddresses rt addresses scorerId st =
  returnResults rt (forEachAddress rt scorerId addresses (fresh rt st)).
Proof.
  unfold processAddresses. rewrite batchLoop_forEach. reflexivity.
Qed.

(** The body of the loop never throws; it makes one request to the score
    service, first, and pushes one outcome, for its address. *)
Lemma processAddress_one scorerId a (st : State rt) :
  exists o w evs,
    processAddress rt scorerId a st =
      (Ok tt, {| world := w;
                 trace := trace st ++ EvGet (getScoreUrl rt a scorerId) (SCORER_API_KEY rt) :: evs;
                 results := results st ++ [o] |}) /\
    Outcome.address o = a /\ settled o /\ filter isGet evs = [].
Proof.
  unfold processAddress, try_catch, bind, requestV2Score, try_catch, axiosGet, throw,
    results_push, logged.
  destruct (axios_get rt _ _ (world st)) as [[scoreData|e] w1]; cbn [world trace results].
  2:{ eexists _, w1, []. split; [reflexivity|].
      repeat split; right; eexists; repeat split. }
  destruct (truthy (V2ScoreResponseData.error scoreData)) eqn:T.
  { cbn [world trace results]. eexists _, w1, []. split; [reflexivity|].
    repeat split. right. unfold truthy in T.
    destruct (V2ScoreResponseData.error scoreData) as [e|] eqn:E; [|discriminate].
    exists e. cbn. auto. }
  unfold writeScoreOnchain, try_catch, bind, lift, contract_submitAttestations, wait, ret,
    setTimeout, throw, logged.
  cbn [world trace results].
  destruct (createAttestationData rt a scoreData scorerId) as [d|e]; cbn [world trace results].
  2:{ eexists _, w1, []. split; [reflexivity|].
      repeat split; right; eexists; repeat split. }
  destruct (submitAttestations rt _ w1) as [[tx|e] w2]; cbn [world trace results].
  2:{ eexists _, w2, [_]. split; [rewrite <- app_assoc; reflexivity|].
      repeat split; right; eexists; repeat split. }
  destruct (tx_wait rt tx w2) as [[[]|e] w3]; cbn [world trace results].
  2:{ eexists _, w3, [_; _]. split; [rewrite <- !app_assoc; reflexivity|].
      repeat split; right; eexists; repeat split. }
  eexists _, _, [_; _; _]. split; [rewrite <- !app_assoc; reflexivity|].
  repeat split. left. eexists. split; reflexivity.
Qed.

Lemma forEachAddress_outcomes scorerId addresses (st : State rt) :
  exists outcomes st',
    forEachAddress rt scorerId addresses st = (Ok tt, st') /\
    results st' = results st ++ outcomes /\
    map Outcome.address outcomes = addresses /\
    Forall settled outcomes /\
    filter isGet (trace st') =
      filter isGet (trace st) ++
      map (fun a => EvGet (getScoreUrl rt a scorerId) (SCORER_API_KEY rt)) addresses.
Proof.
  revert st. induction addresses as [|a l IH]; intros st.
  - exists [], st. cbn. rewrite !app_nil_r. auto.
  - cbn [forEachAddress]. unfold bind.
    destruct (processAddress_one scorerId a st) as (o & w & evs & -> & Ha & Hs & Hg).
    destruct (IH {| world := w;
                    trace := trace st ++ EvGet (getScoreUrl rt a scorerId) (SCORER_API_KEY rt) :: evs;
                    results := results st ++ [o] |})
      as (os & st' & -> & Hr & Hm & Hf & Ht).
    cbn [world trace results] in *.
    exists (o :: os), st'. split; [reflexivity|].
    split; [rewrite Hr, <- app_assoc; reflexivity|].
    split; [cbn; rewrite Ha, Hm; reflexivity|].
    split; [constructor; assumption|].
    rewrite Ht, filter_app. cbn [filter isGet map]. rewrite Hg, <- app_assoc. reflexivity.
Qed.

End Run.

(** ** One address, path by path *)

Section Paths.

Context (rt : Runtime).
Local Open Scope list_scope.

Variables (scorerId address : string) (st : State rt).

Let url := getScoreUrl rt address scorerId.
Let key := SCORER_API_KEY rt.


Lemma processAddress_reported_error scoreData w :
  axios_get rt url key (world st) = (Ok scoreData, w) ->
  truthy (V2ScoreResponseData.error scoreData) = true ->
  processAddress rt scorerId address st =
    (Ok tt, {| world := w;
               trace := trace st ++ [EvGet url key];
               results := results st ++
                          [zeroOutcome address (V2ScoreResponseData.error scoreData)] |}).
Proof.
  intros G T.
  unfold processAddress, try_catch, bind, requestV2Score, try_catch, axiosGet, throw,
    results_push, logged.
  fold url key. rewrite G, T. reflexivity.
Qed.


Lemma processAddress_submission_throws scoreData w d e w' :
  axios_get rt url key (world st) = (Ok scoreData, w) ->
  truthy (V2ScoreResponseData.error scoreData) = false ->
  createAttestationData rt address scoreData scorerId = Ok d ->
  submitAttestations rt (multiAttestationRequest rt d) w = (Throw e, w') ->
  processAddress rt scorerId address st =
    (Ok tt, {| world := w';
               trace := trace st ++ [EvGet url key; EvSubmit (multiAttestationRequest rt d)];
               results := results st ++ [zeroOutcome address (Some (errorText e))] |}).
Proof.
  intros G T C S.
  unfold processAddress, try_catch, bind, requestV2Score, try_catch, axiosGet, throw,
    results_push, logged.
  fold url key. rewrite G, T.
  unfold writeScoreOnchain, try_catch, bind, lift, contract_submitAttestations, logged.
  rewrite C. cbn [world trace results]. rewrite S.
  cbn [world trace results]. rewrite <- app_assoc. reflexivity.
Qed.



End Paths.

(** The place of one address in a run: once the addresses before it are
    done, its iteration runs, and the run goes on with the addresses after
    it; the outcome it pushed is at its position in the returned list. *)
Lemma processAddresses_split (rt : Runtime) scorerId pre a post (st st1 st2 : State rt) o :
  forEachAddress rt scorerId pre (fresh rt st) = (Ok tt, st1) ->
  processAddress rt scorerId a st1 = (Ok tt, st2) ->
  results st2 = (results st1 ++ [o])%list ->
  processAddresses rt (pre ++ a :: post) scorerId st =
    returnResults rt (forEachAddress rt scorerId post st2) /\
  exists outcomes st',
    processAddresses rt (pre ++ a :: post) scorerId st = (Ok outcomes, st') /\
    nth_error outcomes (List.length pre) = Some o.
Proof.
  intros Hpre Ha Hr.
  assert (E : processAddresses rt (pre ++ a :: post) scorerId st =
              returnResults rt (forEachAddress rt scorerId post st2)).
  { rewrite processAddresses_forEach, forEachAddress_app, Hpre.
    cbn [forEachAddress]. unfold bind. rewrite Ha. reflexivity. }
  split; [exact E|].
  rewrite E.
  destruct (forEachAddress_outcomes rt scorerId pre (fresh rt st))
    as (os1 & st1' & E1 & R1 & M1 & _).
  rewrite Hpre in E1. injection E1 as <-.
  destruct (forEachAddress_outcomes rt scorerId post st2)
    as (os2 & st' & -> & R2 & _).
  cbn [returnResults]. exists (results st'), st'. split; [reflexivity|].
  rewrite R2, Hr, R1. cbn [fresh results app].
  rewrite <- M1, length_map, <- app_assoc.
  rewrite nth_error_app2 by lia. rewrite Nat.sub_diag. reflexivity.
Qed.


(** C2 (as amended). When the score service answers an address with a
    response whose [error] field is a non-empty text, the iteration for that
    address makes the request to the service and no other call (no
    submission to the chain), pushes the outcome with score "0", the
    service's error text and no transaction hash, and the run goes on with
    the next address; the outcome is at the address's position in the
    returned list. *)
Theorem processAddresses_service_error
    (rt : Runtime) (scorerId : string) (pre : list string) (a : string) (post : list string)
    (st st1 : State rt) (scoreData : V2ScoreResponseData.t) (w : World rt) (e : string) :
  forEachAddress rt scorerId pre (fresh rt st) = (Ok tt, st1) ->
  axios_get rt (getScoreUrl rt a scorerId) (SCORER_API_KEY rt) (world st1) = (Ok scoreData, w) ->
  V2ScoreResponseData.error scoreData = Some e ->
  e <> "" ->
  let o := {| Outcome.address := a; Outcome.score := "0";
              Outcome.txHash := None; Outcome.error := Some e |} in
  let st2 := {| world := w;
                trace := (trace st1 ++
                          [EvGet (getScoreUrl rt a scorerId) (SCORER_API_KEY rt)])%list;
                results := (results st1 ++ [o])%list |} in
  processAddress rt scorerId a st1 = (Ok tt, st2) /\
  processAddresses rt (pre ++ a :: post) scorerId st =
    returnResults rt (forEachAddress rt scorerId post st2) /\
  exists outcomes st',
    processAddresses rt (pre ++ a :: post) scorerId st = (Ok outcomes, st') /\
    nth_error outcomes (List.length pre) = Some o.
Proof.
  intros Hpre G E N o st2.
  assert (T : truthy (V2ScoreResponseData.error scoreData) = true).
  { rewrite E. cbn. destruct (String.eqb_spec e ""); [contradiction | reflexivity]. }
  pose proof (processAddress_reported_error rt scorerId a st1 scoreData w G T) as P.
  rewrite E in P. fold o in P. change (zeroOutcome a (Some e)) with o in P. fold st2 in P.
  split; [exact P|].
  apply (processAddresses_split rt scorerId pre a post st st1 st2 o Hpre P). reflexivity.
Qed.

Lemma processAddresses_service_error_witness :
  processAddresses Scenario.runtime [Scenario.addressC] Scenario.scorerId Scenario.start =
    (Ok [ {| Outcome.address := Scenario.addressC; Outcome.score := "0";
             Outcome.txHash := None; Outcome.error := Some "rate limited" |} ],
     Build_State Scenario.runtime tt
       [EvGet (Scenario.urlOf Scenario.addressC) "secret"]
       [ {| Outcome.address := Scenario.addressC; Outcome.score := "0";
            Outcome.txHash := None; Outcome.error := Some "rate limited" |} ]).
Proof.
  refine (proj1 (proj2 (processAddresses_service_error Scenario.runtime Scenario.scorerId
            [] Scenario.addressC [] Scenario.start Scenario.start
            (Scenario.response Scenario.addressC (Some "rate limited")) tt "rate limited"
            _ _ _ _))).
  - reflexivity.
  - reflexivity.
  - reflexivity.
  - discriminate.
Defined.

(** C2 fails as stated when the [error] field is there with an empty text:
    the script then builds the payload (the response has no stamp), goes on
    to the chain and records a transaction. *)
Lemma service_error_empty_text_is_submitted :
  let run := processAddresses Scenario.runtime [Scenario.addressD]
               Scenario.scorerId Scenario.start in
  Scenario.service (Scenario.urlOf Scenario.addressD) =
    Ok (Scenario.response Scenario.addressD (Some "")) /\
  fst run = Ok [ {| Outcome.address := Scenario.addressD; Outcome.score := "5.6789";
                   Outcome.txHash := Some "0xTX1"; Outcome.error := None |} ] /\
  map kind (trace (snd run)) = [Get; Submit; Wait; Timeout].
Proof.
  repeat split; vm_compute; reflexivity.
Qed.

(** C5 (as amended). When the score service answers an address with a score
    (5.6789 or any other) and no error, the payload for the address is built
    (which takes a response none of whose stamps is counted), and the
    submission for that address is refused with an error whose message is
    [cause], the outcome recorded for the address has score "0", no
    transaction hash and the cause as its error: its row in the report is the
    address, 0, an empty transaction hash and the cause. *)
Theorem processAddresses_failed_submission
    (rt : Runtime) (scorerId : string) (pre : list string) (a : string) (post : list string)
    (st st1 : State rt) (scoreData : V2ScoreResponseData.t) (w w' : World rt)
    (d : AttestationRequestData.t) (cause : string) :
  forEachAddress rt scorerId pre (fresh rt st) = (Ok tt, st1) ->
  axios_get rt (getScoreUrl rt a scorerId) (SCORER_API_KEY rt) (world st1) = (Ok scoreData, w) ->
  truthy (V2ScoreResponseData.error scoreData) = false ->
  createAttestationData rt a scoreData scorerId = Ok d ->
  submitAttestations rt (multiAttestationRequest rt d) w = (Throw (JsError cause), w') ->
  exists outcomes st' o,
    processAddresses rt (pre ++ a :: post) scorerId st = (Ok outcomes, st') /\
    nth_error outcomes (List.length pre) = Some o /\
    o = {| Outcome.address := a; Outcome.score := "0";
           Outcome.txHash := None; Outcome.error := Some cause |} /\
    csvRow o = a ++ ",0,," ++ cause.
Proof.
  intros Hpre G T C S.
  pose proof (processAddress_submission_throws rt scorerId a st1 scoreData w d _ w' G T C S) as P.
  destruct (processAddresses_split rt scorerId pre a post st st1 _ _ Hpre P eq_refl)
    as (_ & outcomes & st' & E & Hn).
  exists outcomes, st', (zeroOutcome a (Some cause)).
  repeat split; assumption || reflexivity.
Qed.

Lemma processAddresses_failed_submission_witness :
  exists outcomes st' o,
    processAddresses Scenario.runtime [Scenario.addressA; Scenario.addressB]
      Scenario.scorerId Scenario.start = (Ok outcomes, st') /\
    nth_error outcomes 1 = Some o /\
    o = {| Outcome.address := Scenario.addressB; Outcome.score := "0";
           Outcome.txHash := None; Outcome.error := Some "nonce too low" |} /\
    csvRow o = "0xBBBBBBBBBBBBBBBBBBBBBBBBBBBBBBBBBBBBBBB2,0,,nonce too low".
Proof.
  refine (processAddresses_failed_submission Scenario.runtime Scenario.scorerId
            [Scenario.addressA] Scenario.addressB [] Scenario.start
            (snd (forEachAddress Scenario.runtime Scenario.scorerId [Scenario.addressA]
                    Scenario.start))
            (Scenario.response Scenario.addressB None) tt tt
            (Scenario.request Scenario.addressB)
            "nonce too low" _ _ _ _ _).
  - vm_compute. reflexivity.
  - reflexivity.
  - reflexivity.
  - vm_compute. reflexivity.
  - reflexivity.
Defined.

(** C5 fails as stated: the service answers both addresses with score
    5.6789 (and no stamp, so that their payloads are built and submitted),
    the submission for the second is refused with "nonce too low", and the
    row of the second address reports score 0, not the fetched score.  With
    the github stamp of the specification the submission is not reached: the
    row reports score 0 with the error of the ABI coder. *)
Lemma scenario_row_reports_zero :
  let run := processAddresses Scenario.runtime [Scenario.addressA; Scenario.addressB]
               Scenario.scorerId Scenario.start in
  V2ScoreResponseData.score (Scenario.response Scenario.addressB None) = "5.6789" /\
  map kind (trace (snd run)) = [Get; Submit; Wait; Timeout; Get; Submit] /\
  (exists oA oB,
     fst run = Ok [oA; oB] /\
     csvRow oA = "0xAAAAAAAAAAAAAAAAAAAAAAAAAAAAAAAAAAAAAAA1,5.6789,0xTX1," /\
     csvRow oB = "0xBBBBBBBBBBBBBBBBBBBBBBBBBBBBBBBBBBBBBBB2,0,,nonce too low" /\
     csvRow oB <> "0xBBBBBBBBBBBBBBBBBBBBBBBBBBBBBBBBBBBBBBB2,5.6789,,nonce too low") /\
  (let run := processAddresses Scenario.runtime [Scenario.addressE]
                Scenario.scorerId Scenario.start in
   V2ScoreResponseData.score (Scenario.stamped Scenario.addressE) = "5.6789" /\
   map kind (trace (snd run)) = [Get] /\
   exists oE,
     fst run = Ok [oE] /\
     csvRow oE =
       "0xEEEEEEEEEEEEEEEEEEEEEEEEEEEEEEEEEEEEEEE5,0,," ++
       abi_message Scenario.runtime (AbiCoder.MissingNames "github" 56789)).
Proof.
  split; [reflexivity|]. split; [vm_compute; reflexivity|].
  split.
  - eexists _, _. split; [vm_compute; reflexivity|].
    repeat split; try (vm_compute; reflexivity).
    vm_compute. discriminate.
  - cbv zeta. split; [reflexivity|]. split; [vm_compute; reflexivity|].
    eexists. split; vm_compute; reflexivity.
Qed.

(** C8, on the code: the pause of 1000 ms follows a successful attestation
    only.  In a run over an address the service reports an error for, an
    address whose submission is refused, and an address that is attested,
    the next request to the service follows the first two at once, and the
    only timer is the one after the third. *)
Theorem scenario_pause_only_after_success :
  let run := processAddresses Scenario.runtime
               [Scenario.addressC; Scenario.addressB; Scenario.addressA]
               Scenario.scorerId Scenario.start in
  map kind (trace (snd run)) = [Get; Get; Submit; Get; Submit; Wait; Timeout] /\
  filter (fun e => match e with EvTimeout _ => true | _ => false end) (trace (snd run)) =
    [EvTimeout 1000] /\
  (exists outcomes, fst run = Ok outcomes /\
     map Outcome.txHash outcomes = [None; None; Some "0xTX1"]).
Proof.
  repeat split; try (vm_compute; reflexivity).
  eexists. split; vm_compute; reflexivity.
Qed.

(** ** [parseFloat(s) > 0] on the strings [parseDecimal] accepts *)

Section FloatSign.
Import Js DecimalSpec JsFloat.

Lemma not_white c :
  isDigit c || isDot c || Ascii.eqb c "-" = true -> isStrWhiteSpaceChar c = false.
Proof.
  destruct c as [[] [] [] [] [] [] [] []]; vm_compute; congruence.
Qed.

Lemma not_capital_I c : isDigit c || isDot c = true -> Ascii.eqb "I" c = false.
Proof.
  destruct c as [[] [] [] [] [] [] [] []]; vm_compute; congruence.
Qed.

Lemma digitValue_nonneg c : isDigit c = true -> 0 <= digitValue c.
Proof.
  unfold isDigit, digitValue. intros H. apply andb_true_iff in H.
  destruct H as [H _]. apply Nat.leb_le in H. lia.
Qed.

Lemma digitsValueFrom_nonneg s acc :
  allDigits s = true -> 0 <= acc -> 0 <= digitsValueFrom acc s.
Proof.
  revert acc. induction s as [|c r IH]; intros acc A N; [exact N|].
  cbn [allDigits] in A. apply andb_true_iff in A. destruct A as [Hc Hr].
  cbn [digitsValueFrom]. apply IH; [assumption|].
  pose proof (digitValue_nonneg _ Hc). lia.
Qed.

Lemma allDigits_beforeDot b : onlyDigitsAndDots b = true -> allDigits (beforeDot b) = true.
Proof.
  intros H. rewrite <- (body_takeDigits _ H). apply allDigits_takeDigits.
Qed.

Lemma body_fraction b :
  onlyDigitsAndDots b = true -> (countDots b <= 1)%nat ->
  match dropDigits b with
  | String c r => if isDot c then (takeDigits r, dropDigits r) else ("", dropDigits b)
  | "" => ("", "")
  end = (afterDot b, "").
Proof.
  induction b as [|c r IH]; [reflexivity|].
  cbn [onlyDigitsAndDots countDots dropDigits afterDot]. intros H D.
  apply andb_true_iff in H. destruct H as [Hc Hr].
  destruct (isDigit c) eqn:E.
  - rewrite (isDigit_not_dot _ E) in *. apply IH; [assumption | lia].
  - cbn [orb] in Hc. rewrite Hc in *.
    assert (A : allDigits r = true) by (apply no_dots_allDigits; [assumption | lia]).
    destruct (allDigits_take_drop _ A) as [-> ->]. reflexivity.
Qed.

(** The numerator of the value, read off the digits. *)
Lemma numerator_digits s :
  decimal_grammar s = true ->
  let b := stripSign s in
  let m := digitsValue (beforeDot b ++ afterDot b) in
  0 <= m /\ decimal_numerator s = if isNegative s then - m else m.
Proof.
  intros G b m. destruct (grammar_parts _ G) as (H1 & H2 & _).
  subst m b. rewrite digitsValue_app. split; [|reflexivity].
  apply Z.add_nonneg_nonneg; [apply Z.mul_nonneg_nonneg|].
  - apply digitsValueFrom_nonneg; [apply allDigits_beforeDot, H1 | lia].
  - apply Z.pow_nonneg. lia.
  - apply digitsValueFrom_nonneg; [apply body_afterDot_allDigits; assumption | lia].
Qed.

Lemma parseFloat_positive_grammar s :
  decimal_grammar s = true -> hasPlus s = false ->
  let b := stripSign s in
  parseFloat_positive s =
    negb (isNegative s) &&
    roundsToPositive (digitsValue (beforeDot b ++ afterDot b))
                     (- Z.of_nat (String.length (afterDot b))).
Proof.
  intros G P b. destruct (grammar_parts _ G) as (H1 & H2 & H3). fold b in H1, H2, H3.
  unfold parseFloat_positive.
  assert (S : signOf (trimStart s) = (isNegative s, b)).
  { subst b. destruct s as [|c r]; [reflexivity|].
    unfold stripSign, isSign, isNegative, hasPlus in *. rewrite P in *.
    rewrite orb_false_r in *. cbn [trimStart].
    destruct (Ascii.eqb c "-") eqn:Em.
    - rewrite not_white by (rewrite Em; apply orb_true_r).
      unfold signOf. rewrite Em. reflexivity.
    - cbn [onlyDigitsAndDots] in H1. apply andb_true_iff in H1. destruct H1 as [Hc _].
      rewrite not_white by (rewrite Hc; reflexivity).
      unfold signOf. rewrite Em, P. reflexivity. }
  rewrite S.
  assert (I : String.prefix "Infinity" b = false).
  { destruct b as [|c r]; [reflexivity|].
    cbn [onlyDigitsAndDots] in H1. apply andb_true_iff in H1. destruct H1 as [Hc _].
    cbn [String.prefix]. destruct (ascii_dec "I" c) as [<-|]; [discriminate Hc | reflexivity]. }
  rewrite I, (body_fraction _ H1 H2), (body_takeDigits _ H1).
  rewrite (body_countDigits _ H1 H2) in H3.
  destruct (String.length (beforeDot b) + String.length (afterDot b) =? 0)%nat eqn:N.
  - apply Nat.eqb_eq in N. lia.
  - cbn [exponentPart]. rewrite Z.sub_0_l. reflexivity.
Qed.

(** On a string of the grammar without a plus sign, [parseFloat(s) > 0] says
    that the value of the string is above 2^-1075. *)
Lemma parseFloat_positive_value s :
  decimal_grammar s = true -> hasPlus s = false ->
  (parseFloat_positive s = true <-> (roundingThreshold < decimal_value s)%Q).
Proof.
  intros G P. rewrite (parseFloat_positive_grammar s G P). cbv zeta.
  destruct (numerator_digits s G) as [M N]. cbv zeta in M, N.
  unfold Qlt, roundingThreshold, decimal_value. cbn [Qnum Qden].
  rewrite N, denominator_pow, Pos2Z.inj_pow. unfold frac_digits.
  rewrite <- (afterDot_stripSign s).
  set (k := Z.of_nat (String.length (afterDot (stripSign s)))) in *.
  set (m := digitsValue (beforeDot (stripSign s) ++ afterDot (stripSign s))) in *.
  assert (K : 0 <= k) by (subst k; lia).
  clearbody m k. clear N.
  unfold roundsToPositive. rewrite Z.opp_involutive.
  assert (T : 1 <= 10 ^ k) by (pose proof (Z.pow_pos_nonneg 10 k); lia).
  assert (T0 : k = 0 -> 10 ^ k = 1) by (intros ->; reflexivity).
  assert (B : 1 < Z.pos 2 ^ Z.pos 1075) by (apply Z.pow_gt_1; lia).
  revert B. generalize (Z.pos 2 ^ Z.pos 1075). intros B HB.
  revert T T0. generalize (10 ^ k). intros t T T0.
  pose proof (Z.mul_nonneg_nonneg m B M) as MB.
  destruct (isNegative s); cbn [negb andb].
  - split; [discriminate|]. intros H. exfalso. lia.
  - rewrite andb_true_iff, orb_true_iff, Z.ltb_lt, Z.leb_le, Z.ltb_lt.
    split.
    + intros [Hm [Hk | Hk]]; [|lia].
      assert (k = 0) by lia. rewrite T0 by assumption. nia.
    + intros H. split; [|right; lia].
      destruct (Z.eq_dec m 0) as [->|]; lia.
Qed.

(** A string [parseDecimal] accepts and [parseFloat] finds positive
    denotes a positive number. *)
Lemma accepted_positive s n :
  parseDecimal s = Ok n -> parseFloat_positive s = true -> (0 < decimal_value s)%Q.
Proof.
  intros E F.
  assert (G : decimal_grammar s = true)
    by (apply parseDecimal_not_invalid_grammar; rewrite E; discriminate).
  assert (P : hasPlus s = false).
  { destruct (hasPlus s) eqn:H; [|reflexivity].
    rewrite (parseDecimal_plus _ H) in E. discriminate. }
  apply (parseFloat_positive_value s G P) in F.
  eapply Qlt_trans; [|exact F]. reflexivity.
Qed.

End FloatSign.

(** ** The stamps of the payload *)

Section Stamps.

Context (rt : Runtime).
Local Open Scope list_scope.

Lemma mapThrowing_Forall2 {A B} (f : A -> result Thrown B) l l' :
  mapThrowing f l = Ok l' -> Forall2 (fun a b => f a = Ok b) l l'.
Proof.
  revert l'. induction l as [|a r IH]; intros l'; cbn [mapThrowing].
  - intros H. injection H as <-. constructor.
  - unfold andThen. destruct (f a) as [b|e] eqn:E; [|discriminate].
    destruct (mapThrowing f r) as [bs|e]; [|discriminate].
    intros H. injection H as <-. constructor; [exact E | apply IH; reflexivity].
Qed.

Lemma thrownFault_ok s n : thrownFault rt s = Ok n -> parseDecimal s = Ok n.
Proof.
  unfold thrownFault. destruct (parseDecimal s) as [m|f]; [|discriminate].
  intros H. injection H as <-. reflexivity.
Qed.

Lemma thrownFault_parsed s n : parseDecimal s = Ok n -> thrownFault rt s = Ok n.
Proof. unfold thrownFault. intros ->. reflexivity. Qed.

Lemma stampEntry_ok entry out :
  stampEntry rt entry = Ok out ->
  fst out = fst entry /\ parseDecimal (Stamp.score (snd entry)) = Ok (snd out).
Proof.
  unfold stampEntry, andThen.
  destruct (thrownFault rt (Stamp.score (snd entry))) as [n|e] eqn:E; [|discriminate].
  apply thrownFault_ok in E.
  intros H. injection H as <-. auto.
Qed.

Lemma mapThrowing_nil {A B} (f : A -> result Thrown B) l :
  mapThrowing f l = Ok [] -> l = [].
Proof.
  destruct l as [|a r]; [reflexivity|]. cbn [mapThrowing]. unfold andThen.
  destruct (f a); [|discriminate]. destruct (mapThrowing f r); discriminate.
Qed.

(** The words of a payload. *)
Let words (passing : bool) (decimals scorer score threshold : Z) : string :=
  "0x" ++ AbiCoder.word (if passing then 1 else 0) ++ AbiCoder.word decimals ++
  AbiCoder.word scorer ++ AbiCoder.word score ++ AbiCoder.word threshold ++
  AbiCoder.word 192 ++ AbiCoder.word 0.

Lemma uint_ok bits type value encoded :
  AbiCoder.uint bits type value = Ok encoded ->
  0 <= value < 2 ^ bits /\ encoded = AbiCoder.word value.
Proof.
  unfold AbiCoder.uint.
  destruct (0 <=? value) eqn:Lo; [|discriminate].
  destruct (value <? 2 ^ bits) eqn:Hi; [|discriminate].
  cbn [andb]. intros H. injection H as <-.
  apply Z.leb_le in Lo. apply Z.ltb_lt in Hi. auto.
Qed.

Lemma uint_accepts bits type value :
  0 <= value < 2 ^ bits -> AbiCoder.uint bits type value = Ok (AbiCoder.word value).
Proof.
  intros [Lo Hi]. unfold AbiCoder.uint.
  apply Z.leb_le in Lo. apply Z.ltb_lt in Hi. rewrite Lo, Hi. reflexivity.
Qed.

(** The coder accepts the values exactly when the four numbers fit their
    types and there is no stamp. *)
Lemma encode_ok values encoded :
  AbiCoder.encode values = Ok encoded ->
  0 <= ScoreValues.score_decimals values < 2 ^ 8 /\
  0 <= ScoreValues.scorer_id values < 2 ^ 128 /\
  0 <= ScoreValues.score values < 2 ^ 32 /\
  0 <= ScoreValues.threshold values < 2 ^ 32 /\
  ScoreValues.stamps values = [] /\
  encoded = words (ScoreValues.passing_score values) (ScoreValues.score_decimals values)
              (ScoreValues.scorer_id values) (ScoreValues.score values)
              (ScoreValues.threshold values).
Proof.
  unfold AbiCoder.encode.
  destruct (AbiCoder.uint 8 _ _) as [d|f] eqn:D; [|discriminate].
  destruct (AbiCoder.uint 128 _ _) as [i|f] eqn:I; [|discriminate].
  destruct (AbiCoder.uint 32 _ (ScoreValues.score values)) as [c|f] eqn:C; [|discriminate].
  destruct (AbiCoder.uint 32 _ (ScoreValues.threshold values)) as [t|f] eqn:T; [|discriminate].
  destruct (ScoreValues.stamps values) as [|[provider score] rest]; [|discriminate].
  apply uint_ok in D, I, C, T.
  destruct D as [D ->], I as [I ->], C as [C ->], T as [T ->].
  intros H. injection H as <-. repeat split; try apply D; try apply I; try apply C; apply T.
Qed.

Lemma encode_accepts passing decimals scorer score threshold :
  0 <= decimals < 2 ^ 8 -> 0 <= scorer < 2 ^ 128 ->
  0 <= score < 2 ^ 32 -> 0 <= threshold < 2 ^ 32 ->
  AbiCoder.encode {| ScoreValues.passing_score := passing;
                     ScoreValues.score_decimals := decimals;
                     ScoreValues.scorer_id := scorer;
                     ScoreValues.score := score;
                     ScoreValues.threshold := threshold;
                     ScoreValues.stamps := [] |} =
    Ok (words passing decimals scorer score threshold).
Proof.
  intros D I C T. unfold AbiCoder.encode. cbn [ScoreValues.passing_score
    ScoreValues.score_decimals ScoreValues.scorer_id ScoreValues.score
    ScoreValues.threshold ScoreValues.stamps].
  rewrite (uint_accepts 8 _ _ D), (uint_accepts 128 _ _ I),
    (uint_accepts 32 _ _ C), (uint_accepts 32 _ _ T).
  reflexivity.
Qed.

(** The request [createAttestationData] returns, and what it takes for it
    to return one. *)
Lemma createAttestationData_inv address scoreData scorerId req :
  createAttestationData rt address scoreData scorerId = Ok req ->
  exists ms stamps id score threshold,
    Date_getTime rt (V2ScoreResponseData.expiration_timestamp scoreData) = Some ms /\
    mapThrowing (stampEntry rt) (filter stampCounts (V2ScoreResponseData.stamps scoreData))
      = Ok stamps /\
    BigInt_string rt scorerId = Some id /\
    parseDecimal (V2ScoreResponseData.score scoreData) = Ok score /\
    parseDecimal (V2ScoreResponseData.threshold scoreData) = Ok threshold /\
    AbiCoder.encode
      {| ScoreValues.passing_score := V2ScoreResponseData.passing_score scoreData;
         ScoreValues.score_decimals := Z.of_nat SCORE_DECIMALS;
         ScoreValues.scorer_id := id;
         ScoreValues.score := score;
         ScoreValues.threshold := threshold;
         ScoreValues.stamps := stamps |} = Ok (AttestationRequestData.data req) /\
    req = {| AttestationRequestData.recipient := address;
             AttestationRequestData.expirationTime := ms / 1000;
             AttestationRequestData.revocable := true;
             AttestationRequestData.refUID := ZERO_BYTES32;
             AttestationRequestData.data := AttestationRequestData.data req;
             AttestationRequestData.value := 0 |}.
Proof.
  unfold createAttestationData, andThen, encodeScoreData.
  destruct (Date_getTime rt _) as [ms|]; [|discriminate].
  destruct (mapThrowing _ _) as [stamps|e]; [|discriminate].
  destruct (BigInt_string rt scorerId) as [id|]; [|discriminate].
  destruct (thrownFault rt (V2ScoreResponseData.score scoreData))
    as [score|e] eqn:S; [|discriminate].
  destruct (thrownFault rt (V2ScoreResponseData.threshold scoreData))
    as [threshold|e] eqn:T; [|discriminate].
  destruct (AbiCoder.encode _) as [encoded|f] eqn:E; [|discriminate].
  intros H. injection H as <-. cbn [AttestationRequestData.data].
  exists ms, stamps, id, score, threshold.
  apply thrownFault_ok in S, T. repeat split; assumption.
Qed.

(** A payload exists only when no stamp passes the filter: the coder
    refuses the first stamp it is given. *)
Lemma createAttestationData_no_stamp address scoreData scorerId req :
  createAttestationData rt address scoreData scorerId = Ok req ->
  filter stampCounts (V2ScoreResponseData.stamps scoreData) = [].
Proof.
  intros H.
  destruct (createAttestationData_inv _ _ _ _ H) as (ms & stamps & id & c & t & _ & M & _ & _ & _ & E & _).
  apply encode_ok in E. destruct E as (_ & _ & _ & _ & E & _).
  cbn [ScoreValues.stamps] in E. subst stamps.
  exact (mapThrowing_nil _ _ M).
Qed.

Lemma keys_unique {V} (l : list (string * V)) k v v' :
  NoDup (map fst l) -> In (k, v) l -> In (k, v') l -> v = v'.
Proof.
  induction l as [|[k0 v0] l IH]; cbn [map fst In]; [contradiction|].
  intros N [E1|I1] [E2|I2]; inversion N as [|? ? Hn Hd]; subst.
  - congruence.
  - injection E1 as -> ->. exfalso. apply Hn. apply (in_map fst _ _ I2).
  - injection E2 as -> ->. exfalso. apply Hn. apply (in_map fst _ _ I1).
  - apply IH; assumption.
Qed.

Lemma Forall2_keys {A} (R : string * A -> string * Z -> Prop) l l' :
  Forall2 R l l' -> (forall a b, R a b -> fst b = fst a) -> map fst l' = map fst l.
Proof.
  intros F H. induction F as [|a b l l' Hab _ IH]; [reflexivity|].
  cbn [map]. rewrite (H _ _ Hab), IH. reflexivity.
Qed.

End Stamps.

(** C3, on the code.  The github contribution of the scenario of the
    specification (score 5.6789, not deduplicated) passes the filter of
    [createAttestationData], and is handed to the ABI coder as an object with
    a [provider] and a [score]; the coder refuses it, so there is no payload:
    [createAttestationData] throws, and the run records the address as failed
    after its request to the score service, without a submission.  For every
    score record, a payload is produced only when no contribution passes the
    filter. *)
Theorem createAttestationData_refuses_stamps :
  filter stampCounts (V2ScoreResponseData.stamps (Scenario.stamped Scenario.addressE)) =
    [Scenario.github] /\
  createAttestationData Scenario.runtime Scenario.addressE
    (Scenario.stamped Scenario.addressE) Scenario.scorerId =
    Throw (JsError (abi_message Scenario.runtime (AbiCoder.MissingNames "github" 56789))) /\
  (let run := processAddresses Scenario.runtime [Scenario.addressE]
                Scenario.scorerId Scenario.start in
   fst run =
     Ok [zeroOutcome Scenario.addressE
           (Some (abi_message Scenario.runtime (AbiCoder.MissingNames "github" 56789)))] /\
   map kind (trace (snd run)) = [Get]) /\
  (forall (rt : Runtime) (address : string) (scoreData : V2ScoreResponseData.t)
          (scorerId : string) (req : AttestationRequestData.t),
     createAttestationData rt address scoreData scorerId = Ok req ->
     filter stampCounts (V2ScoreResponseData.stamps scoreData) = []).
Proof.
  split; [vm_compute; reflexivity|].
  split; [vm_compute; reflexivity|].
  split; [split; vm_compute; reflexivity|].
  intros rt address scoreData scorerId req H.
  exact (createAttestationData_no_stamp rt _ _ _ _ H).
Qed.

(** * Further properties of the attestation script *)

(** ** [parseDecimal] on every string *)

Section Everywhere.
Import Js DecimalSpec.

Lemma take_all n s : (String.length s <= n)%nat -> take n s = s.
Proof.
  revert s. induction n as [|n IH]; intros [|c r]; simpl; auto; try lia.
  intros H. rewrite IH; [reflexivity | lia].
Qed.

Lemma take_skip n s : take n s ++ skip n s = s.
Proof.
  revert s. induction n as [|n IH]; intros [|c r]; simpl; auto.
  rewrite IH. reflexivity.
Qed.

Lemma length_skip n s : String.length (skip n s) = (String.length s - n)%nat.
Proof.
  revert s. induction n as [|n IH]; intros [|c r]; simpl; auto.
Qed.

Lemma allDigits_skip n s : allDigits s = true -> allDigits (skip n s) = true.
Proof.
  revert s. induction n as [|n IH]; intros [|c r]; simpl; auto.
  intros H. apply andb_true_iff in H. apply IH, H.
Qed.

Lemma truncateFrac_short n s :
  (String.length (afterDot s) <= n)%nat -> truncateFrac n s = s.
Proof.
  induction s as [|c r IH]; [reflexivity|].
  cbn [afterDot truncateFrac]. destruct (isDot c); intros H.
  - rewrite take_all by assumption. reflexivity.
  - rewrite IH by assumption. reflexivity.
Qed.

Lemma stripSign_truncateFrac n s :
  stripSign (truncateFrac n s) = truncateFrac n (stripSign s).
Proof.
  destruct s as [|c r]; [reflexivity|].
  cbn [truncateFrac]. destruct (isDot c) eqn:D; unfold stripSign.
  - destruct (isSign c) eqn:S; [|cbn [truncateFrac]; rewrite D; reflexivity].
    rewrite (isSign_not_dot _ S) in D. discriminate.
  - destruct (isSign c) eqn:S; [reflexivity|].
    cbn [truncateFrac]. rewrite D. reflexivity.
Qed.

Lemma head_truncateFrac n c r : exists r', truncateFrac n (String c r) = String c r'.
Proof.
  cbn [truncateFrac]. destruct (isDot c); eexists; reflexivity.
Qed.

Lemma hasPlus_truncateFrac n s : hasPlus (truncateFrac n s) = hasPlus s.
Proof.
  destruct s as [|c r]; [reflexivity|].
  destruct (head_truncateFrac n c r) as [r' ->]. reflexivity.
Qed.

Lemma isNegative_truncateFrac n s : isNegative (truncateFrac n s) = isNegative s.
Proof.
  destruct s as [|c r]; [reflexivity|].
  destruct (head_truncateFrac n c r) as [r' ->]. reflexivity.
Qed.

Lemma beforeDot_truncateFrac n s : beforeDot (truncateFrac n s) = beforeDot s.
Proof.
  induction s as [|c r IH]; [reflexivity|].
  cbn [truncateFrac beforeDot]. destruct (isDot c) eqn:D; cbn [beforeDot]; rewrite D.
  - reflexivity.
  - rewrite IH. reflexivity.
Qed.

Lemma body_take k u :
  onlyDigitsAndDots u = true ->
  onlyDigitsAndDots (take k u) = true /\ (countDots (take k u) <= countDots u)%nat.
Proof.
  revert u. induction k as [|k IH]; intros [|x u]; cbn [take onlyDigitsAndDots countDots];
    auto; try (intros; split; [reflexivity | lia]).
  intros H. apply andb_true_iff in H. destruct H as [Hx Hu].
  destruct (IH _ Hu) as [E L]. rewrite Hx, E. split; [reflexivity | lia].
Qed.

Lemma body_truncateFrac b :
  onlyDigitsAndDots b = true -> (countDots b <= 1)%nat -> (1 <= countDigits b)%nat ->
  onlyDigitsAndDots (truncateFrac 4 b) = true /\
  (countDots (truncateFrac 4 b) <= 1)%nat /\
  (1 <= countDigits (truncateFrac 4 b))%nat.
Proof.
  induction b as [|c r IH]; [simpl; lia|].
  cbn [onlyDigitsAndDots countDots countDigits truncateFrac]. intros H D N.
  apply andb_true_iff in H. destruct H as [Hc Hr].
  destruct (isDot c) eqn:E.
  - assert (A : allDigits r = true) by (apply no_dots_allDigits; [assumption | lia]).
    pose proof (allDigits_take 4 _ A) as A4.
    cbn [onlyDigitsAndDots countDots countDigits]. rewrite E, Hc.
    rewrite (isDot_not_digit _ E) in *.
    rewrite (allDigits_no_dots _ A4), (allDigits_countDigits _ A4).
    rewrite (allDigits_countDigits _ A) in N.
    split; [|split; [lia|]].
    + clear -A4. induction (take 4 r) as [|a t IHt]; [reflexivity|].
      cbn [allDigits onlyDigitsAndDots] in *. apply andb_true_iff in A4.
      destruct A4 as [-> A]. cbn [orb andb]. apply IHt, A.
    + destruct r as [|a t]; [simpl in N; lia | simpl; lia].
  - rewrite orb_false_r in Hc. rewrite Hc in *.
    cbn [onlyDigitsAndDots countDots countDigits]. rewrite E, Hc. cbn [orb andb].
    assert (K : onlyDigitsAndDots (truncateFrac 4 r) = true /\
                (countDots (truncateFrac 4 r) <= countDots r)%nat).
    { clear -Hr. induction r as [|a t IHt]; [simpl; auto|].
      cbn [onlyDigitsAndDots countDots truncateFrac] in *.
      apply andb_true_iff in Hr. destruct Hr as [Ha Ht].
      destruct (isDot a) eqn:Ea; cbn [onlyDigitsAndDots countDots]; rewrite Ea, Ha; cbn [andb].
      - destruct (body_take 4 _ Ht) as [-> L]. split; [reflexivity | lia].
      - destruct (IHt Ht) as [-> L]. split; [reflexivity | lia]. }
    destruct K as [-> L]. split; [reflexivity|]. split; lia.
Qed.

Lemma grammar_truncateFrac s :
  decimal_grammar s = true -> decimal_grammar (truncateFrac 4 s) = true.
Proof.
  intros G. destruct (grammar_parts _ G) as (H1 & H2 & H3).
  unfold decimal_grammar. rewrite stripSign_truncateFrac.
  destruct (body_truncateFrac _ H1 H2 H3) as (-> & K2 & K3).
  apply Nat.leb_le in K2, K3. rewrite K2, K3. reflexivity.
Qed.

Lemma frac_digits_truncateFrac s : (frac_digits (truncateFrac 4 s) <= 4)%nat.
Proof.
  unfold frac_digits. rewrite afterDot_truncateFrac. apply length_take_le.
Qed.

Lemma parseDecimal_truncateFrac s :
  decimal_grammar s = true -> parseDecimal s = parseDecimal (truncateFrac 4 s).
Proof.
  intros G. destruct (le_lt_dec (String.length (afterDot s)) 4) as [L|L].
  - rewrite truncateFrac_short by assumption. reflexivity.
  - pose proof (grammar_afterDot_allDigits _ G) as A.
    unfold parseDecimal.
    rewrite (replaceExcess_excess _ A L), (replaceExcess_truncateFrac _ A). reflexivity.
Qed.

(** The result of [parseDecimal] on every string of the grammar without a
    plus sign: the scaled numerator of the string cut to four fractional
    digits, when it is in range. *)
Lemma parseDecimal_general s :
  decimal_grammar s = true -> hasPlus s = false ->
  let t := truncateFrac 4 s in
  let n := decimal_numerator t * 10 ^ (4 - Z.of_nat (frac_digits t)) in
  parseDecimal s =
    if (- 2 ^ 511 <=? n) && (n <? 2 ^ 511) then Ok n else Throw Ethers.Overflow.
Proof.
  intros G P t n. rewrite (parseDecimal_truncateFrac s G). fold t.
  apply parseDecimal_short.
  - apply grammar_truncateFrac, G.
  - subst t. rewrite hasPlus_truncateFrac. exact P.
  - apply frac_digits_truncateFrac.
Qed.

Lemma scaled_in_range s :
  (frac_digits s <= 4)%nat ->
  let n := decimal_numerator s * 10 ^ (4 - Z.of_nat (frac_digits s)) in
  - 2 ^ 511 <= n < 2 ^ 511 -> in_range s.
Proof.
  intros L n B.
  pose proof (scaled_times_denominator s L) as S. fold n in S.
  unfold in_range, Qle, Qlt, decimal_value, Qmult, inject_Z.
  cbn [Qnum Qden]. rewrite Pos2Z.inj_mul.
  assert (D : 0 < Z.pos (decimal_denominator s)) by lia.
  revert B S. generalize (Z.pos (decimal_denominator s)) (decimal_numerator s) D.
  generalize (2 ^ 511). clear. intros B d m D [Lo Hi] S. nia.
Qed.

Lemma digitValue_le_9 c : isDigit c = true -> digitValue c <= 9.
Proof.
  unfold isDigit, digitValue. intros H. apply andb_true_iff in H.
  destruct H as [_ H]. apply Nat.leb_le in H. lia.
Qed.

Lemma digitsValue_bound s :
  allDigits s = true -> 0 <= digitsValue s < 10 ^ Z.of_nat (String.length s).
Proof.
  unfold digitsValue. intros A.
  assert (G : forall acc, 0 <= acc ->
            acc * 10 ^ Z.of_nat (String.length s) <= digitsValueFrom acc s
            < (acc + 1) * 10 ^ Z.of_nat (String.length s)).
  { induction s as [|c r IH]; intros acc N.
    - simpl. lia.
    - cbn [allDigits] in A. apply andb_true_iff in A. destruct A as [Hc Hr].
      pose proof (digitValue_nonneg _ Hc). pose proof (digitValue_le_9 _ Hc).
      cbn [digitsValueFrom String.length]. rewrite Nat2Z.inj_succ, Z.pow_succ_r by lia.
      specialize (IH Hr (10 * acc + digitValue c) ltac:(lia)).
      assert (0 < 10 ^ Z.of_nat (String.length r)) by (apply Z.pow_pos_nonneg; lia).
      nia. }
  specialize (G 0 (Z.le_refl 0)). lia.
Qed.

End Everywhere.

Section TowardZero.
Import Js DecimalSpec.

Lemma quot_cut M D r :
  0 <= M -> 0 <= r < D ->
  Z.quot (M * D + r) D = M /\ Z.quot (- (M * D + r)) D = - M.
Proof.
  intros HM Hr.
  assert (E : Z.quot (M * D + r) D = M).
  { rewrite Z.quot_div_nonneg by nia. symmetry. apply Z.div_unique with r; lia. }
  split; [exact E|]. rewrite Z.quot_opp_l by lia. rewrite E. reflexivity.
Qed.

(** The numerator of a string against the numerator of the string cut to
    four fractional digits. *)
Lemma numerator_cut s :
  decimal_grammar s = true -> (4 < frac_digits s)%nat ->
  exists M r,
    0 <= M /\ 0 <= r < 10 ^ Z.of_nat (frac_digits s) /\
    decimal_numerator (truncateFrac 4 s) = (if isNegative s then - M else M) /\
    decimal_numerator s * 10000 =
      (if isNegative s then - (M * 10 ^ Z.of_nat (frac_digits s) + r)
       else M * 10 ^ Z.of_nat (frac_digits s) + r).
Proof.
  intros G L. destruct (grammar_parts _ G) as (H1 & H2 & _).
  pose proof (body_afterDot_allDigits _ H1 H2) as A.
  pose proof (allDigits_beforeDot _ H1) as B.
  unfold frac_digits in *. rewrite <- (afterDot_stripSign s) in *.
  unfold decimal_numerator.
  rewrite isNegative_truncateFrac, stripSign_truncateFrac,
    beforeDot_truncateFrac, afterDot_truncateFrac.
  set (b := stripSign s) in *. set (f := afterDot b) in *.
  set (W := digitsValue (beforeDot b)).
  assert (HW : 0 <= W) by (apply digitsValue_bound, B).
  rewrite (length_take 4 f) by lia.
  pose proof (digitsValue_bound _ (allDigits_take 4 _ A)) as [F0 _].
  pose proof (digitsValue_bound _ (allDigits_skip 4 _ A)) as [R0 R1].
  assert (EF : digitsValue f =
               digitsValue (take 4 f) * 10 ^ Z.of_nat (String.length (skip 4 f)) +
               digitsValue (skip 4 f))
    by (rewrite <- digitsValue_app, take_skip; reflexivity).
  rewrite length_skip in *.
  set (F4 := digitsValue (take 4 f)) in *. set (R := digitsValue (skip 4 f)) in *.
  set (k := String.length f) in *.
  assert (EK : 10 ^ Z.of_nat k = 10 ^ Z.of_nat (k - 4) * 10000).
  { replace (Z.of_nat k) with (Z.of_nat (k - 4) + 4) by lia.
    rewrite Z.pow_add_r by lia. reflexivity. }
  change (10 ^ Z.of_nat 4) with 10000.
  exists (W * 10000 + F4), (R * 10000).
  split; [lia|]. split; [rewrite EK; lia|].
  split; [reflexivity|].
  rewrite EF, EK. destruct (isNegative s); ring.
Qed.

End TowardZero.

(** C4. A decimal string with more than four fractional digits is parsed as
    the same string with the digits after the fourth one discarded.  When
    the string is accepted (no plus sign, the cut value in the range of
    [parseUnits]), the integer returned is exactly the value of the cut
    string scaled by 10^4, which is the value of the whole string scaled by
    10^4 and rounded toward zero: the digits are cut, not rounded.  So
    "2.12345" gives the result of "2.1234", 21234, and so does "2.12349",
    which rounding would take to 21235. *)
Theorem parseDecimal_truncates :
  (forall s, DecimalSpec.decimal_grammar s = true ->
             (4 < DecimalSpec.frac_digits s)%nat ->
             DecimalSpec.frac_digits (DecimalSpec.truncateFrac 4 s) = 4%nat /\
             parseDecimal s = parseDecimal (DecimalSpec.truncateFrac 4 s) /\
             (DecimalSpec.hasPlus s = false ->
              DecimalSpec.in_range (DecimalSpec.truncateFrac 4 s) ->
              exists n : Z,
                parseDecimal s = Ok n /\
                (Qmake n 10000 ==
                 DecimalSpec.decimal_value (DecimalSpec.truncateFrac 4 s))%Q /\
                n = Z.quot (DecimalSpec.decimal_numerator s * 10000)
                           (Z.pos (DecimalSpec.decimal_denominator s)))) /\
  parseDecimal "2.12345" = parseDecimal "2.1234" /\
  parseDecimal "2.12345" = Ok 21234 /\
  parseDecimal "2.12349" = Ok 21234 /\
  parseDecimal "-2.12349" = Ok (-21234).
Proof.
  split; [|repeat split; reflexivity].
  intros s G L.
  assert (K : DecimalSpec.frac_digits (DecimalSpec.truncateFrac 4 s) = 4%nat).
  { unfold DecimalSpec.frac_digits in *. rewrite afterDot_truncateFrac.
    apply length_take. lia. }
  split; [exact K|]. split; [exact (parseDecimal_truncateFrac s G)|].
  intros P R.
  pose proof (in_range_scaled _ (frac_digits_truncateFrac s) R) as B. cbv zeta in B.
  destruct B as [Lo Hi].
  exists (DecimalSpec.decimal_numerator (DecimalSpec.truncateFrac 4 s) *
          10 ^ (4 - Z.of_nat (DecimalSpec.frac_digits (DecimalSpec.truncateFrac 4 s)))).
  split.
  { rewrite (parseDecimal_general s G P). cbv zeta.
    apply Z.leb_le in Lo. apply Z.ltb_lt in Hi. rewrite Lo, Hi. reflexivity. }
  split.
  { unfold Qeq, DecimalSpec.decimal_value. cbn [Qnum Qden].
    apply scaled_times_denominator, frac_digits_truncateFrac. }
  destruct (numerator_cut s G L) as (M & r & HM & Hr & E1 & E2).
  rewrite E1, E2, denominator_pow, K.
  change (10 ^ (4 - Z.of_nat 4)) with 1. rewrite Z.mul_1_r.
  destruct (quot_cut M _ r HM Hr) as [Q1 Q2].
  destruct (DecimalSpec.isNegative s); [rewrite Q2 | rewrite Q1]; reflexivity.
Qed.

Lemma parseDecimal_truncates_witness :
  DecimalSpec.truncateFrac 4 "-0.99999" = "-0.9999" /\
  parseDecimal "-0.99999" = parseDecimal "-0.9999" /\
  exists n : Z,
    parseDecimal "-0.99999" = Ok n /\
    (Qmake n 10000 == DecimalSpec.decimal_value "-0.9999")%Q.
Proof.
  split; [reflexivity|].
  destruct (proj1 parseDecimal_truncates "-0.99999") as (_ & E & V);
    [reflexivity | vm_compute; lia |].
  split; [exact E|].
  destruct V as (n & N & Q & _).
  - reflexivity.
  - split; vm_compute; [discriminate | reflexivity].
  - exists n. split; [exact N | exact Q].
Defined.

(** [parseDecimal] accepts exactly the strings of the decimal grammar that
    have no plus sign and whose value, cut to four fractional digits and
    scaled by 10^4, lies in the signed 512-bit range. *)
Theorem parseDecimal_accepts_iff (s : string) :
  (exists n, parseDecimal s = Ok n) <->
  (DecimalSpec.decimal_grammar s = true /\ DecimalSpec.hasPlus s = false /\
   DecimalSpec.in_range (DecimalSpec.truncateFrac 4 s)).
Proof.
  split.
  - intros [n E].
    assert (G : DecimalSpec.decimal_grammar s = true)
      by (apply parseDecimal_not_invalid_grammar; rewrite E; discriminate).
    assert (P : DecimalSpec.hasPlus s = false).
    { destruct (DecimalSpec.hasPlus s) eqn:H; [|reflexivity].
      rewrite (parseDecimal_plus _ H) in E. discriminate. }
    split; [exact G|]. split; [exact P|].
    rewrite (parseDecimal_general s G P) in E. cbv zeta in E.
    apply scaled_in_range; [apply frac_digits_truncateFrac|]. cbv zeta.
    destruct (- 2 ^ 511 <=? _) eqn:Lo; [|discriminate E].
    destruct (_ <? 2 ^ 511) eqn:Hi; [|discriminate E].
    apply Z.leb_le in Lo. apply Z.ltb_lt in Hi. split; assumption.
  - intros (G & P & R).
    rewrite (parseDecimal_general s G P). cbv zeta.
    pose proof (in_range_scaled _ (frac_digits_truncateFrac s) R) as [Lo Hi].
    apply Z.leb_le in Lo. apply Z.ltb_lt in Hi. rewrite Lo, Hi.
    eexists. reflexivity.
Qed.

(** [parseDecimal] never fails with the too-many-decimals fault of
    [parseUnits]: the replacement has removed the digits that would cause
    it.  The only failures are the invalid-string error and the overflow. *)
Theorem parseDecimal_never_too_many_decimals (s : string) :
  parseDecimal s <> Throw Ethers.TooManyDecimals.
Proof.
  destruct (DecimalSpec.decimal_grammar s) eqn:G.
  - destruct (DecimalSpec.hasPlus s) eqn:P.
    + rewrite (parseDecimal_plus _ P). discriminate.
    + rewrite (parseDecimal_general s G P). cbv zeta.
      destruct (_ && _); discriminate.
  - intros E.
    assert (H : parseDecimal s <> Throw Ethers.InvalidFixedNumberString)
      by (rewrite E; discriminate).
    apply parseDecimal_not_invalid_grammar in H. congruence.
Qed.

(** The integer [parseDecimal] returns is the value of the string scaled by
    10^4 and rounded toward zero: the quotient, truncated, of numerator times
    10^4 by the denominator. *)
Theorem parseDecimal_rounds_toward_zero (s : string) (n : Z) :
  parseDecimal s = Ok n ->
  n = Z.quot (DecimalSpec.decimal_numerator s * 10000)
             (Z.pos (DecimalSpec.decimal_denominator s)).
Proof.
  intros E.
  assert (G : DecimalSpec.decimal_grammar s = true)
    by (apply parseDecimal_not_invalid_grammar; rewrite E; discriminate).
  assert (P : DecimalSpec.hasPlus s = false).
  { destruct (DecimalSpec.hasPlus s) eqn:H; [|reflexivity].
    rewrite (parseDecimal_plus _ H) in E. discriminate. }
  rewrite (parseDecimal_general s G P) in E. cbv zeta in E.
  destruct (_ && _); [|discriminate E]. injection E as <-.
  destruct (le_lt_dec (DecimalSpec.frac_digits s) 4) as [L|L].
  - rewrite truncateFrac_short by exact L.
    rewrite <- (scaled_times_denominator s L).
    rewrite Z.quot_mul by lia. reflexivity.
  - destruct (numerator_cut s G L) as (M & r & HM & Hr & E1 & E2).
    rewrite E1, E2, denominator_pow.
    assert (K : DecimalSpec.frac_digits (DecimalSpec.truncateFrac 4 s) = 4%nat).
    { unfold DecimalSpec.frac_digits in *. rewrite afterDot_truncateFrac.
      apply length_take. lia. }
    rewrite K. change (10 ^ (4 - Z.of_nat 4)) with 1. rewrite Z.mul_1_r.
    destruct (quot_cut M _ r HM Hr) as [Q1 Q2].
    destruct (DecimalSpec.isNegative s); [rewrite Q2 | rewrite Q1]; reflexivity.
Qed.

Lemma parseDecimal_rounds_toward_zero_witness :
  -21234 = Z.quot (DecimalSpec.decimal_numerator "-2.12349" * 10000)
                  (Z.pos (DecimalSpec.decimal_denominator "-2.12349")).
Proof.
  apply (parseDecimal_rounds_toward_zero "-2.12349" (-21234)). reflexivity.
Defined.

(** ** The attestation request *)

(** [createAttestationData] returns a request exactly when the expiration
    timestamp is a date, no stamp passes the filter, the scorer id is an
    integer that fits 128 bits, and the score and the threshold are decimals
    [parseDecimal] scales to integers that fit 32 bits (from 0 to
    429496.7295).  The request is then for the address it was given,
    revocable, without reference and without value; it expires at the whole
    second of the timestamp; and its data are seven words: the passing flag,
    4, the scorer id, the scaled score, the scaled threshold, the offset 192
    of the stamps and their number, 0.  In every other case it throws. *)
Theorem createAttestationData_request
    (rt : Runtime) (address : string) (scoreData : V2ScoreResponseData.t)
    (scorerId : string) (req : AttestationRequestData.t) :
  createAttestationData rt address scoreData scorerId = Ok req <->
  exists ms id score threshold,
    Date_getTime rt (V2ScoreResponseData.expiration_timestamp scoreData) = Some ms /\
    filter stampCounts (V2ScoreResponseData.stamps scoreData) = [] /\
    BigInt_string rt scorerId = Some id /\ 0 <= id < 2 ^ 128 /\
    parseDecimal (V2ScoreResponseData.score scoreData) = Ok score /\
    0 <= score < 2 ^ 32 /\
    parseDecimal (V2ScoreResponseData.threshold scoreData) = Ok threshold /\
    0 <= threshold < 2 ^ 32 /\
    req = {| AttestationRequestData.recipient := address;
             AttestationRequestData.expirationTime := ms / 1000;
             AttestationRequestData.revocable := true;
             AttestationRequestData.refUID := ZERO_BYTES32;
             AttestationRequestData.data :=
               "0x" ++
               AbiCoder.word (if V2ScoreResponseData.passing_score scoreData then 1 else 0) ++
               AbiCoder.word 4 ++ AbiCoder.word id ++ AbiCoder.word score ++
               AbiCoder.word threshold ++ AbiCoder.word 192 ++ AbiCoder.word 0;
             AttestationRequestData.value := 0 |}.
Proof.
  split.
  - intros H. pose proof (createAttestationData_no_stamp rt _ _ _ _ H) as N.
    destruct (createAttestationData_inv rt _ _ _ _ H)
      as (ms & stamps & id & c & t & D & M & B & C & T & E & R).
    apply encode_ok in E.
    cbn [ScoreValues.passing_score ScoreValues.score_decimals ScoreValues.scorer_id
         ScoreValues.score ScoreValues.threshold ScoreValues.stamps] in E.
    destruct E as (_ & Ri & Rc & Rt & _ & E).
    exists ms, id, c, t.
    split; [exact D|]. split; [exact N|]. split; [exact B|]. split; [exact Ri|].
    split; [exact C|]. split; [exact Rc|]. split; [exact T|]. split; [exact Rt|].
    rewrite R, E. reflexivity.
  - intros (ms & id & c & t & D & N & B & Ri & C & Rc & T & Rt & ->).
    unfold createAttestationData, andThen, encodeScoreData.
    rewrite D, N. cbn [mapThrowing]. rewrite B.
    rewrite (thrownFault_parsed rt _ _ C), (thrownFault_parsed rt _ _ T).
    rewrite (encode_accepts _ (Z.of_nat SCORE_DECIMALS) id c t); try assumption;
      [reflexivity | cbn; lia].
Qed.

Lemma Forall2_In_left {A B} (R : A -> B -> Prop) l l' a :
  Forall2 R l l' -> In a l -> exists b, R a b.
Proof.
  intros F. induction F as [|x y l l' Hxy _ IH]; [contradiction|].
  intros [<-|I]; [exists y; exact Hxy | apply IH, I].
Qed.

(** A stamp that passes the filter must have a score [parseDecimal]
    accepts, or no request is built at all: a score that [parseFloat] reads
    as positive but that is not a plain decimal (an exponent, a plus sign,
    white space, text after the number) makes the attestation of the
    whole address fail. *)
Theorem createAttestationData_counted_stamp_must_parse
    (rt : Runtime) (address : string) (scoreData : V2ScoreResponseData.t)
    (scorerId : string) (provider : string) (stamp : Stamp.t) (fault : Ethers.Fault) :
  In (provider, stamp) (V2ScoreResponseData.stamps scoreData) ->
  JsFloat.parseFloat_positive (Stamp.score stamp) = true ->
  Stamp.dedup stamp = false ->
  parseDecimal (Stamp.score stamp) = Throw fault ->
  exists e, createAttestationData rt address scoreData scorerId = Throw e.
Proof.
  intros I F D P.
  destruct (createAttestationData rt address scoreData scorerId) as [req|e] eqn:E;
    [|exists e; reflexivity].
  exfalso.
  destruct (createAttestationData_inv rt _ _ _ _ E) as (ms & stamps & id & c & t & _ & M & _).
  apply mapThrowing_Forall2 in M.
  assert (K : In (provider, stamp)
                (filter stampCounts (V2ScoreResponseData.stamps scoreData))).
  { apply filter_In. split; [exact I|]. unfold stampCounts. cbn. rewrite F, D. reflexivity. }
  destruct (Forall2_In_left _ _ _ _ M K) as [out Hout].
  apply stampEntry_ok in Hout. cbn in Hout. destruct Hout as [_ Hout]. congruence.
Qed.

Lemma createAttestationData_counted_stamp_must_parse_witness :
  exists e,
    createAttestationData Scenario.runtime Scenario.addressA
      {| V2ScoreResponseData.address := Scenario.addressA;
         V2ScoreResponseData.score := "1.5";
         V2ScoreResponseData.threshold := "20";
         V2ScoreResponseData.passing_score := false;
         V2ScoreResponseData.last_score_timestamp := Scenario.lastScored;
         V2ScoreResponseData.expiration_timestamp := Scenario.expiration;
         V2ScoreResponseData.error := None;
         V2ScoreResponseData.stamps :=
           [("github", {| Stamp.score := "1e-3"; Stamp.dedup := false;
                          Stamp.expiration_date := None |})] |}
      Scenario.scorerId = Throw e.
Proof.
  refine (createAttestationData_counted_stamp_must_parse Scenario.runtime _ _ _
            "github" {| Stamp.score := "1e-3"; Stamp.dedup := false;
                        Stamp.expiration_date := None |}
            Ethers.InvalidFixedNumberString _ _ _ _).
  - left. reflexivity.
  - vm_compute. reflexivity.
  - reflexivity.
  - reflexivity.
Defined.

(** ** One submission, one request *)

(** [writeScoreOnchain] returns a transaction hash only in one way: the
    request was built, the contract accepted its one submission (a single
    request under the schema id, with that single attestation), the wait for
    the transaction the contract returned has succeeded, and the hash is the
    hash of that transaction.  It throws in three ways, always with the very
    error that was thrown to it: the request could not be built, and no call
    was made; the submission was refused, and there was no wait; or the wait
    failed.  In every case there is at most one submission and one wait. *)
Theorem writeScoreOnchain_calls
    (rt : Runtime) (address : string) (scoreData : V2ScoreResponseData.t)
    (scorerId : string) (st : State rt) :
  let run := writeScoreOnchain rt address scoreData scorerId st in
  let request d := [ {| MultiAttestationRequest.schema := SCHEMA_UID rt;
                        MultiAttestationRequest.data := [d] |} ] in
  (forall txHash,
     fst run = Ok txHash ->
     exists d tx w w',
       createAttestationData rt address scoreData scorerId = Ok d /\
       submitAttestations rt (request d) (world st) = (Ok tx, w) /\
       tx_wait rt tx w = (Ok tt, w') /\
       txHash = hash tx /\
       snd run = {| world := w';
                    trace := (trace st ++ [EvSubmit (request d); EvWait tx])%list;
                    results := results st |}) /\
  (forall e,
     fst run = Throw e ->
     (createAttestationData rt address scoreData scorerId = Throw e /\ snd run = st) \/
     (exists d w,
        createAttestationData rt address scoreData scorerId = Ok d /\
        submitAttestations rt (request d) (world st) = (Throw e, w) /\
        snd run = {| world := w;
                     trace := (trace st ++ [EvSubmit (request d)])%list;
                     results := results st |}) \/
     (exists d tx w w',
        createAttestationData rt address scoreData scorerId = Ok d /\
        submitAttestations rt (request d) (world st) = (Ok tx, w) /\
        tx_wait rt tx w = (Throw e, w') /\
        snd run = {| world := w';
                     trace := (trace st ++ [EvSubmit (request d); EvWait tx])%list;
                     results := results st |})).
Proof.
  cbv zeta.
  unfold writeScoreOnchain, try_catch, bind, lift, contract_submitAttestations, wait, ret,
    throw, logged, multiAttestationRequest.
  destruct (createAttestationData rt address scoreData scorerId) as [d|e0].
  2:{ cbn [fst snd]. split; [intros ? [=]|]. intros e [= <-]. left. split; reflexivity. }
  destruct (submitAttestations rt _ (world st)) as [[tx|e0] w1] eqn:S;
    cbn [world trace results].
  2:{ cbn [fst snd]. split; [intros ? [=]|]. intros e [= <-]. right. left.
      exists d, w1. repeat split. exact S. }
  destruct (tx_wait rt tx w1) as [[[]|e0] w2] eqn:W; cbn [world trace results fst snd].
  - split; [|intros ? [=]]. intros txHash [= <-].
    exists d, tx, w1, w2. rewrite <- app_assoc. repeat split; assumption.
  - split; [intros ? [=]|]. intros e [= <-]. right. right.
    exists d, tx, w1, w2. rewrite <- app_assoc. repeat split; assumption.
Qed.

(** ** The calls of a whole run *)

Section Calls.

Context (rt : Runtime).
Local Open Scope list_scope.

Lemma countKind_app k a b : countKind k (a ++ b) = (countKind k a + countKind k b)%nat.
Proof.
  unfold countKind. rewrite filter_app, length_app. reflexivity.
Qed.

Let pauseOf1000 (e : Event) : Prop := kind e = Timeout -> e = EvTimeout 1000.

(** One iteration: its outcome and its calls depend on the world only, and
    the calls after the request to the service are at most one submission,
    one wait and one pause, the pause exactly when a hash is recorded. *)
Lemma processAddress_calls scorerId a (st1 st2 : State rt) :
  world st1 = world st2 ->
  exists o w evs,
    processAddress rt scorerId a st1 =
      (Ok tt, {| world := w;
                 trace := trace st1 ++ EvGet (getScoreUrl rt a scorerId) (SCORER_API_KEY rt) :: evs;
                 results := results st1 ++ [o] |}) /\
    processAddress rt scorerId a st2 =
      (Ok tt, {| world := w;
                 trace := trace st2 ++ EvGet (getScoreUrl rt a scorerId) (SCORER_API_KEY rt) :: evs;
                 results := results st2 ++ [o] |}) /\
    countKind Get evs = 0%nat /\
    (countKind Submit evs <= 1)%nat /\
    (countKind Wait evs <= countKind Submit evs)%nat /\
    (countKind Timeout evs <= countKind Wait evs)%nat /\
    countKind Timeout evs = (if hasTx o then 1 else 0)%nat /\
    Forall pauseOf1000 evs.
Proof.
  intros W.
  unfold processAddress, try_catch, bind, requestV2Score, try_catch, axiosGet, throw,
    results_push, logged.
  rewrite <- W.
  destruct (axios_get rt _ _ (world st1)) as [[scoreData|e] w1]; cbn [world trace results].
  2:{ eexists _, w1, []. repeat split; try reflexivity; try (cbn; lia). constructor. }
  destruct (truthy (V2ScoreResponseData.error scoreData)) eqn:T.
  { cbn [world trace results]. eexists _, w1, [].
    repeat split; try reflexivity; try (cbn; lia). constructor. }
  unfold writeScoreOnchain, try_catch, bind, lift, contract_submitAttestations, wait, ret,
    setTimeout, throw, logged.
  cbn [world trace results].
  destruct (createAttestationData rt a scoreData scorerId) as [d|e]; cbn [world trace results].
  2:{ eexists _, w1, []. repeat split; try reflexivity; try (cbn; lia). constructor. }
  destruct (submitAttestations rt _ w1) as [[tx|e] w2]; cbn [world trace results].
  2:{ eexists _, w2, [_].
      split; [rewrite <- app_assoc; reflexivity|].
      split; [rewrite <- app_assoc; reflexivity|].
      repeat split; try reflexivity; try (cbn; lia).
      repeat constructor; discriminate. }
  destruct (tx_wait rt tx w2) as [[[]|e] w3]; cbn [world trace results].
  2:{ eexists _, w3, [_; _].
      split; [rewrite <- !app_assoc; reflexivity|].
      split; [rewrite <- !app_assoc; reflexivity|].
      repeat split; try reflexivity; try (cbn; lia).
      repeat constructor; discriminate. }
  eexists _, _, [_; _; _].
  split; [rewrite <- !app_assoc; reflexivity|].
  split; [rewrite <- !app_assoc; reflexivity|].
  repeat split; try reflexivity; try (cbn; lia).
  repeat constructor; try discriminate.
Qed.

Lemma forEachAddress_calls scorerId addresses (st1 st2 : State rt) :
  world st1 = world st2 ->
  exists outcomes w evs,
    forEachAddress rt scorerId addresses st1 =
      (Ok tt, {| world := w; trace := trace st1 ++ evs; results := results st1 ++ outcomes |}) /\
    forEachAddress rt scorerId addresses st2 =
      (Ok tt, {| world := w; trace := trace st2 ++ evs; results := results st2 ++ outcomes |}) /\
    List.length outcomes = List.length addresses /\
    countKind Get evs = List.length addresses /\
    (countKind Submit evs <= List.length addresses)%nat /\
    (countKind Wait evs <= countKind Submit evs)%nat /\
    (countKind Timeout evs <= countKind Wait evs)%nat /\
    countKind Timeout evs = List.length (filter hasTx outcomes) /\
    Forall pauseOf1000 evs.
Proof.
  revert st1 st2. induction addresses as [|a l IH]; intros st1 st2 W.
  - exists [], (world st1), []. cbn [forEachAddress]. unfold ret.
    rewrite !app_nil_r.
    split; [destruct st1; reflexivity|].
    split; [rewrite W; destruct st2; reflexivity|].
    repeat split; try reflexivity; try (cbn; lia). constructor.
  - cbn [forEachAddress]. unfold bind.
    destruct (processAddress_calls scorerId a st1 st2 W)
      as (o & w & evs & -> & -> & G & S & Wt & T & Tx & F).
    destruct (IH {| world := w;
                    trace := trace st1 ++
                             EvGet (getScoreUrl rt a scorerId) (SCORER_API_KEY rt) :: evs;
                    results := results st1 ++ [o] |}
                 {| world := w;
                    trace := trace st2 ++
                             EvGet (getScoreUrl rt a scorerId) (SCORER_API_KEY rt) :: evs;
                    results := results st2 ++ [o] |} eq_refl)
      as (os & w' & evs' & -> & -> & L' & G' & S' & Wt' & T' & Tx' & F').
    cbn [world trace results] in *.
    exists (o :: os), w', (EvGet (getScoreUrl rt a scorerId) (SCORER_API_KEY rt) :: evs ++ evs').
    split; [rewrite <- !app_assoc; reflexivity|].
    split; [rewrite <- !app_assoc; reflexivity|].
    change (EvGet (getScoreUrl rt a scorerId) (SCORER_API_KEY rt) :: evs ++ evs')
      with ([EvGet (getScoreUrl rt a scorerId) (SCORER_API_KEY rt)] ++ evs ++ evs').
    rewrite !countKind_app.
    change (countKind Get [EvGet (getScoreUrl rt a scorerId) (SCORER_API_KEY rt)]) with 1%nat.
    change (countKind Submit [EvGet (getScoreUrl rt a scorerId) (SCORER_API_KEY rt)]) with 0%nat.
    change (countKind Wait [EvGet (getScoreUrl rt a scorerId) (SCORER_API_KEY rt)]) with 0%nat.
    change (countKind Timeout [EvGet (getScoreUrl rt a scorerId) (SCORER_API_KEY rt)])
      with 0%nat.
    cbn [List.length filter].
    assert (Hx : List.length (if hasTx o then o :: filter hasTx os else filter hasTx os)
                 = ((if hasTx o then 1 else 0) + List.length (filter hasTx os))%nat)
      by (destruct (hasTx o); reflexivity).
    rewrite Hx.
    repeat split; try lia.
    apply Forall_app. split; [repeat constructor; discriminate|].
    apply Forall_app. split; assumption.
Qed.

End Calls.

(** Over a whole run there is one request to the score service per address,
    at most one submission per address (nothing is tried twice), at most
    one wait per submission, and exactly one pause per attested address,
    each of 1000 ms; an address that ends without a transaction hash is
    followed by no pause. *)
Theorem processAddresses_calls
    (rt : Runtime) (addresses : list string) (scorerId : string) (st : State rt) :
  exists outcomes st' evs,
    processAddresses rt addresses scorerId st = (Ok outcomes, st') /\
    trace st' = (trace st ++ evs)%list /\
    countKind Get evs = List.length addresses /\
    (countKind Submit evs <= List.length addresses)%nat /\
    (countKind Wait evs <= countKind Submit evs)%nat /\
    countKind Timeout evs = List.length (filter hasTx outcomes) /\
    Forall (fun e => kind e = Timeout -> e = EvTimeout 1000) evs.
Proof.
  rewrite processAddresses_forEach.
  destruct (forEachAddress_calls rt scorerId addresses (fresh rt st) (fresh rt st) eq_refl)
    as (os & w & evs & -> & _ & _ & G & S & Wt & _ & Tx & F).
  cbn [returnResults fresh results trace app].
  eexists _, _, evs. split; [reflexivity|]. cbn [trace].
  repeat split; assumption.
Qed.

(** A run over a concatenation of two lists is the run over the first list
    followed by the run over the second, in outcomes, in calls and in the
    final world: where the batches of five begin and end has no effect. *)
Theorem processAddresses_append
    (rt : Runtime) (scorerId : string) (l1 l2 : list string) (st : State rt) :
  exists o1 st1 o2 st2,
    processAddresses rt l1 scorerId st = (Ok o1, st1) /\
    processAddresses rt l2 scorerId st1 = (Ok o2, st2) /\
    processAddresses rt (l1 ++ l2) scorerId st =
      (Ok (o1 ++ o2)%list,
       {| world := world st2; trace := trace st2; results := (o1 ++ o2)%list |}).
Proof.
  destruct (forEachAddress_calls rt scorerId l1 (fresh rt st) (fresh rt st) eq_refl)
    as (o1 & w1 & evs1 & E1 & _).
  cbn [fresh results trace world app] in E1.
  set (st1 := {| world := w1; trace := (trace st ++ evs1)%list; results := o1 |}) in *.
  destruct (forEachAddress_calls rt scorerId l2 st1 (fresh rt st1) eq_refl)
    as (o2 & w2 & evs2 & E2 & E2' & _).
  cbn [fresh results trace world app] in E2, E2'.
  exists o1, st1, o2,
    {| world := w2; trace := ((trace st ++ evs1) ++ evs2)%list; results := o2 |}.
  split; [rewrite processAddresses_forEach; cbn [fresh]; rewrite E1; reflexivity|].
  split; [rewrite processAddresses_forEach; cbn [fresh]; subst st1;
          cbn [world trace results]; rewrite E2'; reflexivity|].
  rewrite processAddresses_forEach, forEachAddress_app. cbn [fresh]. rewrite E1.
  fold st1. rewrite E2. reflexivity.
Qed.

(** ** From the input file to the report *)

Section MainProperties.

Context {rt : Runtime} (env : Main.Env rt).

Lemma counts_le (l : list Outcome.t) :
  Forall settled l ->
  (Main.countSuccessful l + Main.countFailed l <= List.length l)%nat.
Proof.
  unfold Main.countSuccessful, Main.countFailed.
  induction 1 as [|o l Ho _ IH]; [simpl; lia|].
  cbn [filter List.length].
  destruct Ho as [(tx & -> & ->) | (e & -> & -> & _)]; cbn [truthy].
  - destruct (negb (String.eqb tx "")); cbn [List.length]; lia.
  - destruct (negb (String.eqb e "")); cbn [List.length]; lia.
Qed.

End MainProperties.

(** When the setup succeeds and the input can be read, and at least one
    line holds a valid address, [main] runs [processAddresses] over exactly
    the lines that are not empty once trimmed and that [isAddress] accepts,
    in the order of the file, and then calls [fs.writeFileSync] once, for the
    output file, with the header and one row per outcome of that run, in
    order.  When the write succeeds [main] returns; the total it prints is
    the number of those addresses, and the two other counts never add up to
    more than it.  When the write fails [main] exits with code 1. *)
Theorem main_report
    (rt : Runtime) (env : Main.Env rt) (st : Main.MainState rt)
    (lines : list string) (w : World rt) :
  Main.setup env = Ok tt ->
  Main.readLines env Main.INPUT_FILE (world (Main.script st)) = (Ok lines, w) ->
  filter (Main.keeps env) (map JsFloat.trim lines) <> [] ->
  let addresses := filter (Main.keeps env) (map JsFloat.trim lines) in
  exists outcomes s2,
    processAddresses rt addresses (Main.COMMUNITY_ID env)
      (Main.withWorld w (Main.script st)) = (Ok outcomes, s2) /\
    map Outcome.address outcomes = addresses /\
    Forall (fun a => a <> "" /\ Main.isAddress env a = true) addresses /\
    Main.writes (snd (Main.main env st)) =
      (Main.writes st ++
       [(Main.OUTPUT_FILE,
         String.concat newline ("address,score,txHash,error" :: map csvRow outcomes))])%list /\
    (forall w3,
       Main.writeFileSync env Main.OUTPUT_FILE (csvContent outcomes) (world s2) = (Ok tt, w3) ->
       exists report,
         fst (Main.main env st) = Main.Returned (Some report) /\
         Main.total report = List.length addresses /\
         Main.successful report =
           List.length (filter (fun o => truthy (Outcome.txHash o)) outcomes) /\
         Main.failed report =
           List.length (filter (fun o => truthy (Outcome.error o)) outcomes) /\
         (Main.successful report + Main.failed report <= Main.total report)%nat) /\
    (forall e w3,
       Main.writeFileSync env Main.OUTPUT_FILE (csvContent outcomes) (world s2) = (Throw e, w3) ->
       fst (Main.main env st) = Main.Exited 1).
Proof.
  intros S R N addresses.
  destruct (forEachAddress_outcomes rt (Main.COMMUNITY_ID env) addresses
              (fresh rt (Main.withWorld w (Main.script st))))
    as (os & s2 & E & Hr & Hm & Hs & _).
  cbn [fresh results app] in Hr.
  assert (P : processAddresses rt addresses (Main.COMMUNITY_ID env)
                (Main.withWorld w (Main.script st)) = (Ok os, s2)).
  { rewrite processAddresses_forEach, E. cbn [returnResults]. rewrite Hr. reflexivity. }
  exists os, s2. split; [exact P|]. split; [exact Hm|].
  split.
  { apply Forall_forall. intros a Ha. apply filter_In in Ha.
    destruct Ha as [_ K]. unfold Main.keeps in K. apply andb_true_iff in K.
    destruct K as [K1 K2]. split; [|exact K2].
    intros ->. discriminate K1. }
  unfold Main.main, Main.getAddresses. rewrite S, R. fold addresses.
  destruct (List.length addresses =? 0)%nat eqn:L.
  { apply Nat.eqb_eq, length_zero_iff_nil in L. exfalso. exact (N L). }
  cbn [Main.script Main.writes]. rewrite P.
  unfold Main.writeCsv. cbn [Main.script Main.writes].
  destruct (Main.writeFileSync env Main.OUTPUT_FILE (csvContent os) (world s2))
    as [[[]|e0] w4]; cbn [fst snd Main.writes].
  - split; [reflexivity|]. split; [|intros ? ? [=]].
    intros w3 _. eexists. split; [reflexivity|].
    cbn [Main.total Main.successful Main.failed].
    split; [rewrite <- Hm, length_map; reflexivity|].
    split; [reflexivity|]. split; [reflexivity|].
    apply counts_le, Hs.
  - split; [reflexivity|]. split; [intros ? [=]|]. intros; reflexivity.
Qed.

Lemma main_report_witness :
  exists outcomes,
    map Outcome.address outcomes = [Scenario.addressA; Scenario.addressB] /\
    Main.writes (snd (Main.main ScenarioMain.env ScenarioMain.start)) =
      [(Main.OUTPUT_FILE,
        String.concat newline ("address,score,txHash,error" :: map csvRow outcomes))].
Proof.
  destruct (main_report Scenario.runtime ScenarioMain.env ScenarioMain.start
              ScenarioMain.lines tt)
    as (outcomes & s2 & _ & A & _ & W & _).
  - reflexivity.
  - reflexivity.
  - vm_compute. discriminate.
  - exists outcomes. split; [exact A | exact W].
Defined.

(** * Properties of the nullifier script *)

From Stdlib Require Import Sorted.

Section NullifierExtraction.
Import Nullifiers.

Lemma prefix_nonempty p s : String.prefix p s = true -> p <> "" -> s <> "".
Proof.
  intros H N ->. destruct p; [contradiction | discriminate].
Qed.

Lemma findV1_hit items n :
  findV1 items = Hit n <->
  exists pre post,
    items = (map JString pre ++ JString n :: post)%list /\
    Forall (fun s => String.prefix "v1:" s = false) pre /\
    String.prefix "v1:" n = true.
Proof.
  split.
  - induction items as [|x rest IH]; [discriminate|].
    destruct x; try discriminate. cbn [findV1].
    destruct (String.prefix "v1:" s) eqn:P.
    + intros H. injection H as ->. exists [], rest. repeat split; auto.
    + intros H. destruct (IH H) as (pre & post & -> & F & Pn).
      exists (s :: pre), post. repeat split; auto.
  - intros (pre & post & -> & F & Pn).
    induction F as [|s pre Hs _ IH]; cbn [map app findV1].
    + rewrite Pn. reflexivity.
    + rewrite Hs. exact IH.
Qed.

Lemma field_object key v x : field key v = Some x -> exists fields, v = JObject fields.
Proof.
  destruct v; try discriminate. intros _. eexists. reflexivity.
Qed.

End NullifierExtraction.

(** [extractV1Nullifier] returns a nullifier [n] exactly when the stamp
    (parsed first when it is text) is an object whose [credentialSubject] is
    an object whose [nullifiers] is an array in which [n] is the first
    string that starts with "v1:" and every element before it is a string.
    In every other case, including text that does not parse and an element
    that is not a string before the first match, it returns null. *)
Theorem extractV1Nullifier_first
    (JSON_parse : string -> option Nullifiers.Json) (stamp : Nullifiers.Json) (n : string) :
  Nullifiers.extractV1Nullifier JSON_parse stamp = Some n <->
  exists stampData subject items pre post,
    (match stamp with Nullifiers.JString s => JSON_parse s | _ => Some stamp end)
      = Some stampData /\
    Nullifiers.field "credentialSubject" stampData = Some subject /\
    Nullifiers.field "nullifiers" subject = Some (Nullifiers.JArray items) /\
    items = (map Nullifiers.JString pre ++ Nullifiers.JString n :: post)%list /\
    Forall (fun s => String.prefix "v1:" s = false) pre /\
    String.prefix "v1:" n = true.
Proof.
  unfold Nullifiers.extractV1Nullifier.
  set (parsed := match stamp with Nullifiers.JString s => JSON_parse s | _ => Some stamp end).
  split.
  - destruct parsed as [stampData|]; [|discriminate]. cbv zeta.
    destruct (Nullifiers.truthyJson _) eqn:T; [|discriminate].
    destruct (Nullifiers.optionalField "nullifiers" _) as [[| | | |items|]|] eqn:N;
      try discriminate.
    destruct (Nullifiers.findV1 items) as [v| |] eqn:F; try discriminate.
    destruct (String.eqb v ""); [discriminate|]. intros H. injection H as ->.
    apply findV1_hit in F. destruct F as (pre & post & Ei & Fp & Pn).
    unfold Nullifiers.optionalField in N at 1.
    destruct (Nullifiers.optionalField "credentialSubject" (Some stampData))
      as [subject|] eqn:S; [|discriminate].
    assert (N' : Nullifiers.field "nullifiers" subject = Some (Nullifiers.JArray items))
      by (destruct subject; try discriminate; exact N).
    assert (S' : Nullifiers.field "credentialSubject" stampData = Some subject)
      by (cbn in S; destruct stampData; try discriminate; exact S).
    exists stampData, subject, items, pre, post. repeat split; assumption.
  - intros (stampData & subject & items & pre & post & -> & S & N & Ei & Fp & Pn).
    cbv zeta.
    destruct (field_object _ _ _ S) as [f1 ->].
    destruct (field_object _ _ _ N) as [f2 ->].
    cbn [Nullifiers.optionalField]. rewrite S. cbn [Nullifiers.optionalField]. rewrite N.
    cbn [Nullifiers.truthyJson].
    assert (F : Nullifiers.findV1 items = Nullifiers.Hit n)
      by (apply findV1_hit; exists pre, post; auto).
    rewrite F.
    destruct (String.eqb_spec n ""); [|reflexivity].
    exfalso. apply (prefix_nonempty "v1:" n Pn); [discriminate | assumption].
Qed.

Section NullifierAnalysis.
Import Nullifiers.
Local Open Scope list_scope.

Variable getTime : string -> Z.

Let byTime (a b : Rec) : Prop := time getTime a <= time getTime b.

Lemma mapGet_mapSet_same {V} k (v : V) m : mapGet k (mapSet k v m) = Some v.
Proof.
  induction m as [|[k' v'] m IH]; cbn [mapSet mapGet].
  - rewrite String.eqb_refl. reflexivity.
  - destruct (String.eqb k' k) eqn:E; cbn [mapGet]; rewrite E; [reflexivity | exact IH].
Qed.

Lemma mapGet_mapSet_other {V} k k' (v : V) m :
  k <> k' -> mapGet k (mapSet k' v m) = mapGet k m.
Proof.
  intros N. induction m as [|[k0 v0] m IH]; cbn [mapSet mapGet].
  - destruct (String.eqb_spec k' k); [congruence | reflexivity].
  - destruct (String.eqb_spec k0 k') as [->|N0]; cbn [mapGet].
    + destruct (String.eqb_spec k' k); [congruence | reflexivity].
    + destruct (String.eqb k0 k); [reflexivity | exact IH].
Qed.

Lemma mapGet_In_keys {V} k (m : list (string * V)) :
  In k (map fst m) <-> mapGet k m <> None.
Proof.
  induction m as [|[k' v'] m IH]; cbn [map fst In mapGet].
  - split; [contradiction | congruence].
  - destruct (String.eqb_spec k' k) as [->|N].
    + split; [discriminate | auto].
    + rewrite <- IH. split; [intros [E|I]; [contradiction | exact I] | auto].
Qed.

Lemma keys_mapSet {V} k (v : V) m :
  map fst (mapSet k v m) = if mapHas k m then map fst m else map fst m ++ [k].
Proof.
  unfold mapHas. induction m as [|[k' v'] m IH]; cbn [mapSet mapGet map fst app].
  - reflexivity.
  - destruct (String.eqb k' k) eqn:E; cbn [map fst]; [reflexivity|].
    rewrite IH. destruct (mapGet k m); reflexivity.
Qed.

(** *** The stable sort *)

Lemma insertByTime_In r x l : In x (insertByTime getTime r l) <-> x = r \/ In x l.
Proof.
  induction l as [|y l IH]; cbn [insertByTime In].
  - split; [intros [E|[]]; auto | intros [E|[]]; auto].
  - destruct (time getTime r <=? time getTime y); cbn [In]; [|rewrite IH]; intuition.
Qed.

Lemma sortByTime_In x l : In x (sortByTime getTime l) <-> In x l.
Proof.
  induction l as [|r l IH]; [reflexivity|].
  cbn [sortByTime fold_right In]. fold (sortByTime getTime l).
  rewrite insertByTime_In, IH. intuition.
Qed.

Lemma insertByTime_sorted r l :
  StronglySorted byTime l -> StronglySorted byTime (insertByTime getTime r l).
Proof.
  induction 1 as [|y l Hs IH Hy]; cbn [insertByTime].
  - repeat constructor.
  - destruct (time getTime r <=? time getTime y) eqn:E.
    + apply Z.leb_le in E. constructor; [constructor; assumption|].
      constructor; [exact E|].
      apply Forall_forall. intros z Hz. rewrite Forall_forall in Hy.
      specialize (Hy z Hz). unfold byTime in *. lia.
    + apply Z.leb_gt in E. constructor; [exact IH|].
      apply Forall_forall. intros z Hz. apply insertByTime_In in Hz.
      destruct Hz as [->|Hz]; [unfold byTime; lia|].
      rewrite Forall_forall in Hy. exact (Hy z Hz).
Qed.

Lemma sortByTime_sorted l : StronglySorted byTime (sortByTime getTime l).
Proof.
  induction l as [|r l IH]; [constructor|].
  cbn [sortByTime fold_right]. apply insertByTime_sorted, IH.
Qed.

(** *** The first use of a nullifier *)

Let carries (k : string) (r : Rec) : bool := String.eqb (v1_nullifier r) k.

Lemma firstUse_fold k s m :
  mapGet k
    (fold_left
       (fun m record =>
          if negb (mapHas (v1_nullifier record) m)
          then mapSet (v1_nullifier record) (id record, created_at record) m
          else m) s m)
  = match mapGet k m with
    | Some v => Some v
    | None =>
        match find (carries k) s with
        | Some r0 => Some (id r0, created_at r0)
        | None => None
        end
    end.
Proof.
  revert m. induction s as [|r s IH]; intros m; cbn [fold_left find].
  - destruct (mapGet k m); reflexivity.
  - rewrite IH. unfold carries at 2, mapHas.
    destruct (String.eqb_spec (v1_nullifier r) k) as [E|N].
    + rewrite E. destruct (mapGet k m) as [v|] eqn:G; cbn [negb].
      * rewrite G. reflexivity.
      * rewrite mapGet_mapSet_same. reflexivity.
    + destruct (mapGet (v1_nullifier r) m); cbn [negb];
        [|rewrite mapGet_mapSet_other by congruence]; reflexivity.
Qed.

Lemma find_least k s r0 :
  StronglySorted byTime s -> find (carries k) s = Some r0 ->
  In r0 s /\ v1_nullifier r0 = k /\
  forall r, In r s -> v1_nullifier r = k -> time getTime r0 <= time getTime r.
Proof.
  induction 1 as [|x s Hs IH Hx]; [discriminate|].
  cbn [find]. unfold carries at 1.
  destruct (String.eqb_spec (v1_nullifier x) k) as [E|N].
  - intros H. injection H as <-. split; [left; reflexivity|]. split; [exact E|].
    intros r [<-|Hr] _; [lia|]. rewrite Forall_forall in Hx. exact (Hx r Hr).
  - intros H. destruct (IH H) as (I & K & L). split; [right; exact I|]. split; [exact K|].
    intros r [<-|Hr] Kr; [congruence | exact (L r Hr Kr)].
Qed.

Lemma find_carrier k s r : In r s -> v1_nullifier r = k -> find (carries k) s <> None.
Proof.
  induction s as [|x s IH]; [contradiction|].
  cbn [find]. intros [<-|I] K.
  - unfold carries. rewrite K, String.eqb_refl. discriminate.
  - destruct (carries k x); [discriminate | exact (IH I K)].
Qed.

Lemma firstUse_of_record records r :
  In r records ->
  exists r0,
    In r0 records /\ v1_nullifier r0 = v1_nullifier r /\
    mapGet (v1_nullifier r) (nullifierFirstUse getTime records)
      = Some (id r0, created_at r0) /\
    forall r', In r' records -> v1_nullifier r' = v1_nullifier r ->
               time getTime r0 <= time getTime r'.
Proof.
  intros I. unfold nullifierFirstUse. rewrite firstUse_fold. cbn [mapGet].
  apply (proj2 (sortByTime_In _ _)) in I.
  destruct (find (carries (v1_nullifier r)) (sortByTime getTime records)) as [r0|] eqn:F.
  - destruct (find_least _ _ _ (sortByTime_sorted records) F) as (I0 & K & L).
    exists r0. split; [apply sortByTime_In, I0|]. split; [exact K|]. split; [reflexivity|].
    intros r' I' K'. apply L; [apply sortByTime_In, I' | exact K'].
  - exfalso. exact (find_carrier _ _ _ I eq_refl F).
Qed.

Lemma firstUse_keys records k :
  mapGet k (nullifierFirstUse getTime records) <> None -> In k (map v1_nullifier records).
Proof.
  unfold nullifierFirstUse. rewrite firstUse_fold. cbn [mapGet].
  destruct (find _ _) as [r0|] eqn:F; [|congruence]. intros _.
  apply find_some in F. destruct F as [I K]. apply (proj1 (sortByTime_In _ _)) in I.
  unfold carries in K. apply String.eqb_eq in K. rewrite <- K. apply in_map, I.
Qed.

(** *** Originals *)

Let original (firstUse : list (string * (Z * string))) (r : Rec) : bool :=
  match isOriginal firstUse r with
  | Some true => true
  | _ => false
  end.

Lemma filterThrowing_total {A} (f : A -> option bool) l :
  (forall a, In a l -> f a <> None) ->
  filterThrowing f l =
    Some (filter (fun a => match f a with Some true => true | _ => false end) l).
Proof.
  induction l as [|a l IH]; intros H; [reflexivity|].
  cbn [filterThrowing filter].
  destruct (f a) as [b|] eqn:E; [|exfalso; exact (H a (or_introl eq_refl) E)].
  rewrite IH by (intros x Hx; apply H; right; exact Hx).
  destruct b; reflexivity.
Qed.

Lemma isOriginal_defined records r :
  In r records -> isOriginal (nullifierFirstUse getTime records) r <> None.
Proof.
  intros I. unfold isOriginal.
  destruct (firstUse_of_record records r I) as (r0 & _ & _ & -> & _). discriminate.
Qed.

(** *** The counts *)

Let orZero (c : option nat) : nat := match c with Some n => n | None => O end.

Lemma counts_fold k l m :
  orZero (mapGet k
    (fold_left
       (fun m record =>
          let count := match mapGet (v1_nullifier record) m with Some c => c | None => O end in
          mapSet (v1_nullifier record) (count + 1)%nat m) l m))
  = (orZero (mapGet k m) + List.length (filter (carries k) l))%nat.
Proof.
  revert m. induction l as [|r l IH]; intros m; cbn [fold_left filter].
  - cbn [List.length]. lia.
  - cbv zeta in *. rewrite IH. unfold carries at 2.
    destruct (String.eqb_spec (v1_nullifier r) k) as [E|N].
    + rewrite E, mapGet_mapSet_same. cbn [List.length orZero].
      destruct (mapGet k m); cbn [orZero]; lia.
    + rewrite mapGet_mapSet_other by congruence. reflexivity.
Qed.

Lemma mapHas_keys {V} k (m : list (string * V)) :
  mapHas k m = true <-> In k (map fst m).
Proof.
  rewrite mapGet_In_keys. unfold mapHas.
  destruct (mapGet k m); split; congruence || discriminate.
Qed.

Lemma counts_keys_fold l m :
  NoDup (map fst m) ->
  let m' := fold_left
       (fun m record =>
          let count := match mapGet (v1_nullifier record) m with Some c => c | None => O end in
          mapSet (v1_nullifier record) (count + 1)%nat m) l m in
  NoDup (map fst m') /\
  forall k, In k (map fst m') <-> In k (map fst m) \/ In k (map v1_nullifier l).
Proof.
  clear.
  revert m. induction l as [|r l IH]; intros m N; cbn [fold_left map In].
  - split; [exact N | intuition].
  - cbv zeta in *.
    set (m1 := mapSet (v1_nullifier r) _ m).
    assert (K1 : map fst m1 = if mapHas (v1_nullifier r) m then map fst m
                              else map fst m ++ [v1_nullifier r])
      by apply keys_mapSet.
    pose proof (mapHas_keys (v1_nullifier r) m) as H.
    destruct (mapHas (v1_nullifier r) m) eqn:Hm.
    + assert (I0 : In (v1_nullifier r) (map fst m)) by (apply H; reflexivity).
      rewrite <- K1 in N. destruct (IH m1 N) as [N' I']. split; [exact N'|].
      intros k. rewrite I', K1. split; [intuition | intros [A|[<-|B]]; auto].
    + assert (I0 : ~ In (v1_nullifier r) (map fst m))
        by (intros X; apply H in X; discriminate).
      assert (N1 : NoDup (map fst m1)).
      { rewrite K1. apply NoDup_app; [exact N | repeat constructor; intros [] |].
        intros x Hx [<-|[]]. contradiction. }
      destruct (IH m1 N1) as [N' I']. split; [exact N'|].
      intros k. rewrite I', K1, in_app_iff. cbn [In]. intuition.
Qed.

End NullifierAnalysis.

Section ListFacts.
Local Open Scope list_scope.

Lemma NoDup_map_filter {A B} (g : A -> B) (p : A -> bool) l :
  NoDup (map g l) -> NoDup (map g (filter p l)).
Proof.
  induction l as [|a l IH]; cbn [map filter]; [auto|].
  intros N. inversion N as [|? ? Hn Hd]; subst.
  destruct (p a); cbn [map]; [|apply IH, Hd].
  constructor; [|apply IH, Hd].
  intros I. apply Hn. apply in_map_iff in I. destruct I as (x & E & Hx).
  apply filter_In in Hx. rewrite <- E. apply in_map, Hx.
Qed.

Lemma NoDup_map_transfer {A B C} (f : A -> B) (g : A -> C) l :
  NoDup (map g l) ->
  (forall x y, In x l -> In y l -> f x = f y -> g x = g y) ->
  NoDup (map f l).
Proof.
  induction l as [|a l IH]; cbn [map]; [constructor|].
  intros N H. inversion N as [|? ? Hn Hd]; subst.
  constructor.
  - intros I. apply Hn. apply in_map_iff in I. destruct I as (y & E & Hy).
    rewrite (H a y (or_introl eq_refl) (or_intror Hy) (eq_sym E)). apply in_map, Hy.
  - apply IH; [exact Hd|]. intros x y Hx Hy. apply H; right; assumption.
Qed.

Lemma filter_length_le {A} (p : A -> bool) l : (List.length (filter p l) <= List.length l)%nat.
Proof.
  induction l as [|a l IH]; cbn [filter List.length]; [lia|].
  destruct (p a); cbn [List.length]; lia.
Qed.

End ListFacts.

(** For every record that carries a nullifier, the table of first uses has
    an entry for that nullifier, so reading the id of the first use never
    fails; the entry is a record with the same nullifier whose time is the
    least among the records with that nullifier, and the record is an
    original exactly when its id is that record's id. *)
Theorem nullifierFirstUse_earliest
    (getTime : string -> Z) (records : list Nullifiers.Rec) (r : Nullifiers.Rec) :
  In r records ->
  exists r0,
    In r0 records /\
    Nullifiers.v1_nullifier r0 = Nullifiers.v1_nullifier r /\
    Nullifiers.mapGet (Nullifiers.v1_nullifier r) (Nullifiers.nullifierFirstUse getTime records)
      = Some (Nullifiers.id r0, Nullifiers.created_at r0) /\
    (forall r', In r' records ->
                Nullifiers.v1_nullifier r' = Nullifiers.v1_nullifier r ->
                Nullifiers.time getTime r0 <= Nullifiers.time getTime r') /\
    Nullifiers.isOriginal (Nullifiers.nullifierFirstUse getTime records) r
      = Some (Nullifiers.id r0 =? Nullifiers.id r).
Proof.
  intros I. destruct (firstUse_of_record getTime records r I) as (r0 & I0 & K & G & L).
  exists r0. repeat split; try assumption.
  unfold Nullifiers.isOriginal. rewrite G. reflexivity.
Qed.

Lemma nullifierFirstUse_earliest_witness :
  exists r0,
    In r0 ScenarioNullifiers.records /\
    Nullifiers.isOriginal
      (Nullifiers.nullifierFirstUse ScenarioNullifiers.getTime ScenarioNullifiers.records)
      ScenarioNullifiers.later
    = Some (Nullifiers.id r0 =? Nullifiers.id ScenarioNullifiers.later).
Proof.
  destruct (nullifierFirstUse_earliest ScenarioNullifiers.getTime
              ScenarioNullifiers.records ScenarioNullifiers.later)
    as (r0 & I & _ & _ & _ & O); [left; reflexivity|].
  exists r0. split; [exact I | exact O].
Defined.

(** The figures of the analysis are always produced.  There is at least one
    original per distinct nullifier; originals and copies add up to the
    number of records; and when the records have distinct ids there is
    exactly one original per distinct nullifier. *)
Theorem analyze_originals (getTime : string -> Z) (records : list Nullifiers.Rec) :
  exists a,
    Nullifiers.analyze getTime records = Some a /\
    Nullifiers.uniqueNullifiers a = List.length (Nullifiers.nullifierCounts records) /\
    (Nullifiers.uniqueNullifiers a <= Nullifiers.originalStamps a)%nat /\
    (Nullifiers.originalStamps a + Nullifiers.copyStamps a = List.length records)%nat /\
    (Nullifiers.usedMultipleTimes a <= Nullifiers.uniqueNullifiers a)%nat /\
    (NoDup (map Nullifiers.id records) ->
     Nullifiers.originalStamps a = Nullifiers.uniqueNullifiers a).
Proof.
  unfold Nullifiers.analyze.
  set (fu := Nullifiers.nullifierFirstUse getTime records).
  set (counts := Nullifiers.nullifierCounts records).
  rewrite (filterThrowing_total (Nullifiers.isOriginal fu) records)
    by (intros x Hx; apply isOriginal_defined, Hx).
  set (orig := fun r => match Nullifiers.isOriginal fu r with Some true => true | _ => false end).
  set (originals := filter orig records).
  eexists. split; [reflexivity|].
  cbn [Nullifiers.uniqueNullifiers Nullifiers.originalStamps Nullifiers.copyStamps
       Nullifiers.usedMultipleTimes].
  destruct (counts_keys_fold records [] (NoDup_nil _)) as [NK IK].
  cbv zeta in NK, IK. fold (Nullifiers.nullifierCounts records) in NK, IK. fold counts in NK, IK.
  assert (Hin : forall r, In r originals ->
            In r records /\
            exists c, Nullifiers.mapGet (Nullifiers.v1_nullifier r) fu = Some (Nullifiers.id r, c)).
  { intros r Hr. apply filter_In in Hr. destruct Hr as [Hr O]. split; [exact Hr|].
    subst orig. cbv beta in O. unfold Nullifiers.isOriginal in O.
    destruct (Nullifiers.mapGet (Nullifiers.v1_nullifier r) fu) as [[i c]|]; [|discriminate].
    destruct (Z.eqb_spec i (Nullifiers.id r)) as [->|]; [|discriminate].
    exists c. reflexivity. }
  assert (L1 : (List.length counts <= List.length originals)%nat).
  { rewrite <- (length_map fst counts),
            <- (length_map Nullifiers.v1_nullifier originals).
    apply NoDup_incl_length; [exact NK|].
    intros k Hk. apply IK in Hk. destruct Hk as [[]|Hk].
    apply in_map_iff in Hk. destruct Hk as (r & <- & Hr).
    destruct (firstUse_of_record getTime records r Hr) as (r0 & I0 & K & G & _).
    rewrite <- K. apply in_map. apply filter_In. split; [exact I0|].
    subst orig. cbv beta. unfold Nullifiers.isOriginal. fold fu in G. rewrite K, G.
    rewrite Z.eqb_refl. reflexivity. }
  split; [reflexivity|]. split; [exact L1|].
  pose proof (filter_length_le orig records) as L2. fold originals in L2.
  split; [lia|].
  split; [apply filter_length_le|].
  intros N. apply Nat.le_antisymm; [|exact L1].
  rewrite <- (length_map fst counts),
          <- (length_map Nullifiers.v1_nullifier originals).
  apply NoDup_incl_length.
  - apply (NoDup_map_transfer Nullifiers.v1_nullifier Nullifiers.id).
    + apply NoDup_map_filter, N.
    + intros x y Hx Hy E.
      destruct (Hin x Hx) as [_ [cx Gx]]. destruct (Hin y Hy) as [_ [cy Gy]].
      rewrite E in Gx. congruence.
  - intros k Hk. apply in_map_iff in Hk. destruct Hk as (r & <- & Hr).
    apply IK. right. apply in_map. apply (Hin r Hr).
Qed.

Lemma analyze_originals_witness :
  exists r,
    Nullifiers.analyze ScenarioNullifiers.getTime ScenarioNullifiers.records = Some r /\
    Nullifiers.originalStamps r = Nullifiers.uniqueNullifiers r.
Proof.
  destruct (analyze_originals ScenarioNullifiers.getTime ScenarioNullifiers.records)
    as (r & E & _ & _ & _ & _ & H).
  exists r. split; [exact E|]. apply H.
  repeat constructor; cbn; intuition discriminate.
Defined.

(** The table of counts has one entry per distinct nullifier, and the count
    of a nullifier is the number of records that carry it. *)
Theorem nullifierCounts_occurrences (records : list Nullifiers.Rec) :
  let counts := Nullifiers.nullifierCounts records in
  NoDup (map fst counts) /\
  (forall k, In k (map fst counts) <-> In k (map Nullifiers.v1_nullifier records)) /\
  (forall k c, Nullifiers.mapGet k counts = Some c ->
     c = List.length (filter (fun r => String.eqb (Nullifiers.v1_nullifier r) k) records) /\
     (1 <= c)%nat).
Proof.
  cbv zeta.
  destruct (counts_keys_fold records [] (NoDup_nil _)) as [NK IK].
  cbv zeta in NK, IK. fold (Nullifiers.nullifierCounts records) in NK, IK.
  split; [exact NK|]. split.
  - intros k. rewrite IK. cbn. intuition.
  - intros k c G.
    pose proof (counts_fold k records []) as F.
    cbv zeta in F. fold (Nullifiers.nullifierCounts records) in F.
    rewrite G in F. cbn in F. split; [exact F|].
    assert (I : In k (map Nullifiers.v1_nullifier records)).
    { assert (I0 : In k (map fst (Nullifiers.nullifierCounts records)))
        by (apply mapGet_In_keys; congruence).
      apply (proj1 (IK k)) in I0. destruct I0 as [[]|I0]. exact I0. }
    apply in_map_iff in I. destruct I as (r & K & Hr).
    assert (Hf : In r (filter (fun r => String.eqb (Nullifiers.v1_nullifier r) k) records)).
    { apply filter_In. split; [exact Hr|]. rewrite K. apply String.eqb_refl. }
    rewrite F. destruct (filter _ records); [contradiction | cbn; lia].
Qed.

(** ** Batches of the duplicate-id scripts *)

Section BatchProperties.

Local Open Scope nat_scope.
Local Open Scope list_scope.

Lemma firstn_then_firstn {T} (a c : nat) (l : list T) :
  firstn a l ++ firstn c (skipn a l) = firstn (a + c) l.
Proof.
  revert l. induction a as [|a IH]; intros l; [reflexivity|].
  destruct l as [|x l]; simpl.
  - now rewrite firstn_nil.
  - now rewrite IH.
Qed.

Lemma slice_app {T} (i j m : nat) (l : list T) :
  i <= j -> j <= m -> slice i j l ++ slice j m l = slice i m l.
Proof.
  intros H1 H2. unfold slice.
  replace (skipn j l) with (skipn (j - i) (skipn i l)).
  2:{ rewrite skipn_skipn. f_equal. lia. }
  rewrite firstn_then_firstn. f_equal. lia.
Qed.

Lemma length_slice {T} (i j : nat) (l : list T) :
  List.length (slice i j l) = Nat.min (j - i) (List.length l - i).
Proof. unfold slice. now rewrite length_firstn, length_skipn. Qed.

Lemma ceilDiv_bounds (n b : nat) :
  0 < b ->
  n <= Batches.ceilDiv n b * b /\
  (0 < n -> (Batches.ceilDiv n b - 1) * b < n) /\
  (n = 0 -> Batches.ceilDiv n b = 0).
Proof.
  intros B. unfold Batches.ceilDiv.
  pose proof (Nat.div_mod_eq (n + b - 1) b) as E.
  pose proof (Nat.mod_upper_bound (n + b - 1) b ltac:(lia)) as U.
  set (q := (n + b - 1) / b) in *. set (r := (n + b - 1) mod b) in *.
  clearbody q r.
  repeat split; nia.
Qed.

Lemma concat_slices {T} (b : nat) (l : list T) (n k : nat) :
  List.concat (map (fun i => slice (i * b) ((i + 1) * b) l) (seq k n)) =
  slice (k * b) ((k + n) * b) l.
Proof.
  revert k. induction n as [|n IH]; intros k.
  - simpl. unfold slice. replace ((k + 0) * b - k * b) with 0 by lia. reflexivity.
  - cbn [seq map List.concat]. rewrite IH.
    replace ((k + 1) * b) with (S k * b) by lia.
    rewrite slice_app by nia.
    replace (S k + n) with (k + S n) by lia. reflexivity.
Qed.

(** The batches of a positive size are the consecutive slices of the items:
    together they are the items, and none is empty or longer than the size. *)
Lemma createBatches_slices {T} (items : list T) (batchSize : nat) :
  0 < batchSize ->
  exists batches,
    Batches.createBatches items batchSize = Ok batches /\
    batches = map (fun i => slice (i * batchSize) ((i + 1) * batchSize) items)
                  (seq 0 (Batches.ceilDiv (List.length items) batchSize)) /\
    List.concat batches = items /\
    Forall (fun batch => 0 < List.length batch <= batchSize) batches.
Proof.
  intros B.
  destruct (ceilDiv_bounds (List.length items) batchSize B) as (U & L & Z0).
  eexists. split; [|split; [reflexivity|]].
  - destruct batchSize; [lia | reflexivity].
  - split.
    + rewrite concat_slices. unfold slice. cbn [skipn Nat.mul Nat.add].
      apply firstn_all2. lia.
    + apply Forall_forall. intros batch I.
      apply in_map_iff in I. destruct I as (i & <- & I).
      apply in_seq in I. rewrite length_slice.
      assert (0 < List.length items) by (destruct (List.length items); [rewrite Z0 in I by reflexivity; lia | lia]).
      specialize (L ltac:(assumption)).
      assert (i * batchSize < List.length items) by nia.
      split; [apply Nat.min_glb_lt; nia | etransitivity; [apply Nat.le_min_l | nia]].
Qed.

End BatchProperties.

(** [createBatches] with a positive size cuts the items into consecutive
    batches: put back together the batches are the items, in order; there
    are ceil(n / size) of them; none is empty or longer than the size, and
    every batch but the last has exactly the size. *)
Theorem createBatches_partition {T} (items : list T) (batchSize : nat) :
  (0 < batchSize)%nat ->
  exists batches,
    Batches.createBatches items batchSize = Ok batches /\
    List.concat batches = items /\
    List.length batches = Batches.ceilDiv (List.length items) batchSize /\
    Forall (fun batch => (0 < List.length batch <= batchSize)%nat) batches /\
    (forall i batch,
       nth_error batches i = Some batch -> (S i < List.length batches)%nat ->
       List.length batch = batchSize).
Proof.
  intros B.
  destruct (createBatches_slices items batchSize B) as (batches & E & S & C & F).
  exists batches. split; [exact E|]. split; [exact C|].
  assert (Len : List.length batches = Batches.ceilDiv (List.length items) batchSize)
    by (rewrite S, length_map, length_seq; reflexivity).
  split; [exact Len|]. split; [exact F|].
  intros i batch N Lt.
  destruct (ceilDiv_bounds (List.length items) batchSize B) as (U & L & Z0).
  rewrite Len in Lt.
  apply (nth_error_nth _ _ (slice (0 * batchSize) ((0 + 1) * batchSize) items)) in N.
  rewrite S in N.
  rewrite (map_nth (fun i => slice (i * batchSize) ((i + 1) * batchSize) items)) in N.
  rewrite seq_nth in N by lia. subst batch.
  rewrite length_slice.
  assert (0 < List.length items)%nat
    by (destruct (List.length items); [rewrite Z0 in Lt by reflexivity; lia | lia]).
  specialize (L ltac:(assumption)).
  assert ((i + 1) * batchSize <= List.length items)%nat by nia.
  rewrite Nat.min_l by nia. nia.
Qed.

Lemma createBatches_partition_witness :
  exists batches,
    Batches.createBatches [1; 2; 3; 4; 5] 2 = Ok batches /\
    List.concat batches = [1; 2; 3; 4; 5] /\
    List.length batches = 3%nat.
Proof.
  destruct (createBatches_partition [1; 2; 3; 4; 5] 2 ltac:(lia))
    as (batches & E & C & L & _).
  exists batches. split; [exact E|]. split; [exact C | exact L].
Defined.

(** ** The queries of [processSequentially] *)

Section QueryProperties.

Variables (Id Row Db : Type).
Variable queryBatch : list Id -> Db -> result Thrown (list Row) * Db.

Local Open Scope list_scope.

(** The loop sends the batches one after the other and stops at the first
    query that fails: the log of a run is a run of answered queries, ended
    by the failed one when the run throws. *)
Lemma queryBatches_log (batches : list (list Id)) :
  forall allResults (st : Batches.QState Id Row Db),
  let run := Batches.queryBatches queryBatch batches allResults st in
  exists log unsent,
    batches = map fst log ++ unsent /\
    Batches.queried (snd run) = Batches.queried st ++ log /\
    Forall (fun entry => exists d, fst (queryBatch (fst entry) d) = snd entry) log /\
    match fst run with
    | Ok rows =>
        unsent = [] /\
        exists answers,
          map snd log = map (@Ok Thrown (list Row)) answers /\
          rows = allResults ++ List.concat answers
    | Throw e =>
        exists answered failed answers,
          log = answered ++ [(failed, Throw e)] /\
          map snd answered = map (@Ok Thrown (list Row)) answers
    end.
Proof.
  induction batches as [|batch rest IH]; intros allResults st; cbv zeta.
  - exists [], []. cbn. rewrite !app_nil_r.
    repeat split; try constructor. exists []. now rewrite app_nil_r.
  - cbn [Batches.queryBatches].
    destruct (queryBatch batch (Batches.db st)) as [[batchResults|e] d] eqn:Q.
    + destruct (IH (allResults ++ batchResults)
                   {| Batches.db := d;
                      Batches.queried := Batches.queried st ++ [(batch, Ok batchResults)] |})
        as (log & unsent & E & L & F & R).
      cbv zeta in L, R. cbn [Batches.queried] in L.
      exists ((batch, Ok batchResults) :: log), unsent.
      split; [cbn; rewrite E; reflexivity|].
      split; [rewrite L, <- app_assoc; reflexivity|].
      split.
      { constructor; [|exact F]. exists (Batches.db st). cbn [fst snd]. rewrite Q. reflexivity. }
      destruct (fst (Batches.queryBatches queryBatch rest _ _)) as [rows|e].
      * destruct R as (-> & answers & A & ->). split; [reflexivity|].
        exists (batchResults :: answers). cbn. rewrite A, <- app_assoc. auto.
      * destruct R as (answered & failed & answers & -> & A).
        exists ((batch, Ok batchResults) :: answered), failed, (batchResults :: answers).
        cbn. rewrite A. auto.
    + exists [(batch, Throw e)], rest. cbn.
      split; [reflexivity|]. split; [reflexivity|].
      split.
      { constructor; [|constructor]. exists (Batches.db st). cbn [fst snd]. rewrite Q. reflexivity. }
      exists [], batch, []. auto.
Qed.

End QueryProperties.

(** [processSequentially] with a positive size sends the ids to the
    database in order, each at most once, in queries of at least one and at
    most [batchSize] ids, and every answer it takes is an answer of the
    database to the query it sent.  When it returns, every id has been sent,
    every query was answered, and the rows returned are the rows of the
    answers in the order of the queries.  When it throws, the queries before
    the last were answered, the last query is the one that failed, with the
    error the run throws, and no query follows it. *)
Theorem processSequentially_queries {Id Row Db : Type}
    (queryBatch : list Id -> Db -> result Thrown (list Row) * Db)
    (ids : list Id) (batchSize : nat) (st : Batches.QState Id Row Db) :
  (0 < batchSize)%nat ->
  let run := Batches.processSequentially queryBatch ids batchSize st in
  exists log,
    Batches.queried (snd run) = (Batches.queried st ++ log)%list /\
    Forall (fun entry =>
              (0 < List.length (fst entry) <= batchSize)%nat /\
              exists d, fst (queryBatch (fst entry) d) = snd entry) log /\
    (exists unsent, ids = (List.concat (map fst log) ++ unsent)%list) /\
    match fst run with
    | Ok rows =>
        List.concat (map fst log) = ids /\
        exists answers,
          map snd log = map (@Ok Thrown (list Row)) answers /\
          rows = List.concat answers
    | Throw e =>
        exists answered failed answers,
          log = (answered ++ [(failed, Throw e)])%list /\
          map snd answered = map (@Ok Thrown (list Row)) answers
    end.
Proof.
  intros B. cbv zeta. unfold Batches.processSequentially.
  destruct (createBatches_slices ids batchSize B) as (batches & E & _ & C & F).
  rewrite E.
  destruct (queryBatches_log Id Row Db queryBatch batches [] st)
    as (log & unsent & P & L & A & R).
  cbv zeta in L, R.
  exists log. split; [exact L|].
  rewrite P in F, C. apply Forall_app in F. destruct F as [F _].
  rewrite concat_app in C.
  split.
  { apply Forall_forall. intros entry I. split.
    - rewrite Forall_forall in F. apply F. apply in_map. exact I.
    - rewrite Forall_forall in A. apply A. exact I. }
  split; [exists (List.concat unsent); now rewrite C|].
  destruct (fst (Batches.queryBatches queryBatch batches [] st)) as [rows|e].
  - destruct R as (-> & answers & M & ->). cbn in C. rewrite app_nil_r in C.
    split; [exact C|]. exists answers. split; [exact M | reflexivity].
  - exact R.
Qed.

Lemma processSequentially_queries_witness :
  exists log,
    Batches.queried
      (snd (Batches.processSequentially (fun (q : list Z) (d : unit) => (Ok q, d))
              [7; 8; 9] 2 {| Batches.db := tt; Batches.queried := [] |})) = log /\
    List.concat (map fst log) = [7; 8; 9].
Proof.
  destruct (processSequentially_queries (fun (q : list Z) (d : unit) => (Ok q, d))
              [7; 8; 9] 2 {| Batches.db := tt; Batches.queried := [] |} ltac:(lia))
    as (log & L & _ & _ & R).
  exists log. split; [exact L|].
  change (match @Ok Thrown (list Z) [7; 8; 9] with
          | Ok rows =>
              List.concat (map fst log) = [7; 8; 9] /\
              exists answers,
                map snd log = map (@Ok Thrown (list Z)) answers /\
                rows = List.concat answers
          | Throw e =>
              exists answered failed answers,
                log = (answered ++ [(failed, Throw e)])%list /\
                map snd answered = map (@Ok Thrown (list Z)) answers
          end) in R.
  exact (proj1 R).
Defined.

(** ** [extractUniqueIds] *)

Section UniqueIds.

Variable parseInt : string -> Batches.Num.

Local Open Scope list_scope.

Lemma Num_eqb_eq (a b : Batches.Num) : Batches.Num_eqb a b = true <-> a = b.
Proof.
  destruct a as [x|], b as [y|]; cbn; try (split; congruence).
  rewrite Z.eqb_eq. split; congruence.
Qed.

Lemma setAdd_spec (x : Batches.Num) (acc : list Batches.Num) :
  NoDup acc ->
  NoDup (Batches.setAdd x acc) /\
  (forall y, In y (Batches.setAdd x acc) <-> In y acc \/ y = x).
Proof.
  intros N. unfold Batches.setAdd.
  destruct (existsb (Batches.Num_eqb x) acc) eqn:E.
  - split; [exact N|]. intros y. split; [tauto|]. intros [I | ->]; [exact I|].
    apply existsb_exists in E. destruct E as (z & I & Q).
    apply Num_eqb_eq in Q. now subst.
  - split.
    + apply NoDup_app; [exact N | repeat constructor; intros [] |].
      intros y I [<-|[]].
      assert (T : existsb (Batches.Num_eqb x) acc = true)
        by (apply existsb_exists; exists x; split; [exact I | now apply Num_eqb_eq]).
      congruence.
    + intros y. rewrite in_app_iff. cbn. intuition.
Qed.

Lemma addField_spec (field : option string) (acc : list Batches.Num) :
  NoDup acc ->
  NoDup (Batches.addField parseInt field acc) /\
  (forall y, In y (Batches.addField parseInt field acc) <->
             In y acc \/ exists s, field = Some s /\ s <> "" /\ parseInt s = y).
Proof.
  intros N. unfold Batches.addField.
  destruct field as [s|].
  - destruct (String.eqb_spec s "") as [->|D]; cbn [negb].
    + split; [exact N|]. intros y. split; [tauto|].
      intros [I|(s & [= <-] & D & _)]; [exact I | congruence].
    + destruct (setAdd_spec (parseInt s) acc N) as [N' I']. split; [exact N'|].
      intros y. rewrite I'. split.
      * intros [I | ->]; [now left | right; now exists s].
      * intros [I|(s' & [= <-] & _ & <-)]; [now left | now right].
  - split; [exact N|]. intros y. split; [tauto|].
    intros [I|(s & [=] & _)]. exact I.
Qed.

Lemma extractUniqueIds_fold (records : list Batches.CsvRecord) :
  forall acc, NoDup acc ->
  let ids :=
    fold_left (fun acc record =>
                 Batches.addField parseInt (Batches.id_b record)
                   (Batches.addField parseInt (Batches.id_a record) acc))
              records acc in
  NoDup ids /\
  (forall y, In y ids <->
     In y acc \/
     exists record s,
       In record records /\
       (Batches.id_a record = Some s \/ Batches.id_b record = Some s) /\
       s <> "" /\ parseInt s = y).
Proof.
  induction records as [|record records IH]; intros acc N; cbv zeta.
  - cbn. split; [exact N|]. intros y. split; [tauto|].
    intros [I|(r & s & [] & _)]. exact I.
  - cbn [fold_left].
    destruct (addField_spec (Batches.id_a record) acc N) as [Na Ia].
    destruct (addField_spec (Batches.id_b record) _ Na) as [Nb Ib].
    destruct (IH _ Nb) as [Nf If]. cbv zeta in Nf, If.
    split; [exact Nf|]. intros y. rewrite If, Ib, Ia. split.
    + intros [[[I|(s & E & D & P)]|(s & E & D & P)]|(r & s & I & E & D & P)].
      * now left.
      * right. exists record, s. cbn. tauto.
      * right. exists record, s. cbn. tauto.
      * right. exists r, s. cbn. tauto.
    + intros [I|(r & s & [<-|I] & [E|E] & D & P)].
      * now do 3 left.
      * do 2 left. right. now exists s.
      * left. right. now exists s.
      * right. exists r, s. tauto.
      * right. exists r, s. tauto.
Qed.

End UniqueIds.

(** [extractUniqueIds] returns every id once: the list has no duplicates
    (NaN included, which a Set holds once), and a number is in it exactly
    when it is [parseInt] of a non-empty [id_a] or [id_b] field of a record. *)
Theorem extractUniqueIds_set (parseInt : string -> Batches.Num)
    (records : list Batches.CsvRecord) :
  NoDup (Batches.extractUniqueIds parseInt records) /\
  (forall y, In y (Batches.extractUniqueIds parseInt records) <->
     exists record s,
       In record records /\
       (Batches.id_a record = Some s \/ Batches.id_b record = Some s) /\
       s <> "" /\ parseInt s = y).
Proof.
  destruct (extractUniqueIds_fold parseInt records [] (NoDup_nil _)) as [N I].
  cbv zeta in N, I. split; [exact N|].
  intros y. unfold Batches.extractUniqueIds. rewrite I. cbn. tauto.
Qed.

(** ** The zero-score scanner *)

Section ScanProperties.

Variable Chain : Type.
Variable readAll : list ZeroScores.Call -> Chain -> (nat -> ZeroScores.Answer) * Chain.

Local Open Scope list_scope.

Lemma combine_app_same {A B} (l1 l2 : list A) (m1 m2 : list B) :
  List.length l1 = List.length m1 ->
  combine (l1 ++ l2) (m1 ++ m2) = combine l1 m1 ++ combine l2 m2.
Proof.
  revert m1. induction l1 as [|a l1 IH]; intros [|b m1] L; try discriminate.
  - reflexivity.
  - cbn. f_equal. apply IH. now injection L.
Qed.

Lemma map_fst_combine_same {A B} (l : list A) :
  forall m : list B, List.length l = List.length m -> map fst (combine l m) = l.
Proof.
  induction l as [|a l IH]; intros [|b m] L; try discriminate; [reflexivity|].
  cbn. f_equal. apply IH. now injection L.
Qed.

Lemma kept_app (r1 r2 : list (option string)) :
  ZeroScores.kept (r1 ++ r2) = ZeroScores.kept r1 ++ ZeroScores.kept r2.
Proof. unfold ZeroScores.kept. apply flat_map_app. Qed.

(** The reads of one batch: one answer per address of the batch. *)
Lemma scanBatch_answers communityId now batch (st : ZeroScores.ScanState Chain) :
  exists answers,
    List.length answers = List.length batch /\
    ZeroScores.observed (snd (ZeroScores.scanBatch readAll communityId now batch st)) =
      ZeroScores.observed st ++
      combine (map (ZeroScores.callFor communityId) batch) answers /\
    fst (ZeroScores.scanBatch readAll communityId now batch st) =
      ZeroScores.kept
        (map (fun p => ZeroScores.verdict now (fst p) (snd p)) (combine batch answers)).
Proof.
  unfold ZeroScores.scanBatch.
  destruct (readAll _ _) as [answer c].
  exists (map answer (seq 0 (List.length batch))).
  rewrite length_map, length_seq. repeat split.
Qed.

Lemma scanLoop_answers communityId now addresses i found
    (st : ZeroScores.ScanState Chain) :
  exists answers,
    List.length answers = List.length (skipn i addresses) /\
    ZeroScores.observed
      (snd (ZeroScores.scanLoop readAll communityId now addresses i found st)) =
      ZeroScores.observed st ++
      combine (map (ZeroScores.callFor communityId) (skipn i addresses)) answers /\
    fst (ZeroScores.scanLoop readAll communityId now addresses i found st) =
      found ++
      ZeroScores.kept
        (map (fun p => ZeroScores.verdict now (fst p) (snd p))
             (combine (skipn i addresses) answers)).
Proof.
  funelim (ZeroScores.scanLoop readAll communityId now addresses i found st).
  - exists []. rewrite skipn_all2 by lia. cbn. now rewrite !app_nil_r.
  - match goal with E : ZeroScores.scanBatch _ _ _ _ _ = _ |- _ => rename E into SB end.
    destruct (scanBatch_answers communityId now
                (slice i (i + ZeroScores.scanBatchSize) addresses) st)
      as (answers1 & L1 & O1 & F1).
    rewrite SB in O1, F1. cbn [fst snd] in O1, F1.
    match goal with IH : exists _, _ |- _ => destruct IH as (answers2 & L2 & O2 & F2) end.
    exists (answers1 ++ answers2).
    rewrite <- (slice_skipn addresses i ZeroScores.scanBatchSize).
    rewrite map_app, !combine_app_same, map_app, kept_app
      by (rewrite ?length_map; congruence).
    rewrite !length_app, L1, L2. split; [reflexivity|].
    rewrite O2, O1, F2, F1, <- !app_assoc. split; reflexivity.
Qed.

Lemma kept_zeroUnexpired communityId now (addresses : list string) :
  forall answers,
  ZeroScores.kept
    (map (fun p => ZeroScores.verdict now (fst p) (snd p)) (combine addresses answers)) =
  map (fun read => ZeroScores.addressOf (fst read))
      (filter (ZeroScores.zeroUnexpired now)
              (combine (map (ZeroScores.callFor communityId) addresses) answers)).
Proof.
  assert (A : forall a, ZeroScores.addressOf (ZeroScores.callFor communityId a) = a)
    by (intros a; unfold ZeroScores.callFor; destruct (communityId =? 335); reflexivity).
  induction addresses as [|a addresses IH]; intros [|answer answers]; try reflexivity.
  cbn [combine map ZeroScores.kept flat_map filter].
  fold (ZeroScores.kept
          (map (fun p => ZeroScores.verdict now (fst p) (snd p))
               (combine addresses answers))).
  unfold ZeroScores.zeroUnexpired at 1, ZeroScores.verdict at 1.
  cbn [fst snd]. rewrite A, IH.
  destruct answer as [[score expirationTime]|e].
  - destruct ((now <? expirationTime) && (score =? 0)), (String.eqb a "");
      cbn; rewrite ?A; reflexivity.
  - destruct (String.eqb a ""); reflexivity.
Qed.

End ScanProperties.

(** [getZeroScoreAddresses] never throws and reads the contract once for
    each address, in the order of the list: with [scores(address)] when the
    community id is 335, with [communityScores(communityId, address)]
    otherwise.  It returns, in that order, the addresses (other than the
    empty string) whose read answered a score of zero with an expiration
    time later than now; an address whose read failed is left out. *)
Theorem getZeroScoreAddresses_scan {Chain : Type}
    (readAll : list ZeroScores.Call -> Chain -> (nat -> ZeroScores.Answer) * Chain)
    (addresses : list string) (communityId now : Z)
    (st : ZeroScores.ScanState Chain) :
  let run := ZeroScores.getZeroScoreAddresses readAll addresses communityId now st in
  exists reads,
    ZeroScores.observed (snd run) = (ZeroScores.observed st ++ reads)%list /\
    map fst reads =
      map (fun address =>
             if communityId =? 335 then ZeroScores.Scores address
             else ZeroScores.CommunityScores communityId address) addresses /\
    fst run =
      map (fun read => ZeroScores.addressOf (fst read))
          (filter (ZeroScores.zeroUnexpired now) reads).
Proof.
  cbv zeta. unfold ZeroScores.getZeroScoreAddresses.
  destruct (scanLoop_answers Chain readAll communityId now addresses 0 [] st)
    as (answers & L & O & F).
  cbn [skipn] in L, O, F.
  exists (combine (map (ZeroScores.callFor communityId) addresses) answers).
  split; [exact O|]. split.
  - rewrite map_fst_combine_same by (rewrite length_map; congruence). reflexivity.
  - rewrite F. cbn [app]. apply kept_zeroUnexpired.
Qed.
